(** * Makes CLI ([src/cli/main/__main__.py]): a shallow embedding

    The command-line front end of Makes resolves a project source, builds a
    reproducible checkout of it, lists the project's outputs through Nix,
    builds the requested one, pushes it to a binary cache and finally runs
    the output's action script.

    The embedding follows the Python module function by function.  Python
    [str] and [bytes] are both byte strings here (a [str] is read as its
    UTF-8 encoding).  Everything the module does to the outside world
    (files, subprocesses, the clock, the diagnostic stream, random names)
    goes through an explicit [World] that is threaded by a small
    state-and-exception monad. *)

From Stdlib Require Import ZArith QArith List String Ascii Lia Bool.
From Stdlib Require OrderedTypeEx.
From stdpp Require Import base option gmap strings list sorting.

Open Scope string_scope.
Open Scope list_scope.

Arguments String.append !s1 s2 : simpl nomatch.

(** ** Byte-string helpers *)

Definition is_slash (c : ascii) : bool := Ascii.eqb c "/".

(** Python truthiness of a string: [bool(s)]. *)
Definition truthy (s : string) : bool :=
  match s with EmptyString => false | String _ _ => true end.

(** [s.startswith("/")]. *)
Definition starts_with_slash (s : string) : bool :=
  match s with String c _ => is_slash c | EmptyString => false end.

(** [s.endswith("/")]. *)
Fixpoint ends_with_slash (s : string) : bool :=
  match s with
  | EmptyString => false
  | String c EmptyString => is_slash c
  | String _ r => ends_with_slash r
  end.

(** [sep.join(l)]. *)
Fixpoint str_join (sep : string) (l : list string) : string :=
  match l with
  | [] => ""
  | [x] => x
  | x :: r => x +:+ sep +:+ str_join sep r
  end.

(** [s.replace(a, b)] for single characters [a] and [b]. *)
Fixpoint replace_char (a b : ascii) (s : string) : string :=
  match s with
  | EmptyString => EmptyString
  | String c r => String (if Ascii.eqb c a then b else c) (replace_char a b r)
  end.

(** [s.split("/")]: the pieces between slashes, never an empty list. *)
Fixpoint split_slash (s : string) : list string :=
  match s with
  | EmptyString => [""]
  | String c r =>
      if is_slash c then "" :: split_slash r
      else match split_slash r with
           | [] => [String c ""]
           | x :: xs => String c x :: xs
           end
  end.

(** [(p[:i], p[i:])] for [i = p.rfind("/") + 1]. *)
Fixpoint rsplit_slash (p : string) : string * string :=
  match p with
  | EmptyString => ("", "")
  | String c r =>
      let '(h, t) := rsplit_slash r in
      if truthy h then (String c h, t)
      else if is_slash c then ("/", r)
      else ("", String c r)
  end.

(** [s.rstrip("/")]. *)
Fixpoint rstrip_slash (s : string) : string :=
  match s with
  | EmptyString => EmptyString
  | String c r =>
      let r' := rstrip_slash r in
      if negb (truthy r') && is_slash c then EmptyString else String c r'
  end.

(** ** [posixpath] *)

(** [posixpath.join(a, b)]. *)
Definition join (a b : string) : string :=
  if starts_with_slash b then b
  else if negb (truthy a) || ends_with_slash a then a +:+ b
  else a +:+ "/" +:+ b.

(** [posixpath.join(a, *p)]. *)
Definition join_all (a : string) (p : list string) : string :=
  fold_left join p a.

(** [posixpath.dirname(p)]: a head made only of slashes is kept as it is,
    otherwise its trailing slashes are stripped. *)
Definition dirname (p : string) : string :=
  let head := fst (rsplit_slash p) in
  if truthy head && truthy (rstrip_slash head) then rstrip_slash head else head.

(** [posixpath.basename(p)]. *)
Definition basename (p : string) : string := snd (rsplit_slash p).

(** The loop of [posixpath.normpath] over the components; [new_comps] is
    kept reversed. *)
Fixpoint normpath_comps (initial_slashes : nat) (comps new_comps : list string)
  : list string :=
  match comps with
  | [] => rev new_comps
  | comp :: rest =>
      if String.eqb comp "" || String.eqb comp "." then
        normpath_comps initial_slashes rest new_comps
      else if negb (String.eqb comp "..")
              || (Nat.eqb initial_slashes 0
                  && match new_comps with [] => true | _ => false end)
              || match new_comps with
                 | last :: _ => String.eqb last ".."
                 | [] => false
                 end
      then normpath_comps initial_slashes rest (comp :: new_comps)
      else normpath_comps initial_slashes rest (tl new_comps)
  end.

(** [posixpath.normpath(path)]. *)
Definition normpath (path : string) : string :=
  if negb (truthy path) then "."
  else
    let initial_slashes :=
      if starts_with_slash path then
        if String.prefix "//" path && negb (String.prefix "///" path)
        then 2 else 1
      else 0 in
    let comps := normpath_comps initial_slashes (split_slash path) [] in
    let path' :=
      match initial_slashes with
      | 0 => str_join "/" comps
      | 1 => "/" +:+ str_join "/" comps
      | _ => "//" +:+ str_join "/" comps
      end in
    if truthy path' then path' else ".".

(** [posixpath.abspath(path)], with the working directory as a parameter. *)
Definition abspath_from (cwd path : string) : string :=
  normpath (if starts_with_slash path then path else join cwd path).

(** ** [urllib.parse.quote_plus]

    With the default [safe=''] every byte outside [A-Za-z0-9_.-~] is
    written [%XX] (upper-case hexadecimal), except the space, which becomes
    a plus sign. *)

Definition always_safe (c : ascii) : bool :=
  let n := nat_of_ascii c in
  (65 <=? n)%nat && (n <=? 90)%nat
  || (97 <=? n)%nat && (n <=? 122)%nat
  || (48 <=? n)%nat && (n <=? 57)%nat
  || Ascii.eqb c "_" || Ascii.eqb c "." || Ascii.eqb c "-" || Ascii.eqb c "~".

Definition hex_digit (n : nat) : ascii :=
  if (n <? 10)%nat then ascii_of_nat (48 + n) else ascii_of_nat (55 + n).

Definition quote_byte (c : ascii) : string :=
  if always_safe c then String c ""
  else if Ascii.eqb c " " then "+"
  else String "%" (String (hex_digit (nat_of_ascii c / 16))
                     (String (hex_digit (nat_of_ascii c mod 16)) "")).

Fixpoint url_quote (s : string) : string :=
  match s with
  | EmptyString => EmptyString
  | String c r => quote_byte c +:+ url_quote r
  end.

(** ** The fragment of [re] that the module uses

    Both patterns are made of literal characters and three named groups,
    each a greedy "any characters" (dot, star), and are closed by a dollar.
    The matcher backtracks as [re.match] does: a group first tries to take
    one more character (never a line feed), and gives it back when the rest
    of the pattern fails. *)

Inductive re_item :=
| RLit (c : ascii)
| RGroup.

Definition newline : ascii := ascii_of_nat 10.

(** [$]: the end of the string, or just before a final line feed. *)
Definition at_dollar (s : string) : bool :=
  match s with
  | EmptyString => true
  | String c EmptyString => Ascii.eqb c newline
  | _ => false
  end.

(** A greedy group followed by the rest of the pattern, [k]. *)
Fixpoint re_star (k : string -> option (list string)) (s : string)
  : option (list string) :=
  let stop :=
    match k s with
    | Some gs => Some ("" :: gs)
    | None => None
    end in
  match s with
  | String d r =>
      if Ascii.eqb d newline then stop
      else match re_star k r with
           | Some (g :: gs) => Some (String d g :: gs)
           | _ => stop
           end
  | EmptyString => stop
  end.

Fixpoint re_match (items : list re_item) (s : string) {struct items}
  : option (list string) :=
  match items with
  | [] => if at_dollar s then Some [] else None
  | RLit c :: rest =>
      match s with
      | String d r => if Ascii.eqb c d then re_match rest r else None
      | EmptyString => None
      end
  | RGroup :: rest => re_star (re_match rest) s
  end.

Fixpoint re_lit (s : string) : list re_item :=
  match s with
  | EmptyString => []
  | String c r => RLit c :: re_lit r
  end.

(** The pattern of a hosted source: the provider and a colon, the group
    [owner], a slash, the group [repo], an at sign, the group [rev]. *)
Definition hosted_regex (provider : string) : list re_item :=
  re_lit provider ++ [RLit ":"; RGroup; RLit "/"; RGroup; RLit "@"; RGroup].

(** ** Reference parsing *)

Definition _clone_src_github (src : string)
  : option (string * string * string) :=
  match re_match (hosted_regex "github") src with
  | Some [owner; repo; rev] =>
      let owner := url_quote owner in
      let repo := url_quote repo in
      let rev := url_quote rev in
      let remote := "https://github.com/" +:+ owner +:+ "/" +:+ repo in
      let cache_key := "github-" +:+ owner +:+ "-" +:+ repo +:+ "-" +:+ rev in
      Some (cache_key, remote, rev)
  | _ => None
  end.

Definition _clone_src_gitlab (src : string)
  : option (string * string * string) :=
  match re_match (hosted_regex "gitlab") src with
  | Some [owner; repo; rev] =>
      let owner := url_quote owner in
      let repo := url_quote repo in
      let rev := url_quote rev in
      let remote :=
        "https://gitlab.com/" +:+ owner +:+ "/" +:+ repo +:+ ".git" in
      let cache_key := "gitlab-" +:+ owner +:+ "-" +:+ repo +:+ "-" +:+ rev in
      Some (cache_key, remote, rev)
  | _ => None
  end.

(** ** The outside world *)

(** A file-system entry.  The map from path strings to entries is flat: a
    directory is an entry of its own, and the entries below it are the keys
    that extend its path by a slash.  [ctime] is what [os.path.getctime]
    reads. *)
Inductive node :=
| File (content : string) (ctime : Q)
| Dir (ctime : Q).

Definition is_dir_node (n : option node) : bool :=
  match n with Some (Dir _) => true | _ => false end.

Definition content_of (n : option node) : option string :=
  match n with Some (File c _) => Some c | _ => None end.

Definition node_ctime (n : node) : Q :=
  match n with File _ t => t | Dir t => t end.

(** [k] lies below the directory [d]. *)
Definition under (d k : string) : bool := String.prefix (d +:+ "/") k.

(** One call of [subprocess.Popen] as [_run] makes it.  The module never
    passes [env] or [stdin]. *)
Record run_call := mkCall {
  call_args : list string;
  call_cwd : option string;
  call_capture_io : bool;
}.

(** What a finished subprocess leaves behind. *)
Record proc_result := mkProcResult {
  returncode : Z;
  proc_stdout : string;
  proc_stderr : string;
  fs_after : gmap string node;
  clock_after : Q;
}.

(** An entry of [ON_EXIT]: [partial(shutil.rmtree, path, ignore_errors=b)]. *)
Inductive action :=
| RmtreeAction (path : string) (ignore_errors : bool).

(** What an observer of the process sees, in order. *)
Inductive event :=
| EvLog (line : string)
| EvRun (call : run_call)
| EvRmtree (path : string).

Record World := mkWorld {
  fs : gmap string node;
  clock : Q;
  tmp_counter : nat;
  uuid_counter : nat;
  ON_EXIT : list action;
  events : list event;
}.

Definition set_fs (f : gmap string node) (w : World) : World :=
  mkWorld f (clock w) (tmp_counter w) (uuid_counter w) (ON_EXIT w) (events w).
Definition set_clock (t : Q) (w : World) : World :=
  mkWorld (fs w) t (tmp_counter w) (uuid_counter w) (ON_EXIT w) (events w).
Definition set_tmp_counter (n : nat) (w : World) : World :=
  mkWorld (fs w) (clock w) n (uuid_counter w) (ON_EXIT w) (events w).
Definition set_uuid_counter (n : nat) (w : World) : World :=
  mkWorld (fs w) (clock w) (tmp_counter w) n (ON_EXIT w) (events w).
Definition set_ON_EXIT (l : list action) (w : World) : World :=
  mkWorld (fs w) (clock w) (tmp_counter w) (uuid_counter w) l (events w).
Definition add_event (e : event) (w : World) : World :=
  mkWorld (fs w) (clock w) (tmp_counter w) (uuid_counter w) (ON_EXIT w)
    (events w ++ [e]).

(** The module's constants, read from the environment at import, and the
    collaborators it does not implement: the subprocesses, the JSON decoder
    and the sources of random names.  [proc] says what a subprocess does
    once it runs; a program that cannot be started at all (what [Popen]
    raises then) is outside the model. *)
Class Env := mkEnv {
  CWD : string;                       (* getcwd() *)
  HOME_IMPURE : string;               (* environ["HOME_IMPURE"] *)
  OUT_BASE : string;                  (* tempfile.mkdtemp() *)
  __MAKES_SRC__ : string;
  __NIX_STABLE__ : string;
  __NIX_UNSTABLE__ : string;
  environ : gmap string string;
  platform : string;                  (* sys.platform *)
  tempdir : string;                   (* tempfile.gettempdir() *)
  tmp_name : nat -> string;           (* the random part of temporary names *)
  uuid_hex : nat -> string;           (* the successive uuid4().hex *)
  proc : World -> run_call -> proc_result;   (* a started subprocess *)
  json_load_attrs : string -> option (list string);
  json_load_cache : string -> option (list (gmap string string));
}.

(** ** Exceptions and the monad *)

Inductive os_error :=
| FileNotFoundError
| FileExistsError
| IsADirectoryError
| NotADirectoryError.

Inductive exn :=
| Error (msg : string) (captured : option (string * string))
| SystemExit (code : Z)
| OSError (kind : os_error) (path : string)
| KeyError (key : string)
| IndexError
| JSONDecodeError.

Inductive result (A : Type) :=
| Ok (a : A)
| Raise (e : exn).
Arguments Ok {A} a.
Arguments Raise {A} e.

Definition M (A : Type) : Type := World -> result A * World.

Definition ret {A} (a : A) : M A := fun w => (Ok a, w).
Definition raise {A} (e : exn) : M A := fun w => (Raise e, w).
Definition bind {A B} (m : M A) (k : A -> M B) : M B :=
  fun w => match m w with
           | (Ok a, w') => k a w'
           | (Raise e, w') => (Raise e, w')
           end.

Notation "'let*' x ':=' m 'in' k" := (bind m (fun x => k))
  (at level 10, x name, m at level 100, k at level 200).
Notation "'let*' ' p ':=' m 'in' k" := (bind m (fun x => let 'p := x in k))
  (at level 10, p pattern, m at level 100, k at level 200).
Notation "m ;; k" := (bind m (fun _ => k))
  (at level 100, k at level 200, right associativity).

(** [if c: m] *)
Definition when (c : bool) (m : M unit) : M unit := if c then m else ret tt.

(** [for x in l: body(x)] *)
Fixpoint for_each {A} (l : list A) (body : A -> M unit) : M unit :=
  match l with
  | [] => ret tt
  | x :: r => body x ;; for_each r body
  end.

(** [with suppress(BaseException): m] *)
Definition suppress (m : M unit) : M unit :=
  fun w => match m w with
           | (Ok _, w') => (Ok tt, w')
           | (Raise _, w') => (Ok tt, w')
           end.

Definition get_world : M World := fun w => (Ok w, w).
Definition modify (f : World -> World) : M unit := fun w => (Ok tt, f w).

(** [print] of the arguments to [sys.stderr]; the module passes at most
    one argument. *)
Definition _log (args : list string) : M unit :=
  modify (add_event (EvLog (str_join " " args))).

(** [_if]: the values when the condition holds, no value otherwise. *)
Definition _if {A} (condition : bool) (value : list A) : list A :=
  if condition then value else [].

(** [bytes.decode().splitlines()]: the line boundaries of [str.splitlines]
    are LF, CR, CR LF, VT, FF, FS, GS, RS and, in UTF-8, NEL (C2 85),
    LS (E2 80 A8) and PS (E2 80 A9).  [cur] is the line being read,
    reversed; [None] when no character was read since the last boundary. *)
Definition is_line_boundary (c : ascii) : bool :=
  let n := nat_of_ascii c in
  Nat.eqb n 10 || Nat.eqb n 13 || Nat.eqb n 11 || Nat.eqb n 12
  || Nat.eqb n 28 || Nat.eqb n 29 || Nat.eqb n 30.

Definition close_line (cur : option (list ascii)) : string :=
  string_of_list_ascii (rev (default [] cur)).

Definition push_char (c : ascii) (cur : option (list ascii))
  : option (list ascii) :=
  Some (c :: default [] cur).

Fixpoint splitlines_go (cur : option (list ascii)) (s : string)
  : list string :=
  match s with
  | EmptyString =>
      match cur with Some _ => [close_line cur] | None => [] end
  | String c r =>
      if is_line_boundary c then
        close_line cur ::
          match r with
          | String d r' =>
              if Nat.eqb (nat_of_ascii c) 13 && Nat.eqb (nat_of_ascii d) 10
              then splitlines_go None r'
              else splitlines_go None r
          | EmptyString => splitlines_go None r
          end
      else
        match r with
        | String d r' =>
            if Nat.eqb (nat_of_ascii c) 194 && Nat.eqb (nat_of_ascii d) 133
            then close_line cur :: splitlines_go None r'
            else
              match r' with
              | String e r'' =>
                  if Nat.eqb (nat_of_ascii c) 226
                     && Nat.eqb (nat_of_ascii d) 128
                     && (Nat.eqb (nat_of_ascii e) 168
                         || Nat.eqb (nat_of_ascii e) 169)
                  then close_line cur :: splitlines_go None r''
                  else splitlines_go (push_char c cur) r
              | EmptyString => splitlines_go (push_char c cur) r
              end
        | EmptyString => splitlines_go (push_char c cur) r
        end
  end.

Definition splitlines (s : string) : list string := splitlines_go None s.

Definition LF : string := String newline "".

(** ** [sorted] over a set of strings

    [str] values compare by code point, which on UTF-8 is the bytewise
    lexicographic order.  A set holds each string once, so the sorted list
    is the same whatever the sorting algorithm. *)

Definition str_le (a b : string) : Prop := String.leb a b = true.

#[global] Instance str_le_dec (a b : string) : Decision (str_le a b) :=
  bool_eq_dec (String.leb a b) true.

Definition sorted (paths : gset string) : list string :=
  merge_sort str_le (elements paths).

Section Makes.
Context {E : Env}.

(** ** [os], [os.path], [shutil], [tempfile], [time], [uuid] *)

(** The entry a path string names: relative paths are taken from the working
    directory, and [.], [..] and repeated slashes are resolved. *)
Definition resolve (p : string) : string := abspath_from CWD p.

(** [posixpath.abspath(path)] *)
Definition abspath (path : string) : string := abspath_from CWD path.

(** [os.path.exists(p)] *)
Definition exists_ (p : string) : M bool :=
  fun w => (Ok (bool_decide (is_Some (fs w !! resolve p))), w).

(** [os.path.getctime(p)] *)
Definition getctime (p : string) : M Q :=
  fun w => match fs w !! resolve p with
           | Some n => (Ok (node_ctime n), w)
           | None => (Raise (OSError FileNotFoundError p), w)
           end.

(** [time.time()] *)
Definition time : M Q := fun w => (Ok (clock w), w).

(** What stops a new entry from being created at [p]: its parent directory
    must exist.  A path without a slash lives in the working directory. *)
Definition parent_error (f : gmap string node) (p : string)
  : option os_error :=
  if truthy (dirname p) then
    match f !! resolve (dirname p) with
    | Some (Dir _) => None
    | Some (File _ _) => Some NotADirectoryError
    | None => Some FileNotFoundError
    end
  else None.

(** [os.mkdir(name)] *)
Definition mkdir (name : string) : M unit :=
  fun w =>
    match fs w !! resolve name with
    | Some _ => (Raise (OSError FileExistsError name), w)
    | None =>
        match parent_error (fs w) name with
        | Some err => (Raise (OSError err name), w)
        | None => (Ok tt, set_fs (<[resolve name := Dir (clock w)]> (fs w)) w)
        end
    end.

(** The head and tail that [os.makedirs] works on: [posixpath.split(name)],
    and the split of its head when the tail is empty. *)
Definition makedirs_split (name : string) : string * string :=
  if truthy (basename name) then (dirname name, basename name)
  else (dirname (dirname name), basename (dirname name)).

(** [os.makedirs(name)] with [exist_ok=False]: the parents first, then the
    leaf.  [fuel] bounds the recursion on the head, which is shorter than
    the name at each step; [makedirs] starts with the length of the name. *)
Fixpoint makedirs_go (fuel : nat) (name : string) : M unit :=
  let '(head, tail) := makedirs_split name in
  match fuel with
  | S fuel' =>
      let* head_exists := exists_ head in
      if truthy head && truthy tail && negb head_exists then
        (fun w =>
           match makedirs_go fuel' head w with
           | (Raise (OSError FileExistsError _), w') => (Ok tt, w')
           | r => r
           end) ;;
        if String.eqb tail "." then ret tt else mkdir name
      else mkdir name
  | O => mkdir name
  end.

Definition makedirs (name : string) : M unit :=
  makedirs_go (String.length name) name.

(** [os.remove(p)] *)
Definition remove (p : string) : M unit :=
  fun w =>
    match fs w !! resolve p with
    | Some (File _ _) => (Ok tt, set_fs (delete (resolve p) (fs w)) w)
    | Some (Dir _) => (Raise (OSError IsADirectoryError p), w)
    | None => (Raise (OSError FileNotFoundError p), w)
    end.

(** [shutil.copy(src, dst)]: when [dst] is a directory the file is copied
    into it under the base name of [src]. *)
Definition shutil_copy (src dst : string) : M unit :=
  fun w =>
    let dst :=
      if is_dir_node (fs w !! resolve dst) then join dst (basename src)
      else dst in
    match fs w !! resolve src with
    | None => (Raise (OSError FileNotFoundError src), w)
    | Some (Dir _) => (Raise (OSError IsADirectoryError src), w)
    | Some (File content _) =>
        match fs w !! resolve dst with
        | Some (Dir _) => (Raise (OSError IsADirectoryError dst), w)
        | Some (File _ _) =>
            (Ok tt, set_fs (<[resolve dst := File content (clock w)]> (fs w)) w)
        | None =>
            match parent_error (fs w) dst with
            | Some err => (Raise (OSError err dst), w)
            | None =>
                (Ok tt,
                 set_fs (<[resolve dst := File content (clock w)]> (fs w)) w)
            end
        end
    end.

(** The entries that [shutil.rmtree(d)] deletes. *)
Definition in_tree (d k : string) : bool := String.eqb k d || under d k.

(** [shutil.rmtree(path, ignore_errors=ignore_errors)] *)
Definition rmtree (path : string) (ignore_errors : bool) : M unit :=
  fun w =>
    let w := add_event (EvRmtree path) w in
    match fs w !! resolve path with
    | Some (Dir _) =>
        (Ok tt,
         set_fs (filter (fun kv => in_tree (resolve path) kv.1 = false) (fs w))
           w)
    | Some (File _ _) =>
        if ignore_errors then (Ok tt, w)
        else (Raise (OSError NotADirectoryError path), w)
    | None =>
        if ignore_errors then (Ok tt, w)
        else (Raise (OSError FileNotFoundError path), w)
    end.

(** The characters of [k] after the first [n]. *)
Fixpoint drop_chars (n : nat) (k : string) : string :=
  match n, k with
  | S n', String _ r => drop_chars n' r
  | _, _ => k
  end.

(** [shutil.copytree(src, dst)]: [dst] must not exist; it is created with
    its parents and receives a copy of every entry of the tree at [src]. *)
Definition copytree (src dst : string) : M unit :=
  let* w := get_world in
  match fs w !! resolve src with
  | None => raise (OSError FileNotFoundError src)
  | Some (File _ _) => raise (OSError NotADirectoryError src)
  | Some (Dir _) =>
      makedirs dst ;;
      modify (fun w' =>
        set_fs
          (map_fold
             (fun k n acc =>
                if under (resolve src) k then
                  <[resolve dst
                    +:+ drop_chars (String.length (resolve src)) k := n]> acc
                else acc)
             (fs w') (fs w))
          w')
  end.

(** [tempfile.TemporaryDirectory(prefix=prefix).name]: the object is dropped
    at once, which removes the directory it made; what stays is a name that
    was free. *)
Definition TemporaryDirectory_name (prefix : string) : M string :=
  fun w => (Ok (join tempdir (prefix +:+ tmp_name (tmp_counter w))),
            set_tmp_counter (S (tmp_counter w)) w).

(** [tempfile.mktemp()] *)
Definition mktemp : M string :=
  fun w => (Ok (join tempdir ("tmp" +:+ tmp_name (tmp_counter w))),
            set_tmp_counter (S (tmp_counter w)) w).

(** [uuid4().hex] *)
Definition uuid_hex_next : M string :=
  fun w => (Ok (uuid_hex (uuid_counter w)),
            set_uuid_counter (S (uuid_counter w)) w).

(** [open(path, encoding="utf-8")] and reading the file to its end. *)
Definition read_text (path : string) : M string :=
  fun w => match fs w !! resolve path with
           | Some (File content _) => (Ok content, w)
           | Some (Dir _) => (Raise (OSError IsADirectoryError path), w)
           | None => (Raise (OSError FileNotFoundError path), w)
           end.

(** [d[key]] on a [dict] *)
Definition getitem (d : gmap string string) (key : string) : M string :=
  match d !! key with
  | Some v => ret v
  | None => raise (KeyError key)
  end.

(** [list(map(f, l))] for an [f] that may raise. *)
Fixpoint map_m {A B} (f : A -> M B) (l : list A) : M (list B) :=
  match l with
  | [] => ret []
  | x :: r => let* y := f x in let* ys := map_m f r in ret (y :: ys)
  end.

(** ** The module *)

Definition SOURCES_CACHE : string :=
  join_all HOME_IMPURE [".cache"; "makes"; "sources"].

Definition VERSION : string := "21.10".

(** Feature flags: [bool(environ.get(name))].  The two messages that the
    module prints at import when a flag is set come before [cli] starts and
    are not part of the runs below. *)
Definition K8S_COMPAT : bool :=
  truthy (default "" (environ !! "K8S_COMPAT")).

Definition NIX_STABLE : bool :=
  negb (truthy (default "" (environ !! "NIX_UNSTABLE"))).

Definition dquote : string := String (ascii_of_nat 34) "".

Definition _run (args : list string) (cwd : option string)
    (capture_io : bool) : M (Z * string * string) :=
  fun w =>
    let call := mkCall args cwd capture_io in
    let r := proc w call in
    (Ok (returncode r, proc_stdout r, proc_stderr r),
     add_event (EvRun call) (set_clock (clock_after r) (set_fs (fs_after r) w))).

Definition is_src_local (src : string) : bool :=
  String.eqb (abspath src) CWD.

Definition _clone_src_cache_get (src cache_key remote : string) : M string :=
  let cached := join SOURCES_CACHE cache_key in
  if truthy cache_key then
    let* cached_exists := exists_ cached in
    if cached_exists then
      let* now := time in
      let* created := getctime cached in
      let cached_since := (now - created)%Q in
      if Qle_bool cached_since 86400 then
        _log ["Using cached version of: " +:+ src +:+ ", from: " +:+ cached] ;;
        _log [] ;;
        ret cached
      else
        rmtree cached false ;;
        ret remote
    else
      _log ["Downloading: " +:+ src] ;;
      ret remote
  else ret remote.

Definition _clone_src_cache_refresh (head cache_key : string) : M unit :=
  let cached := join SOURCES_CACHE cache_key in
  let* cached_exists := exists_ cached in
  when (truthy cache_key && negb cached_exists) (copytree head cached).

Definition _clone_src (src : string) : M string :=
  let* head := TemporaryDirectory_name "makes-" in
  modify (fun w => set_ON_EXIT (ON_EXIT w ++ [RmtreeAction head true]) w) ;;
  let* '(cache_key, remote, rev) :=
    if is_src_local src then ret ("", abspath src, "HEAD")
    else
      match _clone_src_github src with
      | Some found => ret found
      | None =>
          match _clone_src_gitlab src with
          | Some found => ret found
          | None => raise (Error ("Unable to parse [SOURCE]: " +:+ src) None)
          end
      end in
  let* '(out, stdout, stderr) :=
    _run ["git"; "init"; "--initial-branch=____"; "--shared=false"; head]
      None true in
  if negb (out =? 0)%Z then
    raise (Error ("Unable to git init: " +:+ src) (Some (stdout, stderr)))
  else
  let* remote := _clone_src_cache_get src cache_key remote in
  let* '(out, stdout, stderr) :=
    _run ["git"; "-C"; head; "fetch"; "--depth=1"; remote; rev +:+ ":" +:+ rev]
      None true in
  if negb (out =? 0)%Z then
    raise (Error ("Unable to git fetch: " +:+ src) (Some (stdout, stderr)))
  else
  let* '(out, stdout, stderr) :=
    _run ["git"; "-C"; head; "checkout"; rev] None true in
  if negb (out =? 0)%Z then
    raise (Error ("Unable to git checkout: " +:+ src) (Some (stdout, stderr)))
  else
  _clone_src_cache_refresh head cache_key ;;
  ret head.

Definition _nix_build (attr : string)
    (cache : option (list (gmap string string))) (head out : string)
  : M (list string) :=
  let* '(substituters, trusted_pub_keys) :=
    match cache with
    | None =>
        ret ("https://cache.nixos.org",
             "cache.nixos.org-1:6NCHdD59X431o0gWypbMrAURkbJ16ZPMQFGspcDShjY=")
    | Some cache =>
        let* urls := map_m (fun config => getitem config "url") cache in
        let* pub_keys := map_m (fun config => getitem config "pubKey") cache in
        ret (str_join " " urls, str_join " " pub_keys)
    end in
  let* execution_id := uuid_hex_next in
  ret (_if NIX_STABLE [__NIX_STABLE__ +:+ "/bin/nix-build"]
       ++ _if (negb NIX_STABLE) [__NIX_UNSTABLE__ +:+ "/bin/nix"]
       ++ _if (negb NIX_STABLE) ["--experimental-features"; "flakes nix-command"]
       ++ _if (negb NIX_STABLE) ["build"]
       ++ _if NIX_STABLE ["--argstr"; "makesExecutionId"; execution_id]
       ++ _if NIX_STABLE ["--argstr"; "makesSrc"; __MAKES_SRC__]
       ++ _if NIX_STABLE ["--argstr"; "projectSrc"; head]
       ++ _if NIX_STABLE ["--attr"; attr]
       ++ ["--option"; "cores"; "0"]
       ++ _if (negb NIX_STABLE) ["--impure"]
       ++ ["--option"; "narinfo-cache-negative-ttl"; "1"]
       ++ ["--option"; "narinfo-cache-positive-ttl"; "1"]
       ++ ["--option"; "max-jobs"; "auto"]
       ++ ["--option"; "substituters"; substituters]
       ++ ["--option"; "trusted-public-keys"; trusted_pub_keys]
       ++ ["--option"; "sandbox"; if K8S_COMPAT then "false" else "true"]
       ++ _if (truthy out) ["--out-link"; out]
       ++ _if (negb (truthy out)) ["--no-out-link"]
       ++ ["--show-trace"]
       ++ _if NIX_STABLE [__MAKES_SRC__ +:+ "/src/evaluator/default.nix"]
       ++ _if (negb NIX_STABLE) [attr]).

(** The body of the loop "Copy paths to head" of [_get_head]. *)
Definition copy_path_to_head (src head path : string) : M unit :=
  let dest := join head path in
  let path := join src path in
  let* parent_exists := exists_ (dirname dest) in
  when (negb parent_exists) (makedirs (dirname dest)) ;;
  let* path_exists := exists_ path in
  if path_exists then shutil_copy path dest else remove dest.

Definition git_diff_cached (src : string) : list string :=
  ["git"; "-C"; src; "diff"; "--cached"; "--name-only"].

Definition git_ls_modified (src : string) : list string :=
  ["git"; "-C"; src; "ls-files"; "--modified"].

Definition _get_head (src : string) : M string :=
  let* head := _clone_src src in
  when (is_src_local src)
    (let paths : gset string := ∅ in
     let* '(out, stdout, stderr) := _run (git_diff_cached src) None true in
     if negb (out =? 0)%Z then
       raise (Error ("Unable to list files: " +:+ src) (Some (stdout, stderr)))
     else
     let paths := paths ∪ list_to_set (splitlines stdout) in
     let* '(out, stdout, stderr) := _run (git_ls_modified src) None true in
     if negb (out =? 0)%Z then
       raise (Error ("Unable to list files: " +:+ src) (Some (stdout, stderr)))
     else
     let paths := paths ∪ list_to_set (splitlines stdout) in
     for_each (sorted paths) (copy_path_to_head src head)) ;;
  rmtree (join head ".git") false ;;
  ret head.

Definition _get_attrs (src head : string) : M (list string) :=
  let* out := mktemp in
  let* args :=
    _nix_build
      (if NIX_STABLE then "config.attrs"
       else head +:+ "#__makes__." +:+ dquote +:+ "config:attrs" +:+ dquote)
      None head out in
  let* '(code, stdout, stderr) := _run args None true in
  if (code =? 0)%Z then
    let* text := read_text out in
    match json_load_attrs text with
    | Some attrs => ret attrs
    | None => raise JSONDecodeError
    end
  else
    raise (Error ("Unable to list project outputs from: " +:+ src)
             (Some (stdout, stderr))).

Definition _get_cache (src head : string) : M (list (gmap string string)) :=
  let* out := mktemp in
  let* args :=
    _nix_build
      (if NIX_STABLE then "config.cacheAsJson"
       else head +:+ "#__makes__." +:+ dquote +:+ "config:cacheAsJson"
            +:+ dquote)
      None head out in
  let* '(code, stdout, stderr) := _run args None true in
  if (code =? 0)%Z then
    let* text := read_text out in
    match json_load_cache text with
    | Some cache => ret cache
    | None => raise JSONDecodeError
    end
  else
    raise (Error ("Unable to get cache config from: " +:+ src)
             (Some (stdout, stderr))).

(** The names [_help_and_exit] never lists. *)
Definition hidden_attr (attr : string) : bool :=
  String.eqb attr "__all__"
  || String.eqb attr "/secretsForAwsFromEnv/__default__".

(** [_help_and_exit] never returns: it raises [exc] when given one and
    [SystemExit(1)] otherwise. *)
Definition _help_and_exit (src : option string) (attrs : option (list string))
    (exc : option exn) : M unit :=
  _log ["Usage: m [SOURCE] [OUTPUT] [ARGS]..."] ;;
  (if truthy (default "" src) then
     _log [] ;;
     _log ["[SOURCE] is currently: " +:+ default "" src]
   else
     _log [] ;;
     _log ["[SOURCE] can be:"] ;;
     _log [] ;;
     _log ["  A Git repository in the current working directory:"] ;;
     _log ["    $ m ."] ;;
     _log [] ;;
     _log ["  A GitHub repository and revision (branch, commit or tag):"] ;;
     _log ["    $ m github:owner/repo@rev"] ;;
     _log [] ;;
     _log ["  A GitLab repository and revision (branch, commit or tag):"] ;;
     _log ["    $ m gitlab:owner/repo@rev"]) ;;
  match attrs with
  | None =>
      _log [] ;;
      _log ["[OUTPUT] options will be listed when you provide a [SOURCE]"]
  | Some attrs =>
      _log [] ;;
      _log ["[OUTPUT] can be:"] ;;
      for_each attrs
        (fun attr => when (negb (hidden_attr attr)) (_log ["  " +:+ attr]))
  end ;;
  match exc with
  | Some exc => _log [] ;; raise exc
  | None =>
      _log [] ;;
      _log ["[ARGS] are passed to the output (if supported)."] ;;
      raise (SystemExit 1)
  end.

Definition execute_action (args : list string) (out : string) : M unit :=
  let action_path := join out "makes-action.sh" in
  let* action_exists := exists_ action_path in
  if action_exists then
    let* '(code, _, _) := _run (action_path :: out :: args) (Some CWD) false in
    raise (SystemExit code)
  else ret tt.

Fixpoint cache_push (cache : list (gmap string string)) (out : string)
  : M unit :=
  match cache with
  | [] => ret tt
  | config :: rest =>
      let* type := getitem config "type" in
      if String.eqb type "cachix"
         && bool_decide (is_Some (environ !! "CACHIX_AUTH_TOKEN"))
      then
        _log ["Pushing to cache"] ;;
        let* name := getitem config "name" in
        _run ["cachix"; "push"; "-c"; "0"; name; out] None false ;;
        ret tt
      else cache_push rest out
  end.

(** [try: body / except Error as exc: handler(exc) / else: orelse(result)] *)
Definition try_except_Error {A B} (body : M A) (handler : exn -> M B)
    (orelse : A -> M B) : M B :=
  fun w =>
    match body w with
    | (Ok a, w') => orelse a w'
    | (Raise (Error msg captured), w') => handler (Error msg captured) w'
    | (Raise e, w') => (Raise e, w')
    end.

Definition cli (args : list string) : M unit :=
  _log ["Makes v" +:+ VERSION +:+ "-" +:+ platform +:+ " (IOHK)"] ;;
  _log [] ;;
  when (bool_decide (drop 1 args = [])) (_help_and_exit None None None) ;;
  match args with
  | _ :: src :: rest =>
      when (bool_decide (rest = []))
        (try_except_Error
           (let* head := _get_head src in
            _get_attrs src head)
           (fun exc => _help_and_exit (Some src) None (Some exc))
           (fun attrs => _help_and_exit (Some src) (Some attrs) None)) ;;
      match rest with
      | attr :: args =>
          let* head := _get_head src in
          let* attrs := _get_attrs src head in
          when (negb (bool_decide (attr ∈ attrs)))
            (_help_and_exit (Some src) (Some attrs) None) ;;
          let out := join OUT_BASE ("result" +:+ replace_char "/" "-" attr) in
          let* cache := _get_cache src head in
          let* build_args :=
            _nix_build
              (if NIX_STABLE
               then "config.outputs." +:+ dquote +:+ attr +:+ dquote
               else head +:+ "#__makes__." +:+ dquote +:+ "config:outputs:"
                    +:+ attr +:+ dquote)
              (Some cache) head out in
          let* '(code, _, _) := _run build_args None false in
          when (code =? 0)%Z
            (cache_push cache out ;;
             execute_action args out) ;;
          raise (SystemExit code)
      | [] => raise IndexError
      end
  | _ => raise IndexError
  end.

(** [sys.exit(code)] *)
Definition sys_exit (code : Z) : M unit := raise (SystemExit code).

Definition main (argv : list string) : M unit :=
  fun w =>
    match cli argv w with
    | (Raise (Error msg captured), w') =>
        (_log ["[ERROR] " +:+ msg] ;;
         match captured with
         | Some (stdout, stderr) =>
             _log ["[ERROR] Stdout: " +:+ LF +:+ stdout] ;;
             _log ["[ERROR] Stderr: " +:+ LF +:+ stderr]
         | None => ret tt
         end ;;
         sys_exit 1) w'
    | (Raise (SystemExit code), w') => sys_exit code w'
    | r => r
    end.

Definition run_action (a : action) : M unit :=
  match a with
  | RmtreeAction path ignore_errors => rmtree path ignore_errors
  end.

Definition cleanup : M unit :=
  let* w := get_world in
  for_each (ON_EXIT w) (fun action => suppress (run_action action)).

(** The status the interpreter leaves: the low byte of the code of a
    [SystemExit], 1 after any other exception (which prints a traceback),
    0 when the module runs to its end. *)
Definition exit_status (r : result unit) : Z :=
  match r with
  | Ok _ => 0
  | Raise (SystemExit code) => code mod 256
  | Raise _ => 1
  end.

(** [if __name__ == "__main__": try: main() finally: cleanup()] *)
Definition __main__ (argv : list string) (w : World) : Z * World :=
  let '(r, w1) := main argv w in
  let '(c, w2) := cleanup w1 in
  (exit_status (match c with Raise e => Raise e | Ok _ => r end), w2).

End Makes.

(** * Definitions used by the statements *)

Fixpoint has_char (c : ascii) (s : string) : bool :=
  match s with
  | EmptyString => false
  | String d r => Ascii.eqb d c || has_char c r
  end.

(** The inverse of [url_quote] ([urllib.parse.unquote_plus] on its image). *)
Definition hex_value (c : ascii) : nat :=
  let n := nat_of_ascii c in
  if (n <? 58)%nat then n - 48 else n - 55.

Fixpoint url_unquote (s : string) : string :=
  match s with
  | EmptyString => EmptyString
  | String c r =>
      if Ascii.eqb c "%" then
        match r with
        | String h (String l r') =>
            String (ascii_of_nat (16 * hex_value h + hex_value l))
              (url_unquote r')
        | _ => String c (url_unquote r)
        end
      else if Ascii.eqb c "+" then String " " (url_unquote r)
      else String c (url_unquote r)
  end.

Inductive provider := GitHub | GitLab.

Definition provider_name (p : provider) : string :=
  match p with GitHub => "github" | GitLab => "gitlab" end.

Definition parse_hosted (p : provider) : string -> option (string * string * string) :=
  match p with GitHub => _clone_src_github | GitLab => _clone_src_gitlab end.

(** The spec's words: the key is provider, owner, repository and revision
    joined by hyphens, each component percent-encoded on its own. *)
Definition spec_cache_key (p : provider) (owner repo rev : string) : string :=
  str_join "-" [provider_name p; url_quote owner; url_quote repo; url_quote rev].

Definition spec_remote (p : provider) (owner repo : string) : string :=
  match p with
  | GitHub => "https://github.com/" +:+ url_quote owner +:+ "/" +:+ url_quote repo
  | GitLab => "https://gitlab.com/" +:+ url_quote owner +:+ "/" +:+ url_quote repo +:+ ".git"
  end.


(** The string a pattern matches once its groups are known. *)
Fixpoint re_fill (items : list re_item) (gs : list string) : string :=
  match items with
  | [] => ""
  | RLit c :: rest => String c (re_fill rest gs)
  | RGroup :: rest =>
      match gs with
      | g :: gs' => g +:+ re_fill rest gs'
      | [] => re_fill rest []
      end
  end.

Definition no_newline (s : string) : Prop := has_char newline s = false.

Fixpoint count_groups (items : list re_item) : nat :=
  match items with
  | [] => 0
  | RLit _ :: rest => count_groups rest
  | RGroup :: rest => S (count_groups rest)
  end.

(** What makes a hosted source "valid": no line feed anywhere, no slash in
    the repository and no at sign in the revision. *)
Definition valid_components (owner repo rev : string) : Prop :=
  no_newline owner /\ no_newline repo /\ no_newline rev
  /\ has_char "/" repo = false /\ has_char "@" rev = false.

(** ** A small concrete world

    A project in [/w] on a machine whose subprocesses behave as a
    [scenario] says: what [git checkout] materialises, what the two listing
    commands print, what the manifests decode to, and how the build and the
    action script exit. *)

Record scenario := mkScenario {
  sc_environ : gmap string string;
  sc_tree : list (string * node);
  sc_staged : string;
  sc_modified : string;
  sc_attrs : list string;
  sc_cache : list (gmap string string);
  sc_build_code : Z;
  sc_build_out : list (string * node);
  sc_action_code : Z;
}.

Fixpoint arg_after (flag : string) (args : list string) : string :=
  match args with
  | a :: rest => if String.eqb a flag then hd "" rest else arg_after flag rest
  | [] => ""
  end.

Definition install (root : string) (entries : list (string * node))
    (f : gmap string node) : gmap string node :=
  fold_right (fun e acc => <[join root e.1 := e.2]> acc) f entries.

Definition ends_with (suffix s : string) : bool :=
  String.eqb (drop_chars (String.length s - String.length suffix) s) suffix.

(** [args] has the shape of [pattern]; [None] stands for any argument. *)
Fixpoint args_match (pattern : list (option string)) (args : list string)
  : bool :=
  match pattern, args with
  | [], [] => true
  | Some p :: pattern', a :: args' => String.eqb p a && args_match pattern' args'
  | None :: pattern', _ :: args' => args_match pattern' args'
  | _, _ => false
  end.

Definition demo_proc (sc : scenario) (w : World) (c : run_call)
  : proc_result :=
  let prints code out := mkProcResult code out "" (fs w) (clock w) in
  let writes code f := mkProcResult code "" "" f (clock w) in
  let args := call_args c in
  if args_match [Some "git"; Some "init"; None; None; None] args then
    let head := nth 4 args "" in
    writes 0%Z
      (<[head := Dir (clock w)]>
         (install head [(".git", Dir (clock w));
                        (".git/HEAD", File "ref: refs/heads/____" (clock w))]
            (fs w)))
  else if args_match [Some "git"; Some "-C"; None; Some "fetch"; None; None;
                      None] args then
    prints 0%Z ""
  else if args_match [Some "git"; Some "-C"; None; Some "checkout"; None] args
  then writes 0%Z (install (nth 2 args "") (sc_tree sc) (fs w))
  else if args_match [Some "git"; Some "-C"; None; Some "diff";
                      Some "--cached"; Some "--name-only"] args then
    prints 0%Z (sc_staged sc)
  else if args_match [Some "git"; Some "-C"; None; Some "ls-files";
                      Some "--modified"] args then
    prints 0%Z (sc_modified sc)
  else if String.eqb (hd "" args) "cachix" then prints 1%Z ""
  else if ends_with "/makes-action.sh" (hd "" args) then
    prints (sc_action_code sc) ""
  else
    let attr := arg_after "--attr" args in
    let out := arg_after "--out-link" args in
    if String.eqb attr "config.attrs" then
      writes 0%Z (<[out := File "attrs.json" (clock w)]> (fs w))
    else if String.eqb attr "config.cacheAsJson" then
      writes 0%Z (<[out := File "cache.json" (clock w)]> (fs w))
    else
      writes (sc_build_code sc)
        (if (sc_build_code sc =? 0)%Z
         then <[out := Dir (clock w)]> (install out (sc_build_out sc) (fs w))
         else fs w).

Definition demo_env (sc : scenario) : Env := {|
  CWD := "/w";
  HOME_IMPURE := "/home/u";
  OUT_BASE := "/tmp/out";
  __MAKES_SRC__ := "/nix/makes";
  __NIX_STABLE__ := "/nix/stable";
  __NIX_UNSTABLE__ := "/nix/unstable";
  environ := sc_environ sc;
  platform := "linux";
  tempdir := "/tmp";
  tmp_name := fun n => String (ascii_of_nat (97 + n)) "";
  uuid_hex := fun n => "0000000" +:+ String (ascii_of_nat (48 + n)) "";
  proc := demo_proc sc;
  json_load_attrs := fun text =>
    if String.eqb text "attrs.json" then Some (sc_attrs sc) else None;
  json_load_cache := fun text =>
    if String.eqb text "cache.json" then Some (sc_cache sc) else None;
|}.

(** The machine before the run: the directories every scenario shares and
    the [files] of the working directory; the clock reads 100000. *)
Definition demo_world (files : list (string * node)) : World :=
  mkWorld
    (install "/"
       ([("/", Dir 0); ("/tmp", Dir 0); ("/tmp/out", Dir 0);
         ("/w", Dir 0); ("/w/.git", Dir 0)] ++ files) ∅)
    100000 0 0 [RmtreeAction "/tmp/out" true] [].

(** One committed file edited, one committed file deleted, one new file
    added in a new directory, one file never added. *)
Definition sc_edit : scenario := {|
  sc_environ := ∅;
  sc_tree := [("a.txt", File "old a" 50); ("b.txt", File "b" 50);
              ("d", Dir 50); ("d/c.txt", File "c" 50)];
  sc_staged := "a.txt" +:+ LF +:+ "new/n.txt" +:+ LF;
  sc_modified := "a.txt" +:+ LF +:+ "b.txt" +:+ LF;
  sc_attrs := ["__all__"; "/hello"];
  sc_cache := [];
  sc_build_code := 0;
  sc_build_out := [("makes-action.sh", File "#!/bin/sh" 100000)];
  sc_action_code := 3;
|}.

Definition w_edit : World :=
  demo_world [("/w/a.txt", File "new a" 60); ("/w/new", Dir 60);
              ("/w/new/n.txt", File "n" 60); ("/w/untracked", File "u" 60)].

(** The same project when the build fails with 7. *)
Definition sc_fail : scenario :=
  mkScenario ∅ (sc_tree sc_edit) (sc_staged sc_edit) (sc_modified sc_edit)
    (sc_attrs sc_edit) [] 7 [] 0.

(** The same project when the output has no action script. *)
Definition sc_plain : scenario :=
  mkScenario ∅ (sc_tree sc_edit) (sc_staged sc_edit) (sc_modified sc_edit)
    (sc_attrs sc_edit) [] 0 [] 0.

(** The same project with a Cachix cache and the token in the
    environment. *)
Definition cachix_config : gmap string string :=
  list_to_map [("type", "cachix"); ("name", "makes");
               ("url", "https://makes.cachix.org");
               ("pubKey", "makes.cachix.org-1:key")].

Definition sc_push : scenario :=
  mkScenario (<["CACHIX_AUTH_TOKEN" := "secret"]> ∅) (sc_tree sc_edit)
    (sc_staged sc_edit) (sc_modified sc_edit) (sc_attrs sc_edit)
    [cachix_config] 0 (sc_build_out sc_edit) 3.

(** The unstable mode. *)
Definition sc_unstable : scenario :=
  mkScenario (<["NIX_UNSTABLE" := "1"]> ∅) (sc_tree sc_edit)
    (sc_staged sc_edit) (sc_modified sc_edit) (sc_attrs sc_edit) [] 0 [] 0.

(** A file staged for commit and then deleted, never committed. *)
Definition sc_staged_deleted : scenario :=
  mkScenario ∅ [("a.txt", File "a" 50)] ("gone.txt" +:+ LF) "" ["/hello"] []
    0 [] 0.

Definition w_staged_deleted : World :=
  demo_world [("/w/a.txt", File "a" 60)].

(** A committed directory [a] replaced by a file [a], staged. *)
Definition sc_dir_to_file : scenario :=
  mkScenario ∅ [("a", Dir 50); ("a/x", File "x" 50)]
    ("a" +:+ LF +:+ "a/x" +:+ LF) "" ["/hello"] [] 0 [] 0.

Definition w_dir_to_file : World :=
  demo_world [("/w/a", File "hi" 60)].

(** The clone cache holding [github:o/r@v], created at [created]. *)
Definition demo_cached : string := "/home/u/.cache/makes/sources/github-o-r-v".

Definition w_cached (created : Q) : World :=
  demo_world [(demo_cached, Dir created);
              (demo_cached +:+ "/.git", Dir created);
              (demo_cached +:+ "/.git/HEAD", File "ref" created);
              (demo_cached +:+ "/README", File "hello" created)].

(** What an observer sees of one cleanup action. *)
Definition action_event (a : action) : event :=
  match a with RmtreeAction path _ => EvRmtree path end.

Definition is_rmtree_event (e : event) : Prop :=
  match e with EvRmtree _ => True | _ => False end.

(** ** Names for the steps of [cli] *)

Section Steps.
Context {E : Env}.

(** The world once [cli] has printed its banner. *)
Definition banner (w : World) : World :=
  add_event (EvLog "")
    (add_event
       (EvLog ("Makes v" +:+ VERSION +:+ "-" +:+ platform +:+ " (IOHK)")) w).

(** The output link of the build of [attr]. *)
Definition out_link (attr : string) : string :=
  join OUT_BASE ("result" +:+ replace_char "/" "-" attr).

(** The attribute that [cli] asks [_nix_build] for. *)
Definition build_attr (attr head : string) : string :=
  if NIX_STABLE then "config.outputs." +:+ dquote +:+ attr +:+ dquote
  else head +:+ "#__makes__." +:+ dquote +:+ "config:outputs:" +:+ attr
       +:+ dquote.

Definition build_call (build_args : list string) : run_call :=
  mkCall build_args None false.

Definition push_call (name out : string) : run_call :=
  mkCall ["cachix"; "push"; "-c"; "0"; name; out] None false.

Definition action_call (out : string) (args : list string) : run_call :=
  mkCall (join out "makes-action.sh" :: out :: args) (Some CWD) false.

(** The run of [m src attr ...] from [w] gets as far as the build: the
    checkout is [head], the manifest lists [attr], the cache configuration
    is [cache], and [w3] is the world in which the build is about to start
    with the arguments [build_args]. *)
Definition reaches_build (src attr : string) (w : World) (head : string)
    (cache : list (gmap string string)) (build_args : list string)
    (w3 : World) : Prop :=
  exists w1 attrs w2 w2',
    _get_head src (banner w) = (Ok head, w1)
    /\ _get_attrs src head w1 = (Ok attrs, w2)
    /\ attr ∈ attrs
    /\ _get_cache src head w2 = (Ok cache, w2')
    /\ _nix_build (build_attr attr head) (Some cache) head (out_link attr) w2'
       = (Ok build_args, w3).

(** What is left of [cli] once the build is about to start. *)
Definition after_build (cache : list (gmap string string))
    (args : list string) (out : string) (build_args : list string) : M unit :=
  let* '(code, _, _) := _run build_args None false in
  when (code =? 0)%Z (cache_push cache out ;; execute_action args out) ;;
  raise (SystemExit code).

(** A cache-configuration record has the four fields of the manifest. *)
Definition cache_record (config : gmap string string) : Prop :=
  is_Some (config !! "type") /\ is_Some (config !! "name")
  /\ is_Some (config !! "url") /\ is_Some (config !! "pubKey").

(** A Cachix cache is configured and its token is in the environment. *)
Definition push_configured (cache : list (gmap string string)) : Prop :=
  (exists config, config ∈ cache /\ config !! "type" = Some "cachix")
  /\ is_Some (environ !! "CACHIX_AUTH_TOKEN").

End Steps.

(** The diagnostic stream of [w] holds the line [line]. *)
Definition logged (line : string) (w : World) : bool :=
  existsb (fun e => match e with
                    | EvLog l => String.eqb l line
                    | _ => false
                    end) (events w).

(** ** Relations between two states of the file system *)

(** From [f] to [f'] nothing changed but directories that did not exist,
    created at some of the [keys]. *)
Definition dirs_added (keys : list string) (f f' : gmap string node) : Prop :=
  forall k,
    f' !! k = f !! k
    \/ (f !! k = None /\ is_dir_node (f' !! k) = true /\ k ∈ keys).

(** A computation that ends normally or with an [OSError]. *)
Definition os_outcome {A} (r : result A) : Prop :=
  match r with
  | Ok _ => True
  | Raise (OSError _ _) => True
  | Raise _ => False
  end.

Definition is_file (f : gmap string node) (k : string) : Prop :=
  content_of (f !! k) <> None.

(** ** The overlay of [_get_head] *)

Section OverlayDefs.
Context {E : Env}.

(** The entries that [makedirs_go fuel name] may create. *)
Fixpoint made_by_makedirs (fuel : nat) (name : string) : list string :=
  resolve name ::
    match fuel with
    | S fuel' => made_by_makedirs fuel' (fst (makedirs_split name))
    | O => []
    end.

(** The directories that the loop may create for the destination [dest]. *)
Definition parent_dirs (dest : string) : list string :=
  made_by_makedirs (String.length (dirname dest)) (dirname dest).

(** Where [path] goes in the checkout, where it comes from, and where
    [shutil.copy] puts it when its destination is a directory. *)
Definition dest_key (head path : string) : string := resolve (join head path).
Definition src_key (src path : string) : string := resolve (join src path).
Definition redirect_key (src head path : string) : string :=
  resolve (join (join head path) (basename (join src path))).

(** The paths that the loop of [_get_head] goes through, from the outputs of
    the two listing commands. *)
Definition overlay_paths (staged modified : string) : list string :=
  sorted (∅ ∪ list_to_set (splitlines staged)
            ∪ list_to_set (splitlines modified)).

(** A listing that names files of the project, each once: no destination is
    a directory of the checkout or a parent directory of a destination, two
    paths have two destinations, and the checkout is apart from the working
    directory. *)
Definition clean_overlay (f0 : gmap string node) (src head : string)
    (paths : list string) : bool :=
  forallb
    (fun p =>
       negb (is_dir_node (f0 !! dest_key head p))
       && forallb
            (fun q =>
               negb (bool_decide (dest_key head p ∈ parent_dirs (join head q)))
               && (negb (String.eqb (dest_key head p) (dest_key head q))
                   || String.eqb p q)
               && negb (String.eqb (dest_key head p) (src_key src q)))
            paths)
    paths.

(** No other path of the listing is copied onto the place of [p], in the
    checkout or in the working directory. *)
Definition not_copied_onto (src head : string) (paths : list string)
    (p : string) : bool :=
  forallb
    (fun q =>
       String.eqb q p
       || negb (String.eqb (dest_key head q) (dest_key head p))
          && negb (String.eqb (redirect_key src head q) (dest_key head p))
          && negb (String.eqb (dest_key head q) (src_key src p))
          && negb (String.eqb (redirect_key src head q) (src_key src p)))
    paths.

(** The listing commands of git only read. *)
Definition listings_read_only (src : string) : Prop :=
  forall w,
    fs_after (proc w (mkCall (git_diff_cached src) None true)) = fs w
    /\ fs_after (proc w (mkCall (git_ls_modified src) None true)) = fs w.

(** The worlds and outputs of the two listing commands, run after the
    clone left the world [w1]. *)
Definition after_diff (src : string) (w1 : World) : World :=
  snd (_run (git_diff_cached src) None true w1).

Definition after_listings (src : string) (w1 : World) : World :=
  snd (_run (git_ls_modified src) None true (after_diff src w1)).

Definition staged_output (src : string) (w1 : World) : string :=
  proc_stdout (proc w1 (mkCall (git_diff_cached src) None true)).

Definition modified_output (src : string) (w1 : World) : string :=
  proc_stdout (proc (after_diff src w1)
                 (mkCall (git_ls_modified src) None true)).

Definition listings_succeed (src : string) (w1 : World) : Prop :=
  returncode (proc w1 (mkCall (git_diff_cached src) None true)) = 0%Z
  /\ returncode (proc (after_diff src w1)
                   (mkCall (git_ls_modified src) None true)) = 0%Z.

(** The paths of the overlay in the world [w1] that the clone left. *)
Definition listed_paths (src : string) (w1 : World) : list string :=
  overlay_paths (staged_output src w1) (modified_output src w1).

(** The places where the turns for [done] may have written a file. *)
Definition copy_targets (src head : string) (done : list string)
  : list string :=
  flat_map (fun q => [dest_key head q; redirect_key src head q]) done.

(** Every file of [f] was a file of [f0] or sits at one of the [targets]. *)
Definition files_within (f0 : gmap string node) (targets : list string)
    (f : gmap string node) : Prop :=
  forall k, is_file f k -> is_file f0 k \/ k ∈ targets.


End OverlayDefs.


(** * Definitions used by the statements on the rest of the module *)

(** ** What a computation leaves of the world *)

(** From [w] to [w'] the diagnostic stream and the list of cleanup actions
    only grew. *)
Definition extends (w w' : World) : Prop :=
  (exists evs, events w' = events w ++ evs)
  /\ (exists acts, ON_EXIT w' = ON_EXIT w ++ acts).

(** Whatever [m] does, the world it leaves extends the one it found, and
    an exception that leaves it is one of [P]. *)
Definition keeps {A} (P : exn -> Prop) (m : M A) : Prop :=
  forall w r w',
    m w = (r, w') -> extends w w' /\ forall e, r = Raise e -> P e.

(** [m] never returns: it raises, whatever the world. *)
Definition always_raises {A} (m : M A) : Prop :=
  forall w, exists e w', m w = (Raise e, w').

Definition is_os_error (e : exn) : Prop :=
  match e with OSError _ _ => True | _ => False end.


Definition is_Error (e : exn) : Prop :=
  match e with Error _ _ => True | _ => False end.

Definition is_exit (e : exn) : Prop :=
  match e with SystemExit _ => True | _ => False end.

(** The exceptions of the stages before the build: anything but a
    [SystemExit]. *)
Definition not_exit (e : exn) : Prop := ~ is_exit e.

(** An event that is the start of a subprocess. *)
Definition is_run_event (e : event) : Prop :=
  match e with EvRun _ => True | _ => False end.

Definition any_exn (e : exn) : Prop := True.

(** Classes of exceptions that [P] lets through. *)
Definition os_closed (P : exn -> Prop) : Prop :=
  forall kind path, P (OSError kind path).
Definition key_closed (P : exn -> Prop) : Prop := forall key, P (KeyError key).
Definition error_closed (P : exn -> Prop) : Prop :=
  forall msg captured, P (Error msg captured).

(** ** The text of the diagnostic stream *)

(** The world once the [lines] are printed. *)
Definition log_lines (lines : list string) (w : World) : World :=
  fold_left (fun w line => add_event (EvLog line) w) lines w.

(** What [_help_and_exit] prints about the source, about the outputs, and
    before it leaves. *)
Definition source_help (src : option string) : list string :=
  if truthy (default "" src) then
    [""; "[SOURCE] is currently: " +:+ default "" src]
  else
    [""; "[SOURCE] can be:";
     ""; "  A Git repository in the current working directory:";
     "    $ m .";
     ""; "  A GitHub repository and revision (branch, commit or tag):";
     "    $ m github:owner/repo@rev";
     ""; "  A GitLab repository and revision (branch, commit or tag):";
     "    $ m gitlab:owner/repo@rev"].

Definition output_help (attrs : option (list string)) : list string :=
  match attrs with
  | None => [""; "[OUTPUT] options will be listed when you provide a [SOURCE]"]
  | Some attrs =>
      [""; "[OUTPUT] can be:"]
      ++ map (fun attr => "  " +:+ attr)
           (List.filter (fun attr => negb (hidden_attr attr)) attrs)
  end.

Definition help_lines (src : option string) (attrs : option (list string))
    (exc : option exn) : list string :=
  "Usage: m [SOURCE] [OUTPUT] [ARGS]..."
  :: source_help src ++ output_help attrs
  ++ match exc with
     | Some _ => [""]
     | None => [""; "[ARGS] are passed to the output (if supported)."]
     end.

(** What [main] prints for an [Error]: the message, then the captured
    output when the [Error] carries it. *)
Definition error_lines (msg : string) (captured : option (string * string))
  : list string :=
  ("[ERROR] " +:+ msg)
  :: match captured with
     | Some (stdout, stderr) =>
         ["[ERROR] Stdout: " +:+ LF +:+ stdout;
          "[ERROR] Stderr: " +:+ LF +:+ stderr]
     | None => []
     end.

(** What [main] prints for the exception that leaves [cli]. *)
Definition report_lines (e : exn) : list string :=
  match e with
  | Error msg captured => error_lines msg captured
  | _ => []
  end.

Section StageDefs.
Context {E : Env}.

(** In the run of [m src attr ...] from [w], one of the three stages before
    the build raises [e] and leaves the world [w_err]: the checkout, the
    listing of the outputs, or the reading of the cache configuration (which
    is only reached when the manifest lists [attr]). *)
Definition stage_fails (src attr : string) (w : World) (e : exn)
    (w_err : World) : Prop :=
  _get_head src (banner w) = (Raise e, w_err)
  \/ (exists head w1,
        _get_head src (banner w) = (Ok head, w1)
        /\ _get_attrs src head w1 = (Raise e, w_err))
  \/ (exists head w1 attrs w2,
        _get_head src (banner w) = (Ok head, w1)
        /\ _get_attrs src head w1 = (Ok attrs, w2)
        /\ attr ∈ attrs
        /\ _get_cache src head w2 = (Raise e, w_err)).

(** The world at the end of the process, once [cleanup] ran from [w]. *)
Definition at_exit (w : World) : World := snd (cleanup w).

End StageDefs.

(** ** Machines on which a tool is out of order *)

(** The environment [e] with other subprocesses. *)
Definition env_with_proc (e : Env)
    (p : World -> run_call -> proc_result) : Env := {|
  CWD := @CWD e;
  HOME_IMPURE := @HOME_IMPURE e;
  OUT_BASE := @OUT_BASE e;
  __MAKES_SRC__ := @__MAKES_SRC__ e;
  __NIX_STABLE__ := @__NIX_STABLE__ e;
  __NIX_UNSTABLE__ := @__NIX_UNSTABLE__ e;
  environ := @environ e;
  platform := @platform e;
  tempdir := @tempdir e;
  tmp_name := @tmp_name e;
  uuid_hex := @uuid_hex e;
  proc := p;
  json_load_attrs := @json_load_attrs e;
  json_load_cache := @json_load_cache e;
|}.

(** Every subprocess fails at once with 128 and a message. *)
Definition git_down (sc : scenario) : Env :=
  env_with_proc (demo_env sc)
    (fun w c => mkProcResult 128 "" "fatal: out of order" (fs w) (clock w)).

(** Git works as in [demo_env]; every other subprocess fails with 1. *)
Definition nix_down (sc : scenario) : Env :=
  env_with_proc (demo_env sc)
    (fun w c =>
       if String.eqb (hd "" (call_args c)) "git" then demo_proc sc w c
       else mkProcResult 1 "some output" "error: out of order" (fs w) (clock w)).

(** ** The steps of [_clone_src] *)

Definition git_init (head : string) : list string :=
  ["git"; "init"; "--initial-branch=____"; "--shared=false"; head].

Definition git_fetch (head remote rev : string) : list string :=
  ["git"; "-C"; head; "fetch"; "--depth=1"; remote; rev +:+ ":" +:+ rev].

Definition git_checkout (head rev : string) : list string :=
  ["git"; "-C"; head; "checkout"; rev].

Section CloneDefs.
Context {E : Env}.

(** The name that [_clone_src] draws for the checkout in the world [w]. *)
Definition checkout_name (w : World) : string :=
  join tempdir ("makes-" +:+ tmp_name (tmp_counter w)).

(** The world once the name is drawn and the removal of the checkout is
    registered for the end of the process. *)
Definition registered (w : World) : World :=
  set_ON_EXIT (ON_EXIT w ++ [RmtreeAction (checkout_name w) true])
    (set_tmp_counter (S (tmp_counter w)) w).

(** What [_clone_src] reads in a source: the cache key, the remote and the
    revision; the working directory comes first, then GitHub, then GitLab. *)
Definition source_ref (src : string) : option (string * string * string) :=
  if is_src_local src then Some ("", abspath src, "HEAD")
  else
    match _clone_src_github src with
    | Some found => Some found
    | None => _clone_src_gitlab src
    end.

(** One git command of [_clone_src]: a code other than 0 raises the [Error]
    of the stage with what the command printed. *)
Definition git_stage (stage src : string) (args : list string) : M unit :=
  let* '(out, stdout, stderr) := _run args None true in
  if negb (out =? 0)%Z then
    raise (Error ("Unable to git " +:+ stage +:+ ": " +:+ src)
             (Some (stdout, stderr)))
  else ret tt.

(** The outcome of a git command in the world [w]: the exception of the
    stage when the command fails, and the world it leaves. *)
Definition stage_error (stage src : string) (args : list string) (w : World)
  : exn :=
  Error ("Unable to git " +:+ stage +:+ ": " +:+ src)
    (Some (proc_stdout (proc w (mkCall args None true)),
           proc_stderr (proc w (mkCall args None true)))).

Definition stage_code (args : list string) (w : World) : Z :=
  returncode (proc w (mkCall args None true)).

Definition after_run (args : list string) (w : World) : World :=
  snd (_run args None true w).

End CloneDefs.

(** Git works as in [demo_env] but for [git diff], which fails with 129. *)
Definition listing_down (sc : scenario) : Env :=
  env_with_proc (demo_env sc)
    (fun w c =>
       if String.eqb (nth 3 (call_args c) "") "diff"
       then mkProcResult 129 "" "fatal: out of order" (fs w) (clock w)
       else demo_proc sc w c).

(** ** The queries of the manifest *)

Section QueryDefs.
Context {E : Env}.

(** The name that [tempfile.mktemp] draws in the world [w], and the world
    in which the query of [_get_attrs] or [_get_cache] starts its
    subprocess: one temporary name and one random id were drawn. *)
Definition temp_out (w : World) : string :=
  join tempdir ("tmp" +:+ tmp_name (tmp_counter w)).

Definition query_world (w : World) : World :=
  set_uuid_counter (S (uuid_counter w)) (set_tmp_counter (S (tmp_counter w)) w).

(** The outcome [run] of a query that starts the subprocess [args] in the
    world [w1] and reads its answer at [out]: after a code other than 0 the
    [Error] with the message [msg] and what the subprocess printed; after
    the code 0 what [decode] makes of the file at [out], or the exception of
    a file that is not there or that does not decode. *)
Definition query_outcome {A} (run : result A * World)
    (decode : string -> option A) (msg : string) (args : list string)
    (w1 : World) (out : string) : Prop :=
  let res := proc w1 (mkCall args None true) in
  let w2 := after_run args w1 in
  run
  = (if (returncode res =? 0)%Z then
       match fs w2 !! resolve out with
       | Some (File text _) =>
           match decode text with
           | Some a => Ok a
           | None => Raise JSONDecodeError
           end
       | Some (Dir _) => Raise (OSError IsADirectoryError out)
       | None => Raise (OSError FileNotFoundError out)
       end
     else Raise (Error msg (Some (proc_stdout res, proc_stderr res))),
     w2).

End QueryDefs.

(** A project whose cache configuration has a record with no [type]. *)
Definition untyped_config : gmap string string :=
  list_to_map [("url", "https://example.org"); ("pubKey", "example-1:key")].


(** A record of another kind of cache. *)
Definition other_config : gmap string string :=
  list_to_map [("type", "attic"); ("name", "other");
               ("url", "https://other.example.org");
               ("pubKey", "other-1:key")].

(** A project with a submodule [sub] whose commit changed: the listing of
    the modified files names the directory. *)
Definition sc_submodule : scenario :=
  mkScenario ∅ [("a.txt", File "a" 50); ("sub", Dir 50)] ""
    ("sub" +:+ LF) ["/hello"] [] 0 [] 0.

Definition w_submodule : World :=
  demo_world [("/w/a.txt", File "a" 60); ("/w/sub", Dir 60);
              ("/w/sub/lib.txt", File "lib" 60)].

(** Every character of [s] is one that [quote_plus] leaves as it is. *)
Fixpoint all_safe (s : string) : bool :=
  match s with
  | EmptyString => true
  | String c r => always_safe c && all_safe r
  end.

(** The project of [sc_edit] with a clean working tree. *)
Definition sc_clean : scenario :=
  mkScenario ∅ (sc_tree sc_edit) "" "" (sc_attrs sc_edit) [] 0 [] 0.

(** ** The helpers on small inputs *)

Example join_rel : join "/tmp/makes-x" "a/b.txt" = "/tmp/makes-x/a/b.txt".
Proof. reflexivity. Qed.

Example join_abs : join "/tmp/makes-x" "/etc/passwd" = "/etc/passwd".
Proof. reflexivity. Qed.

Example dirname_file : dirname "/tmp/makes-x/a/b.txt" = "/tmp/makes-x/a".
Proof. reflexivity. Qed.

Example dirname_root : dirname "/a" = "/".
Proof. reflexivity. Qed.

Example dirname_plain : dirname "a" = "".
Proof. reflexivity. Qed.

Example basename_file : basename "/w/a/b.txt" = "b.txt".
Proof. reflexivity. Qed.

Example abspath_dot : abspath_from "/home/u/proj" "." = "/home/u/proj".
Proof. reflexivity. Qed.

Example abspath_dotdot : abspath_from "/home/u/proj" "../proj/" = "/home/u/proj".
Proof. reflexivity. Qed.

Example abspath_remote :
  abspath_from "/w" "github:o/r@v" = "/w/github:o/r@v".
Proof. reflexivity. Qed.

Example url_quote_slash : url_quote "a/b c" = "a%2Fb+c".
Proof. reflexivity. Qed.

Example url_quote_safe : url_quote "My-repo_1.x~" = "My-repo_1.x~".
Proof. reflexivity. Qed.

Example url_quote_plus_sign : url_quote "+%" = "%2B%25".
Proof. reflexivity. Qed.

Example github_plain :
  _clone_src_github "github:fluidattacks/makes@main"
  = Some ("github-fluidattacks-makes-main",
          "https://github.com/fluidattacks/makes", "main").
Proof. reflexivity. Qed.

Example github_greedy_owner :
  _clone_src_github "github:a/b/c@r"
  = Some ("github-a%2Fb-c-r", "https://github.com/a%2Fb/c", "r").
Proof. reflexivity. Qed.

Example github_rev_with_slash :
  _clone_src_github "github:o/r@feature/x"
  = Some ("github-o-r-feature%2Fx", "https://github.com/o/r", "feature%2Fx").
Proof. reflexivity. Qed.

Example gitlab_plain :
  _clone_src_gitlab "gitlab:o/r@v1.0"
  = Some ("gitlab-o-r-v1.0", "https://gitlab.com/o/r.git", "v1.0").
Proof. reflexivity. Qed.

Example github_no_rev : _clone_src_github "github:o/r" = None.
Proof. reflexivity. Qed.

Example github_local : _clone_src_github "." = None.
Proof. reflexivity. Qed.

Example splitlines_git :
  splitlines ("a.txt" +:+ LF +:+ "dir/b.txt" +:+ LF) = ["a.txt"; "dir/b.txt"].
Proof. reflexivity. Qed.

Example splitlines_empty : splitlines "" = [].
Proof. reflexivity. Qed.

Example splitlines_blank :
  splitlines ("a" +:+ LF +:+ LF +:+ "b") = ["a"; ""; "b"].
Proof. reflexivity. Qed.

Example sorted_paths :
  sorted (list_to_set ["b"; "a/x"; "a"; "b"; "a-b"]) = ["a"; "a-b"; "a/x"; "b"].
Proof. vm_compute. reflexivity. Qed.

(** * Reference parsing (C7) *)


Lemma append_nil_r (s : string) : s +:+ "" = s.
Proof. induction s; simpl; congruence. Qed.

Lemma append_assoc (a b c : string) : (a +:+ b) +:+ c = a +:+ (b +:+ c).
Proof. induction a; simpl; congruence. Qed.

Lemma append_length (a b : string) :
  String.length (a +:+ b) = String.length a + String.length b.
Proof. induction a; simpl; congruence. Qed.

Lemma append_inv_tail (a b c : string) : a +:+ c = b +:+ c -> a = b.
Proof.
  revert b. induction a as [|x a IH]; intros [|y b] H; simpl in *.
  - reflexivity.
  - apply (f_equal String.length) in H. simpl in H.
    rewrite append_length in H. lia.
  - apply (f_equal String.length) in H. simpl in H.
    rewrite append_length in H. lia.
  - injection H as -> H. f_equal. auto.
Qed.

Lemma has_char_app c a b : has_char c (a +:+ b) = has_char c a || has_char c b.
Proof. induction a; simpl; [reflexivity|]. rewrite IHa. apply orb_assoc. Qed.

(** Two strings cut at the first occurrence of a separator agree piece by
    piece. *)
Lemma split_at_first (c : ascii) (a a' b b' : string) :
  has_char c a = false -> has_char c a' = false ->
  a +:+ String c b = a' +:+ String c b' -> a = a' /\ b = b'.
Proof.
  revert a'. induction a as [|x a IH]; intros [|y a'] Ha Ha' H; simpl in *.
  - injection H as ->. auto.
  - injection H as -> _. rewrite Ascii.eqb_refl in Ha'. discriminate.
  - injection H as -> _. rewrite Ascii.eqb_refl in Ha. discriminate.
  - injection H as -> H.
    apply orb_false_elim in Ha as [_ Ha]. apply orb_false_elim in Ha' as [_ Ha'].
    destruct (IH a' Ha Ha' H) as [-> ->]. auto.
Qed.

Lemma unquote_quote_byte (c : ascii) (r : string) :
  url_unquote (quote_byte c +:+ r) = String c (url_unquote r).
Proof. destruct c as [[] [] [] [] [] [] [] []]; reflexivity. Qed.

Lemma url_unquote_quote (s : string) : url_unquote (url_quote s) = s.
Proof.
  induction s as [|c s IH]; [reflexivity|].
  cbn [url_quote]. rewrite unquote_quote_byte. congruence.
Qed.

Lemma url_quote_inj (a b : string) : url_quote a = url_quote b -> a = b.
Proof.
  intros H. rewrite <- (url_unquote_quote a), <- (url_unquote_quote b).
  congruence.
Qed.

Lemma quote_byte_no_slash (c : ascii) : has_char "/" (quote_byte c) = false.
Proof. destruct c as [[] [] [] [] [] [] [] []]; reflexivity. Qed.

Lemma url_quote_no_slash (s : string) : has_char "/" (url_quote s) = false.
Proof.
  induction s as [|c s IH]; [reflexivity|].
  cbn [url_quote]. rewrite has_char_app, quote_byte_no_slash, IH. reflexivity.
Qed.

Lemma quote_byte_hyphen (c : ascii) :
  has_char "-" (quote_byte c) = Ascii.eqb c "-".
Proof. destruct c as [[] [] [] [] [] [] [] []]; reflexivity. Qed.

Lemma url_quote_hyphen (s : string) :
  has_char "-" (url_quote s) = has_char "-" s.
Proof.
  induction s as [|c s IH]; [reflexivity|].
  cbn [url_quote has_char]. rewrite has_char_app, quote_byte_hyphen, IH.
  reflexivity.
Qed.

(** *** The matcher *)


Lemma re_star_sound k s gs' :
  re_star k s = Some gs' ->
  exists g gs t, gs' = g :: gs /\ no_newline g /\ s = g +:+ t /\ k t = Some gs.
Proof.
  revert gs'. induction s as [|d r IH]; intros gs' H; simpl in H.
  - destruct (k "") as [gs|] eqn:Hk; [|discriminate]. injection H as <-.
    exists "", gs, "". repeat split; auto.
  - assert (Hstop : match k (String d r) with
                    | Some gs => Some ("" :: gs) | None => None end = Some gs'
                    -> exists g gs t, gs' = g :: gs /\ no_newline g
                       /\ String d r = g +:+ t /\ k t = Some gs).
    { destruct (k (String d r)) as [gs|] eqn:Hk; [|discriminate].
      intros [= <-]. exists "", gs, (String d r). repeat split; auto. }
    destruct (Ascii.eqb d newline) eqn:Hd; [auto|].
    destruct (re_star k r) as [[|g gs]|] eqn:Hr; auto.
    injection H as <-.
    destruct (IH _ eq_refl) as (g' & gs' & t & [= -> ->] & Hg & -> & Hk).
    exists (String d g'), gs', t. repeat split; auto.
    unfold no_newline in *. simpl. rewrite Hd, Hg. reflexivity.
Qed.


Lemma at_dollar_cases s : at_dollar s = true -> s = "" \/ s = LF.
Proof.
  destruct s as [|c [|d r]]; simpl; auto; [|discriminate].
  intros H. apply Ascii.eqb_eq in H. subst. auto.
Qed.

Lemma re_match_sound items : forall s gs,
  re_match items s = Some gs ->
  length gs = count_groups items /\ Forall no_newline gs
  /\ (s = re_fill items gs \/ s = re_fill items gs +:+ LF).
Proof.
  induction items as [|[c|] rest IH]; intros s gs H; simpl in H.
  - destruct (at_dollar s) eqn:Hs; [|discriminate]. injection H as <-.
    apply at_dollar_cases in Hs. simpl. intuition.
  - destruct s as [|d r]; [discriminate|].
    destruct (Ascii.eqb c d) eqn:Hc; [|discriminate].
    apply Ascii.eqb_eq in Hc. subst d.
    destruct (IH _ _ H) as (Hl & Hn & Hs). repeat split; auto.
    simpl. destruct Hs as [-> | ->]; auto.
  - apply re_star_sound in H as (g & gs' & t & -> & Hg & -> & Hk).
    destruct (IH _ _ Hk) as (Hl & Hn & Hs). repeat split.
    + simpl. congruence.
    + constructor; auto.
    + simpl. destruct Hs as [-> | ->]; auto. right. now rewrite append_assoc.
Qed.

(** A group stops where it is when the rest of the pattern matches there
    and at no later place. *)
Lemma re_star_none k s :
  (forall x t, s = x +:+ t -> no_newline x -> k t = None) ->
  re_star k s = None.
Proof.
  induction s as [|d r IH]; intros H; simpl.
  - now rewrite (H "" "" eq_refl eq_refl).
  - rewrite (H "" (String d r) eq_refl eq_refl).
    destruct (Ascii.eqb d newline) eqn:Hd; [reflexivity|].
    rewrite IH; [reflexivity|]. intros x t -> Hx.
    apply (H (String d x) t eq_refl). unfold no_newline in *. simpl.
    now rewrite Hd, Hx.
Qed.

Lemma re_star_greedy k g t gs :
  no_newline g -> k t = Some gs ->
  (forall x t', t = x +:+ t' -> x <> "" -> no_newline x -> k t' = None) ->
  re_star k (g +:+ t) = Some (g :: gs).
Proof.
  intros Hg Hk Hlater. induction g as [|c g IH].
  - simpl. destruct t as [|d r]; simpl; rewrite Hk; [reflexivity|].
    destruct (Ascii.eqb d newline) eqn:Hd; [reflexivity|].
    rewrite re_star_none; [reflexivity|]. intros x t' -> Hx.
    apply (Hlater (String d x) t' eq_refl); [discriminate|].
    unfold no_newline in *. simpl. now rewrite Hd, Hx.
  - unfold no_newline in Hg. simpl in Hg.
    apply orb_false_elim in Hg as [Hc Hg].
    cbn [append re_star]. rewrite Hc, (IH Hg). reflexivity.
Qed.

Lemma re_match_lit p rest s :
  re_match (re_lit p ++ rest) (p +:+ s) = re_match rest s.
Proof.
  induction p as [|c p IH]; [reflexivity|].
  simpl. now rewrite Ascii.eqb_refl.
Qed.

Lemma has_char_suffix c x t :
  has_char c (x +:+ t) = false -> has_char c t = false.
Proof. rewrite has_char_app. now intros [_ ?]%orb_false_elim. Qed.

Lemma has_char_head c r : has_char c (String c r) = true.
Proof. simpl. now rewrite Ascii.eqb_refl. Qed.

(** A suffix of [a +:+ b] that starts with a character absent from [a]
    is a suffix of [b]. *)
Lemma suffix_skips c a b x t :
  has_char c a = false -> a +:+ b = x +:+ String c t ->
  exists y, b = y +:+ String c t.
Proof.
  revert x. induction a as [|d a IH]; intros x Ha H; simpl in *.
  - eauto.
  - apply orb_false_elim in Ha as [Hd Ha].
    destruct x as [|e x]; simpl in H.
    + injection H as -> _. now rewrite Ascii.eqb_refl in Hd.
    + injection H as _ H. eauto.
Qed.


Lemma re_match_char c rest s :
  re_match (RLit c :: rest) (String c s) = re_match rest s.
Proof. simpl. now rewrite Ascii.eqb_refl. Qed.

Lemma re_match_other c rest t :
  has_char c t = false -> re_match (RLit c :: rest) t = None.
Proof.
  destruct t as [|d t]; [reflexivity|]. cbn [has_char re_match].
  intros [Hd _]%orb_false_elim. now rewrite Ascii.eqb_sym, Hd.
Qed.

Lemma re_match_char_ne c d rest s :
  c <> d -> re_match (RLit c :: rest) (String d s) = None.
Proof. intros H. simpl. now apply Ascii.eqb_neq in H as ->. Qed.

Lemma re_star_end v : no_newline v -> re_star (re_match []) v = Some [v].
Proof.
  intros Hv. rewrite <- (append_nil_r v) at 1.
  apply re_star_greedy; auto.
  intros [|] t' H; [congruence|discriminate].
Qed.

Lemma hosted_regex_complete p owner repo rev :
  valid_components owner repo rev ->
  re_match (hosted_regex p)
    (p +:+ ":" +:+ owner +:+ "/" +:+ repo +:+ "@" +:+ rev)
  = Some [owner; repo; rev].
Proof.
  intros (Ho & Hr & Hv & Hslash & Hat).
  unfold hosted_regex. rewrite re_match_lit.
  change (":" +:+ ?s) with (String ":" s). rewrite re_match_char.
  change (re_match (RGroup :: ?rest) ?s) with (re_star (re_match rest) s).
  set (k2 := re_match [RLit "@"; RGroup]).
  set (k1 := re_match [RLit "/"; RGroup; RLit "@"; RGroup]).
  assert (Hstar2 : re_star k2 (repo +:+ "@" +:+ rev) = Some [repo; rev]).
  { apply re_star_greedy; [exact Hr| |].
    - unfold k2. change ("@" +:+ rev) with (String "@" rev).
      rewrite re_match_char. now apply re_star_end.
    - intros x t' H Hx _. apply re_match_other.
      destruct x as [|e x]; [congruence|].
      injection H as _ ->. eapply has_char_suffix, Hat. }
  apply re_star_greedy; [exact Ho| |].
  - unfold k1. change ("/" +:+ ?s) with (String "/" s).
    rewrite re_match_char. exact Hstar2.
  - intros x t' H Hx _. destruct x as [|e x]; [congruence|].
    injection H as _ H.
    destruct t' as [|d t']; [reflexivity|]. unfold k1.
    destruct (Ascii.eqb_spec "/" d) as [<-|Hd];
      [|now apply re_match_char_ne].
    rewrite re_match_char.
    change (re_match (RGroup :: ?rest) ?s) with (re_star (re_match rest) s).
    destruct (suffix_skips "/" repo _ x t' Hslash H) as [y Hy].
    destruct y as [|e' y]; [discriminate|]. injection Hy as _ Hy.
    apply re_star_none. intros x' t'' -> _. apply re_match_other.
    rewrite Hy in Hat. apply has_char_suffix in Hat.
    cbn [has_char] in Hat. apply orb_false_elim in Hat as [_ Hat].
    now apply has_char_suffix in Hat.
Qed.

(** *** Hosted references *)

Lemma hosted_regex_groups p src gs :
  re_match (hosted_regex (provider_name p)) src = Some gs ->
  exists owner repo rev,
    gs = [owner; repo; rev]
    /\ (src = provider_name p +:+ ":" +:+ owner +:+ "/" +:+ repo +:+ "@" +:+ rev
        \/ src = (provider_name p +:+ ":" +:+ owner +:+ "/" +:+ repo +:+ "@"
                  +:+ rev) +:+ LF).
Proof.
  intros H. apply re_match_sound in H as (Hl & _ & Hs).
  destruct gs as [|owner [|repo [|rev [|]]]];
    try (destruct p; discriminate Hl).
  exists owner, repo, rev. split; [reflexivity|].
  assert (Hfill : re_fill (hosted_regex (provider_name p)) [owner; repo; rev]
                  = provider_name p +:+ ":" +:+ owner +:+ "/" +:+ repo
                    +:+ "@" +:+ rev).
  { destruct p; cbn; now rewrite append_nil_r. }
  rewrite Hfill in Hs. exact Hs.
Qed.

Lemma parse_hosted_inv p src key remote rev' :
  parse_hosted p src = Some (key, remote, rev') ->
  exists owner repo rev,
    re_match (hosted_regex (provider_name p)) src = Some [owner; repo; rev]
    /\ key = spec_cache_key p owner repo rev
    /\ remote = spec_remote p owner repo
    /\ rev' = url_quote rev.
Proof.
  intros H.
  destruct (re_match (hosted_regex (provider_name p)) src) as [gs|] eqn:Hm.
  - destruct (hosted_regex_groups p src gs Hm) as (o & r & v & -> & _).
    exists o, r, v. split; [reflexivity|].
    destruct p; cbn [parse_hosted provider_name] in *;
      unfold _clone_src_github, _clone_src_gitlab in H; rewrite Hm in H;
      injection H as <- <- <-; repeat split; reflexivity.
  - destruct p; cbn [parse_hosted provider_name] in *;
      unfold _clone_src_github, _clone_src_gitlab in H; rewrite Hm in H;
      discriminate.
Qed.

Lemma spec_remote_inj p o1 r1 o2 r2 :
  spec_remote p o1 r1 = spec_remote p o2 r2 -> o1 = o2 /\ r1 = r2.
Proof.
  intros H.
  assert (Hcut : url_quote o1 = url_quote o2
                 /\ url_quote r1 = url_quote r2).
  { destruct p; unfold spec_remote in H; apply String.app_inj in H;
      change ("/" +:+ ?s) with (String "/" s) in H;
      apply split_at_first in H as [Ho Hr];
      auto using url_quote_no_slash.
    split; [assumption|]. now apply append_inv_tail in Hr. }
  destruct Hcut as [Ho Hr]. split; now apply url_quote_inj.
Qed.

Lemma spec_cache_key_inj p o1 r1 v1 o2 r2 v2 :
  has_char "-" o1 = false -> has_char "-" r1 = false ->
  has_char "-" o2 = false -> has_char "-" r2 = false ->
  spec_cache_key p o1 r1 v1 = spec_cache_key p o2 r2 v2 ->
  o1 = o2 /\ r1 = r2 /\ v1 = v2.
Proof.
  intros Ho1 Hr1 Ho2 Hr2 H. unfold spec_cache_key in H. cbn [str_join] in H.
  apply String.app_inj in H.
  change ("-" +:+ ?s) with (String "-" s) in H. injection H as H.
  apply split_at_first in H as [Ho H]; [|now rewrite url_quote_hyphen..].
  apply split_at_first in H as [Hr Hv]; [|now rewrite url_quote_hyphen..].
  repeat split; now apply url_quote_inj.
Qed.

(** C7, amended.  A valid hosted source [provider:owner/repo@rev] parses to
    the cache key [provider-owner-repo-rev] and to the provider's remote URL,
    each component percent-encoded on its own; whatever parses was cut into
    its three components by the pattern; two sources with different
    (owner, repo) never get the same remote URL, and never the same cache key
    when no owner or repository contains a hyphen. *)
Theorem hosted_source_key_and_remote :
  (forall p owner repo rev,
     valid_components owner repo rev ->
     parse_hosted p
       (provider_name p +:+ ":" +:+ owner +:+ "/" +:+ repo +:+ "@" +:+ rev)
     = Some (spec_cache_key p owner repo rev, spec_remote p owner repo,
             url_quote rev))
  /\ (forall p src1 key1 remote1 rev1 src2 key2 remote2 rev2,
        parse_hosted p src1 = Some (key1, remote1, rev1) ->
        parse_hosted p src2 = Some (key2, remote2, rev2) ->
        exists o1 r1 v1 o2 r2 v2,
          re_match (hosted_regex (provider_name p)) src1 = Some [o1; r1; v1]
          /\ re_match (hosted_regex (provider_name p)) src2 = Some [o2; r2; v2]
          /\ key1 = spec_cache_key p o1 r1 v1
          /\ remote1 = spec_remote p o1 r1 /\ rev1 = url_quote v1
          /\ key2 = spec_cache_key p o2 r2 v2
          /\ remote2 = spec_remote p o2 r2 /\ rev2 = url_quote v2
          /\ (remote1 = remote2 -> o1 = o2 /\ r1 = r2)
          /\ (has_char "-" o1 = false -> has_char "-" r1 = false ->
              has_char "-" o2 = false -> has_char "-" r2 = false ->
              key1 = key2 -> o1 = o2 /\ r1 = r2 /\ v1 = v2)).
Proof.
  split.
  - intros p owner repo rev Hvalid.
    pose proof (hosted_regex_complete (provider_name p) _ _ _ Hvalid) as Hm.
    destruct p; cbn [parse_hosted provider_name] in *;
      unfold _clone_src_github, _clone_src_gitlab; rewrite Hm; reflexivity.
  - intros p src1 key1 remote1 rev1 src2 key2 remote2 rev2 H1 H2.
    apply parse_hosted_inv in H1 as (o1 & r1 & v1 & Hm1 & -> & -> & ->).
    apply parse_hosted_inv in H2 as (o2 & r2 & v2 & Hm2 & -> & -> & ->).
    exists o1, r1, v1, o2, r2, v2. repeat split; auto.
    + now apply spec_remote_inj in H.
    + now apply spec_remote_inj in H.
    + eapply spec_cache_key_inj in H3 as (? & ? & ?); eauto.
    + eapply spec_cache_key_inj in H3 as (? & ? & ?); eauto.
    + eapply spec_cache_key_inj in H3 as (? & ? & ?); eauto.
Qed.

Lemma hosted_source_key_and_remote_witness :
  parse_hosted GitHub "github:fluidattacks/makes@main"
  = Some ("github-fluidattacks-makes-main",
          "https://github.com/fluidattacks/makes", "main")
  /\ ("https://gitlab.com/a%2Fb/c.git" = "https://gitlab.com/a%2Fb/c.git" ->
      "a/b" = "a/b" /\ "c" = "c").
Proof.
  destruct hosted_source_key_and_remote as [Hvalid Hpair]. split.
  - apply (Hvalid GitHub "fluidattacks" "makes" "main").
    repeat split; reflexivity.
  - destruct (Hpair GitLab "gitlab:a/b/c@r" "gitlab-a%2Fb-c-r"
                "https://gitlab.com/a%2Fb/c.git" "r"
                "gitlab:a/b/c@r" "gitlab-a%2Fb-c-r"
                "https://gitlab.com/a%2Fb/c.git" "r" eq_refl eq_refl)
      as (o1 & r1 & v1 & o2 & r2 & v2 & Hm1 & Hm2 & _ & _ & _ & _ & _ & _
          & Hremote & _).
    injection Hm1 as <- <- <-. injection Hm2 as <- <- <-. exact Hremote.
Defined.

(** C7 as stated fails: the hyphen that separates the components of the
    key is left as it is by the percent-encoding, so the owner [a-b] with
    the repository [c] and the owner [a] with the repository [b-c] share
    one cache key. *)
Lemma cache_key_collision :
  re_match (hosted_regex "github") "github:a-b/c@r" = Some ["a-b"; "c"; "r"]
  /\ re_match (hosted_regex "github") "github:a/b-c@r" = Some ["a"; "b-c"; "r"]
  /\ _clone_src_github "github:a-b/c@r"
     = Some ("github-a-b-c-r", "https://github.com/a-b/c", "r")
  /\ _clone_src_github "github:a/b-c@r"
     = Some ("github-a-b-c-r", "https://github.com/a/b-c", "r").
Proof. repeat split; reflexivity. Qed.

(** * The order of the overlay *)

Lemma str_le_iff a b : str_le a b <-> a = b \/ OrderedTypeEx.String_as_OT.lt a b.
Proof.
  unfold str_le, String.leb.
  change (String.compare a b) with (OrderedTypeEx.String_as_OT.cmp a b).
  destruct (OrderedTypeEx.String_as_OT.cmp a b) eqn:Hc.
  - apply OrderedTypeEx.String_as_OT.cmp_eq in Hc. tauto.
  - apply OrderedTypeEx.String_as_OT.cmp_lt in Hc. tauto.
  - split; [discriminate|]. intros [-> | Hlt].
    + assert (OrderedTypeEx.String_as_OT.cmp b b = Eq) by now apply OrderedTypeEx.String_as_OT.cmp_eq.
      congruence.
    + apply OrderedTypeEx.String_as_OT.cmp_lt in Hlt. congruence.
Qed.

#[global] Instance str_le_trans : Transitive str_le.
Proof.
  intros a b c. rewrite !str_le_iff. intros [-> | Hab] [-> | Hbc]; auto.
  right. eapply OrderedTypeEx.String_as_OT.lt_trans; eassumption.
Qed.

#[global] Instance str_le_total : Total str_le.
Proof. intros a b. apply String.leb_total. Qed.


(** * Running the monad *)

Lemma bind_ok {A B} (m : M A) (k : A -> M B) w a w' :
  m w = (Ok a, w') -> bind m k w = k a w'.
Proof. unfold bind. now intros ->. Qed.

Lemma bind_raise {A B} (m : M A) (k : A -> M B) w e w' :
  m w = (Raise e, w') -> bind m k w = (Raise e, w').
Proof. unfold bind. now intros ->. Qed.

Lemma bind_inv_ok {A B} (m : M A) (k : A -> M B) w b w' :
  bind m k w = (Ok b, w') ->
  exists a w1, m w = (Ok a, w1) /\ k a w1 = (Ok b, w').
Proof.
  unfold bind. destruct (m w) as [[a|e] w1]; [eauto|discriminate].
Qed.

Lemma bind_assoc {A B C} (m : M A) (f : A -> M B) (g : B -> M C) w :
  bind (bind m f) g w = bind m (fun x => bind (f x) g) w.
Proof. unfold bind. destruct (m w) as [[a|e] w1]; reflexivity. Qed.

Lemma for_each_app {A} (l1 l2 : list A) (body : A -> M unit) w :
  for_each (l1 ++ l2) body w
  = (for_each l1 body ;; for_each l2 body) w.
Proof.
  revert w. induction l1 as [|x l1 IH]; intros w; simpl.
  - reflexivity.
  - unfold bind. destruct (body x w) as [[[]|e] w1]; [|reflexivity].
    rewrite IH. reflexivity.
Qed.

Lemma _log_run args w :
  _log args w = (Ok tt, add_event (EvLog (str_join " " args)) w).
Proof. reflexivity. Qed.

(** Runs the [_log] that heads the computation of the goal. *)
Ltac step_log :=
  cbv beta; rewrite ?bind_assoc;
  lazymatch goal with
  | |- bind (_log ?args) ?k ?w = _ =>
      rewrite (bind_ok (_log args) k w tt _ (_log_run args w))
  end.


(** * The build invocation (C6) *)

Section NixBuild.
Context {E : Env}.

Lemma getitem_pure (d : gmap string string) (key : string) :
  exists r, forall w, getitem d key w = (r, w).
Proof.
  unfold getitem. destruct (d !! key); eexists; intros w; reflexivity.
Qed.

Lemma map_getitem_pure (key : string) (l : list (gmap string string)) :
  exists r, forall w, map_m (fun config => getitem config key) l w = (r, w).
Proof.
  induction l as [|d l [rl IH]]; simpl.
  - eexists. intros w. reflexivity.
  - destruct (getitem_pure d key) as [[v|e] Hd].
    + destruct rl as [vs|e].
      * exists (Ok (v :: vs)). intros w. unfold bind. now rewrite Hd, IH.
      * exists (Raise e). intros w. unfold bind. now rewrite Hd, IH.
    + exists (Raise e). intros w. unfold bind. now rewrite Hd.
Qed.

(** The arguments that [_nix_build] returns depend on the world through the
    execution id alone. *)
Lemma _nix_build_shape attr cache head out :
  (exists e, forall w, exists w',
     _nix_build attr cache head out w = (Raise e, w'))
  \/ (exists before after, forall w, exists w',
        _nix_build attr cache head out w
        = (Ok (before
               ++ _if NIX_STABLE
                    ["--argstr"; "makesExecutionId"; uuid_hex (uuid_counter w)]
               ++ after), w')
        /\ length before = (if NIX_STABLE then 1 else 4)%nat).
Proof.
  unfold _nix_build.
  assert (Hpre : exists r, forall w,
    match cache with
    | None =>
        ret ("https://cache.nixos.org",
             "cache.nixos.org-1:6NCHdD59X431o0gWypbMrAURkbJ16ZPMQFGspcDShjY=")
    | Some cache =>
        let* urls := map_m (fun config => getitem config "url") cache in
        let* pub_keys := map_m (fun config => getitem config "pubKey") cache in
        ret (str_join " " urls, str_join " " pub_keys)
    end w = (r, w)).
  { destruct cache as [cache|]; [|eexists; intros w; reflexivity].
    destruct (map_getitem_pure "url" cache) as [[urls|e] Hu].
    - destruct (map_getitem_pure "pubKey" cache) as [[keys|e] Hk].
      + eexists. intros w. unfold bind. rewrite Hu, Hk. reflexivity.
      + exists (Raise e). intros w. unfold bind. now rewrite Hu, Hk.
    - exists (Raise e). intros w. unfold bind. now rewrite Hu. }
  destruct Hpre as [[[subs keys]|e] Hpre].
  - right.
    exists (_if NIX_STABLE [__NIX_STABLE__ +:+ "/bin/nix-build"]
            ++ _if (negb NIX_STABLE) [__NIX_UNSTABLE__ +:+ "/bin/nix"]
            ++ _if (negb NIX_STABLE)
                 ["--experimental-features"; "flakes nix-command"]
            ++ _if (negb NIX_STABLE) ["build"]).
    exists (_if NIX_STABLE ["--argstr"; "makesSrc"; __MAKES_SRC__]
            ++ _if NIX_STABLE ["--argstr"; "projectSrc"; head]
            ++ _if NIX_STABLE ["--attr"; attr]
            ++ ["--option"; "cores"; "0"]
            ++ _if (negb NIX_STABLE) ["--impure"]
            ++ ["--option"; "narinfo-cache-negative-ttl"; "1"]
            ++ ["--option"; "narinfo-cache-positive-ttl"; "1"]
            ++ ["--option"; "max-jobs"; "auto"]
            ++ ["--option"; "substituters"; subs]
            ++ ["--option"; "trusted-public-keys"; keys]
            ++ ["--option"; "sandbox"; if K8S_COMPAT then "false" else "true"]
            ++ _if (truthy out) ["--out-link"; out]
            ++ _if (negb (truthy out)) ["--no-out-link"]
            ++ ["--show-trace"]
            ++ _if NIX_STABLE [__MAKES_SRC__ +:+ "/src/evaluator/default.nix"]
            ++ _if (negb NIX_STABLE) [attr]).
    intros w. eexists. unfold bind at 1. rewrite Hpre.
    unfold bind, uuid_hex_next, ret.
    destruct NIX_STABLE; split; reflexivity.
  - left. exists e. intros w. eexists. unfold bind. rewrite Hpre. reflexivity.
Qed.

(** C6, amended.  For fixed inputs and flags, two invocations of
    [_nix_build] return the same result in the unstable mode.  In the stable
    mode they raise the same exception or return argument lists that are the
    same everywhere but at index 3, the execution id, where each holds the
    random id drawn by its own invocation. *)
Theorem nix_build_repeatable attr cache head out w1 w2 :
  (NIX_STABLE = false ->
   fst (_nix_build attr cache head out w1)
   = fst (_nix_build attr cache head out w2))
  /\ (NIX_STABLE = true ->
      match fst (_nix_build attr cache head out w1),
            fst (_nix_build attr cache head out w2) with
      | Ok l1, Ok l2 =>
          l1 !! 3%nat = Some (uuid_hex (uuid_counter w1))
          /\ l2 !! 3%nat = Some (uuid_hex (uuid_counter w2))
          /\ l1 = <[3%nat := uuid_hex (uuid_counter w1)]> l2
      | Raise e1, Raise e2 => e1 = e2
      | _, _ => False
      end).
Proof.
  destruct (_nix_build_shape attr cache head out)
    as [[e He] | (before & after & Hok)].
  - destruct (He w1) as [w1' ->], (He w2) as [w2' ->]. split; reflexivity.
  - destruct (Hok w1) as (w1' & -> & Hlen), (Hok w2) as (w2' & -> & _).
    split; intros Hmode; rewrite Hmode in *; cbn [fst _if].
    + reflexivity.
    + destruct before as [|b [|]]; try discriminate Hlen.
      repeat split; reflexivity.
Qed.

End NixBuild.

Lemma nix_build_repeatable_witness :
  fst (@_nix_build (demo_env sc_unstable) "x" None "/tmp/makes-a" "/tmp/o"
         w_edit)
  = fst (@_nix_build (demo_env sc_unstable) "x" None "/tmp/makes-a" "/tmp/o"
           (set_uuid_counter 5 w_edit)).
Proof.
  apply (@nix_build_repeatable (demo_env sc_unstable) "x" None "/tmp/makes-a"
           "/tmp/o" w_edit (set_uuid_counter 5 w_edit)).
  reflexivity.
Defined.

(** C6 as stated fails in the stable mode: the second of two invocations
    with the same inputs carries another execution id. *)
Lemma nix_build_not_pure :
  let first :=
    @_nix_build (demo_env sc_edit) "config.attrs" None "/tmp/makes-a"
      "/tmp/o" w_edit in
  let second :=
    @_nix_build (demo_env sc_edit) "config.attrs" None "/tmp/makes-a"
      "/tmp/o" (snd first) in
  @NIX_STABLE (demo_env sc_edit) = true
  /\ (exists l1, fst first = Ok l1 /\ l1 !! 3%nat = Some "00000000")
  /\ (exists l2, fst second = Ok l2 /\ l2 !! 3%nat = Some "00000001")
  /\ fst first <> fst second.
Proof.
  cbv zeta. split; [reflexivity|].
  split; [eexists; split; reflexivity|].
  split; [eexists; split; reflexivity|].
  vm_compute. discriminate.
Qed.

(** * The clone cache (C4) *)

Section CloneCache.
Context {E : Env}.

(** The entries [rmtree] leaves are those outside the tree. *)
Lemma rmtree_dir path ignore_errors w t :
  fs w !! resolve path = Some (Dir t) ->
  exists w',
    rmtree path ignore_errors w = (Ok tt, w')
    /\ events w' = events w ++ [EvRmtree path]
    /\ ON_EXIT w' = ON_EXIT w
    /\ (forall k, in_tree (resolve path) k = true -> fs w' !! k = None)
    /\ (forall k, in_tree (resolve path) k = false -> fs w' !! k = fs w !! k).
Proof.
  intros Hdir. unfold rmtree. cbn [add_event fs]. rewrite Hdir.
  eexists. split; [reflexivity|]. cbn. repeat split.
  - intros k Hk. apply map_lookup_filter_None. right. intros n _.
    cbn. congruence.
  - intros k Hk. destruct (fs w !! k) as [n|] eqn:Hn.
    + apply map_lookup_filter_Some. auto.
    + apply map_lookup_filter_None. auto.
Qed.

Lemma in_tree_self d : in_tree d d = true.
Proof. unfold in_tree. now rewrite String.eqb_refl. Qed.

Lemma in_tree_under d k : under d k = true -> in_tree d k = true.
Proof. unfold in_tree. intros ->. apply orb_true_r. Qed.

(** C4.  With an empty cache key the remote comes back unchanged.  With a
    non-empty key, an entry no older than 86400 seconds makes the cached
    directory the remote; an older entry (a directory, as cache entries
    are) is deleted with all it holds and the original remote comes back;
    without an entry the original remote comes back.  So, whenever the
    lookup returns, it returns the cached directory exactly when there is
    an entry no older than 86400 seconds. *)
Theorem clone_cache_lookup src cache_key remote w :
  let cached := join SOURCES_CACHE cache_key in
  (cache_key = "" ->
   _clone_src_cache_get src cache_key remote w = (Ok remote, w))
  /\ (cache_key <> "" ->
      forall n, fs w !! resolve cached = Some n ->
      (clock w - node_ctime n <= 86400)%Q ->
      exists w', _clone_src_cache_get src cache_key remote w = (Ok cached, w')
                 /\ fs w' = fs w)
  /\ (cache_key <> "" ->
      forall t, fs w !! resolve cached = Some (Dir t) ->
      ~ (clock w - t <= 86400)%Q ->
      exists w', _clone_src_cache_get src cache_key remote w = (Ok remote, w')
                 /\ fs w' !! resolve cached = None
                 /\ (forall k, under (resolve cached) k = true ->
                               fs w' !! k = None)
                 /\ (forall k, in_tree (resolve cached) k = false ->
                               fs w' !! k = fs w !! k))
  /\ (cache_key <> "" ->
      fs w !! resolve cached = None ->
      exists w', _clone_src_cache_get src cache_key remote w = (Ok remote, w')
                 /\ fs w' = fs w)
  /\ (cache_key <> "" -> remote <> cached ->
      forall r w',
        _clone_src_cache_get src cache_key remote w = (Ok r, w') ->
        (r = cached
         <-> exists n, fs w !! resolve cached = Some n
                       /\ (clock w - node_ctime n <= 86400)%Q)).
Proof.
  intros cached. unfold _clone_src_cache_get. fold cached.
  split; [|split; [|split; [|split]]].
  - intros ->. reflexivity.
  - intros Hkey n Hn Hage. destruct cache_key; [congruence|]. cbn [truthy].
    unfold bind at 1, exists_. rewrite Hn.
    rewrite bool_decide_eq_true_2 by eauto.
    unfold bind at 1, time. unfold bind at 1, getctime. rewrite Hn.
    apply Qle_bool_iff in Hage. rewrite Hage.
    eexists. split; reflexivity.
  - intros Hkey t Ht Hage. destruct cache_key; [congruence|]. cbn [truthy].
    unfold bind at 1, exists_. rewrite Ht.
    rewrite bool_decide_eq_true_2 by eauto.
    unfold bind at 1, time. unfold bind at 1, getctime. rewrite Ht.
    cbn [node_ctime].
    destruct (Qle_bool (clock w - t) 86400) eqn:Hb;
      [apply Qle_bool_iff in Hb; contradiction|].
    destruct (rmtree_dir cached false w t Ht)
      as (w' & Hrm & _ & _ & Hin & Hout).
    unfold bind. rewrite Hrm. exists w'. repeat split; auto.
    + apply Hin, in_tree_self.
    + intros k Hk. apply Hin, in_tree_under, Hk.
  - intros Hkey Hnone. destruct cache_key; [congruence|]. cbn [truthy].
    unfold bind at 1, exists_. rewrite Hnone.
    rewrite bool_decide_eq_false_2 by (intros [? ?]; discriminate).
    eexists. split; reflexivity.
  - intros Hkey Hremote r w'. destruct cache_key; [congruence|].
    cbn [truthy]. unfold bind at 1, exists_.
    destruct (fs w !! resolve cached) as [n|] eqn:Hn.
    + rewrite bool_decide_eq_true_2 by eauto.
      unfold bind at 1, time. unfold bind at 1, getctime. rewrite Hn.
      destruct (Qle_bool (clock w - node_ctime n) 86400) eqn:Hage.
      * intros [= <- _]. split; [|reflexivity]. intros _. exists n.
        split; [reflexivity|]. now apply Qle_bool_iff.
      * intros Hrun. apply bind_inv_ok in Hrun as ([] & w1 & _ & [= <- _]).
        split; [congruence|]. intros (n' & [= <-] & Hle).
        apply Qle_bool_iff in Hle. congruence.
    + rewrite bool_decide_eq_false_2 by (intros [? ?]; discriminate).
      intros [= <- _]. split; [congruence|].
      intros (n & Hsome & _). discriminate.
Qed.

End CloneCache.

Lemma clone_cache_lookup_witness :
  let get := @_clone_src_cache_get (demo_env sc_edit) "github:o/r@v" in
  let remote := "https://github.com/o/r" in
  get "" remote (w_cached 50000) = (Ok remote, w_cached 50000)
  /\ (exists w', get "github-o-r-v" remote (w_cached 50000)
                 = (Ok demo_cached, w')
                 /\ fs w' = fs (w_cached 50000))
  /\ (exists w', get "github-o-r-v" remote (w_cached 10) = (Ok remote, w')
                 /\ fs w' !! demo_cached = None
                 /\ fs w' !! (demo_cached +:+ "/README") = None)
  /\ (exists w', get "github-o-r-v" remote w_edit = (Ok remote, w')
                 /\ fs w' = fs w_edit).
Proof.
  cbv zeta.
  pose proof (fun w => @clone_cache_lookup (demo_env sc_edit) "github:o/r@v"
                         "github-o-r-v" "https://github.com/o/r" w) as Hget.
  cbv zeta in Hget.
  split; [apply (@clone_cache_lookup (demo_env sc_edit)); reflexivity|].
  split; [|split].
  - destruct (Hget (w_cached 50000)) as (_ & Hfresh & _).
    apply (Hfresh ltac:(discriminate) (Dir 50000)).
    + vm_compute. reflexivity.
    + vm_compute. discriminate.
  - destruct (Hget (w_cached 10)) as (_ & _ & Hstale & _).
    destruct (Hstale ltac:(discriminate) 10%Q) as (w' & Hw' & Hgone & Hin & _).
    + vm_compute. reflexivity.
    + vm_compute. intros H. apply H. reflexivity.
    + exists w'. repeat split; [exact Hw'|exact Hgone|].
      apply Hin. vm_compute. reflexivity.
  - destruct (Hget w_edit) as (_ & _ & _ & Hmiss & _).
    apply (Hmiss ltac:(discriminate)). vm_compute. reflexivity.
Defined.

(** * Cleanup at exit (C9) *)

Section Cleanup.
Context {E : Env}.

Lemma rmtree_events path ignore_errors w :
  exists r w',
    rmtree path ignore_errors w = (r, w')
    /\ events w' = events w ++ [EvRmtree path]
    /\ ON_EXIT w' = ON_EXIT w.
Proof.
  unfold rmtree. cbn [add_event fs].
  destruct (fs w !! resolve path) as [[c t|t]|]; [destruct ignore_errors.. |];
    try destruct ignore_errors; eexists _, _; repeat split; reflexivity.
Qed.

Lemma suppressed_actions_run (l : list action) w :
  exists w',
    for_each l (fun action => suppress (run_action action)) w = (Ok tt, w')
    /\ events w' = events w ++ map action_event l
    /\ ON_EXIT w' = ON_EXIT w.
Proof.
  revert w. induction l as [|[path ignore_errors] l IH]; intros w.
  - exists w. simpl. rewrite app_nil_r. auto.
  - destruct (rmtree_events path ignore_errors w) as (r & w1 & Hrm & Hev & Hon).
    destruct (IH w1) as (w' & Hrest & Hev' & Hon').
    exists w'. cbn [for_each].
    rewrite (bind_ok _ _ w tt w1)
      by (unfold suppress; cbn [run_action]; rewrite Hrm; now destruct r).
    rewrite Hrest. repeat split; [|congruence].
    rewrite Hev', Hev, <- app_assoc. reflexivity.
Qed.

Lemma cleanup_runs w :
  exists w',
    cleanup w = (Ok tt, w')
    /\ events w' = events w ++ map action_event (ON_EXIT w).
Proof.
  destruct (suppressed_actions_run (ON_EXIT w) w) as (w' & Hrun & Hev & _).
  exists w'. unfold cleanup, bind, get_world. auto.
Qed.

(** The module's exit status is the one [main] asks for. *)
Lemma __main___status argv w r w1 :
  main argv w = (r, w1) ->
  exists w2,
    __main__ argv w = (exit_status r, w2)
    /\ events w2 = events w1 ++ map action_event (ON_EXIT w1).
Proof.
  intros Hmain. destruct (cleanup_runs w1) as (w2 & Hclean & Hev).
  exists w2. unfold __main__. rewrite Hmain, Hclean. auto.
Qed.

Lemma cleanup_events_are_rmtree (l : list action) :
  Forall is_rmtree_event (map action_event l).
Proof. induction l as [|[] l IH]; constructor; simpl; auto. Qed.

(** C9, amended.  At termination every cleanup action accumulated in
    [ON_EXIT] is run, in the order of registration; an action that fails
    stops neither the others nor the exit, and the exit status is the one
    [main] chose. *)
Theorem cleanup_in_registration_order argv w :
  (exists w', cleanup w = (Ok tt, w')
              /\ events w' = events w ++ map action_event (ON_EXIT w))
  /\ (exists r w1 w2,
        main argv w = (r, w1)
        /\ cleanup w1 = (Ok tt, w2)
        /\ events w2 = events w1 ++ map action_event (ON_EXIT w1)
        /\ __main__ argv w = (exit_status r, w2)).
Proof.
  split; [apply cleanup_runs|].
  destruct (main argv w) as [r w1] eqn:Hmain.
  destruct (cleanup_runs w1) as (w2 & Hclean & Hev).
  exists r, w1, w2. repeat split; auto.
  unfold __main__. now rewrite Hmain, Hclean.
Qed.

End Cleanup.

(** C9 as stated fails: the output directory, registered at import, is
    removed before the checkout that [_clone_src] registered later; and the
    first action failing (nothing to remove, errors not ignored) does not
    keep the second from running. *)
Lemma cleanup_not_reversed :
  let w := snd (@main (demo_env sc_edit) ["m"; "."; "/hello"] w_edit) in
  ON_EXIT w = [RmtreeAction "/tmp/out" true; RmtreeAction "/tmp/makes-a" true]
  /\ events (snd (@cleanup (demo_env sc_edit) w))
     = events w ++ [EvRmtree "/tmp/out"; EvRmtree "/tmp/makes-a"]
  /\ events (snd (@cleanup (demo_env sc_edit) w))
     <> events w ++ map action_event (rev (ON_EXIT w))
  /\ (let failing :=
        set_ON_EXIT [RmtreeAction "/nowhere" false;
                     RmtreeAction "/tmp/makes-a" false] w in
      fst (@rmtree (demo_env sc_edit) "/nowhere" false failing)
      = Raise (OSError FileNotFoundError "/nowhere")
      /\ fst (@cleanup (demo_env sc_edit) failing) = Ok tt
      /\ fs (snd (@cleanup (demo_env sc_edit) failing)) !! "/tmp/makes-a"
         = None).
Proof.
  cbv zeta. split; [vm_compute; reflexivity|].
  split; [vm_compute; reflexivity|].
  split; [vm_compute; discriminate|].
  repeat split; vm_compute; reflexivity.
Qed.

(** * The orchestrator (C2, C3, C5, C8) *)

Section Orchestrator.
Context {E : Env}.

Lemma _run_run args cwd capture_io w :
  _run args cwd capture_io w
  = (Ok (returncode (proc w (mkCall args cwd capture_io)),
         proc_stdout (proc w (mkCall args cwd capture_io)),
         proc_stderr (proc w (mkCall args cwd capture_io))),
     add_event (EvRun (mkCall args cwd capture_io))
       (set_clock (clock_after (proc w (mkCall args cwd capture_io)))
          (set_fs (fs_after (proc w (mkCall args cwd capture_io))) w))).
Proof. reflexivity. Qed.

Lemma cli_reaches_build argv0 src attr rest w head cache build_args w3 :
  reaches_build src attr w head cache build_args w3 ->
  cli (argv0 :: src :: attr :: rest) w
  = after_build cache rest (out_link attr) build_args w3.
Proof.
  intros (w1 & attrs & w2 & w2' & Hhead & Hattrs & Hin & Hcache & Hbuild).
  unfold cli. rewrite (bind_ok _ _ _ _ _ (_log_run _ _)).
  rewrite (bind_ok _ _ _ _ _ (_log_run _ _)).
  cbn [drop]. rewrite bool_decide_eq_false_2 by discriminate.
  unfold when at 1. rewrite (bind_ok _ _ _ tt _ eq_refl).
  rewrite bool_decide_eq_false_2 by discriminate.
  unfold when at 1. rewrite (bind_ok _ _ _ tt _ eq_refl).
  change (add_event _ (add_event _ w)) with (banner w).
  rewrite (bind_ok _ _ _ _ _ Hhead), (bind_ok _ _ _ _ _ Hattrs).
  rewrite bool_decide_eq_true_2 by assumption.
  unfold when at 1. cbn [negb]. rewrite (bind_ok _ _ _ tt _ eq_refl).
  rewrite (bind_ok _ _ _ _ _ Hcache).
  fold (out_link attr). fold (build_attr attr head).
  rewrite (bind_ok _ _ _ _ _ Hbuild). reflexivity.
Qed.

Lemma main_system_exit argv w code w' :
  cli argv w = (Raise (SystemExit code), w') ->
  main argv w = (Raise (SystemExit code), w').
Proof. unfold main. now intros ->. Qed.

Lemma after_build_failure cache args out build_args w3 :
  returncode (proc w3 (build_call build_args)) <> 0%Z ->
  exists w4,
    after_build cache args out build_args w3
    = (Raise (SystemExit (returncode (proc w3 (build_call build_args)))), w4)
    /\ events w4 = events w3 ++ [EvRun (build_call build_args)]
    /\ ON_EXIT w4 = ON_EXIT w3.
Proof.
  intros Hcode. unfold after_build.
  rewrite (bind_ok _ _ _ _ _ (_run_run _ _ _ _)).
  fold (build_call build_args).
  apply Z.eqb_neq in Hcode. rewrite Hcode. unfold when.
  rewrite (bind_ok _ _ _ tt _ eq_refl).
  eexists. repeat split; reflexivity.
Qed.

(** C2.  When the build of the requested output exits with a nonzero code
    N, the process exits with N, and between the start of the build and the
    cleanup at exit nothing happens but the build itself: no cache push, no
    action script, no message. *)
Theorem failed_build_exit_code argv0 src attr rest w head cache build_args
    w3 N :
  reaches_build src attr w head cache build_args w3 ->
  returncode (proc w3 (build_call build_args)) = N ->
  N <> 0%Z -> (0 <= N < 256)%Z ->
  exists w' at_exit,
    __main__ (argv0 :: src :: attr :: rest) w = (N, w')
    /\ events w' = events w3 ++ EvRun (build_call build_args) :: at_exit
    /\ Forall is_rmtree_event at_exit.
Proof.
  intros Hreach HN Hnz Hbyte.
  pose proof (cli_reaches_build argv0 _ _ rest _ _ _ _ _ Hreach) as Hcli.
  destruct (after_build_failure cache rest (out_link attr) build_args w3)
    as (w4 & Hafter & Hev & Hon); [congruence|].
  rewrite Hafter, HN in Hcli. apply main_system_exit in Hcli.
  destruct (__main___status _ _ _ _ Hcli) as (w' & Hmain & Hev').
  exists w', (map action_event (ON_EXIT w4)). repeat split.
  - rewrite Hmain. cbn [exit_status]. now rewrite Z.mod_small.
  - rewrite Hev', Hev, <- app_assoc. reflexivity.
  - apply cleanup_events_are_rmtree.
Qed.

Lemma after_build_success cache args out build_args w3 w5 :
  returncode (proc w3 (build_call build_args)) = 0%Z ->
  cache_push cache out (snd (_run build_args None false w3)) = (Ok tt, w5) ->
  after_build cache args out build_args w3
  = (execute_action args out ;; raise (SystemExit 0)) w5.
Proof.
  intros Hcode Hpush. unfold after_build. unfold build_call in Hcode.
  rewrite (bind_ok _ _ _ _ _ (_run_run _ _ _ _)).
  rewrite Hcode. cbn [Z.eqb when].
  rewrite _run_run in Hpush. cbn [snd] in Hpush.
  unfold bind at 1. unfold bind at 1. rewrite Hpush.
  unfold bind. destruct (execute_action args out w5) as [[[]|e] w6];
    reflexivity.
Qed.

Lemma execute_action_runs args out w :
  (is_Some (fs w !! resolve (join out "makes-action.sh")) ->
   exists w',
     execute_action args out w
     = (Raise (SystemExit (returncode (proc w (action_call out args)))), w')
     /\ events w' = events w ++ [EvRun (action_call out args)]
     /\ ON_EXIT w' = ON_EXIT w)
  /\ (fs w !! resolve (join out "makes-action.sh") = None ->
      execute_action args out w = (Ok tt, w)).
Proof.
  unfold execute_action, bind, exists_. split; intros Hscript.
  - rewrite bool_decide_eq_true_2 by assumption. rewrite _run_run.
    eexists. repeat split; reflexivity.
  - rewrite bool_decide_eq_false_2; [reflexivity|].
    rewrite Hscript. intros [? ?]. discriminate.
Qed.

(** C3.  After a build that exits 0, an action script found in the output
    is run in the working directory of the orchestrator with the output
    path and then the forwarded arguments, and its exit code K is the exit
    code of the process; without an action script the process exits 0. *)
Theorem action_exit_code argv0 src attr rest w head cache build_args w3 w5 :
  reaches_build src attr w head cache build_args w3 ->
  returncode (proc w3 (build_call build_args)) = 0%Z ->
  cache_push cache (out_link attr) (snd (_run build_args None false w3))
  = (Ok tt, w5) ->
  (is_Some (fs w5 !! resolve (join (out_link attr) "makes-action.sh")) ->
   forall K,
     returncode (proc w5 (action_call (out_link attr) rest)) = K ->
     (0 <= K < 256)%Z ->
     exists w' at_exit,
       __main__ (argv0 :: src :: attr :: rest) w = (K, w')
       /\ events w'
          = events w5 ++ EvRun (action_call (out_link attr) rest) :: at_exit
       /\ Forall is_rmtree_event at_exit)
  /\ (fs w5 !! resolve (join (out_link attr) "makes-action.sh") = None ->
      exists w' at_exit,
        __main__ (argv0 :: src :: attr :: rest) w = (0%Z, w')
        /\ events w' = events w5 ++ at_exit
        /\ Forall is_rmtree_event at_exit).
Proof.
  intros Hreach Hcode Hpush.
  pose proof (cli_reaches_build argv0 _ _ rest _ _ _ _ _ Hreach) as Hcli.
  rewrite (after_build_success _ _ _ _ _ _ Hcode Hpush) in Hcli.
  destruct (execute_action_runs rest (out_link attr) w5) as [Hrun Hskip].
  split.
  - intros Hscript K HK Hbyte.
    destruct (Hrun Hscript) as (w6 & Hact & Hev & Hon).
    rewrite (bind_raise _ _ _ _ _ Hact), HK in Hcli.
    apply main_system_exit in Hcli.
    destruct (__main___status _ _ _ _ Hcli) as (w' & Hmain & Hev').
    exists w', (map action_event (ON_EXIT w6)). repeat split.
    + rewrite Hmain. cbn [exit_status]. now rewrite Z.mod_small.
    + rewrite Hev', Hev, <- app_assoc. reflexivity.
    + apply cleanup_events_are_rmtree.
  - intros Hnone. rewrite (bind_ok _ _ _ _ _ (Hskip Hnone)) in Hcli.
    apply main_system_exit in Hcli.
    destruct (__main___status _ _ _ _ Hcli) as (w' & Hmain & Hev').
    exists w', (map action_event (ON_EXIT w5)). repeat split; auto.
    apply cleanup_events_are_rmtree.
Qed.

Lemma getitem_found (d : gmap string string) key v w :
  d !! key = Some v -> getitem d key w = (Ok v, w).
Proof. unfold getitem. now intros ->. Qed.

Lemma cache_push_runs cache out w :
  Forall cache_record cache ->
  (push_configured cache
   /\ exists config name,
        config ∈ cache /\ config !! "type" = Some "cachix"
        /\ config !! "name" = Some name
        /\ exists w',
             cache_push cache out w = (Ok tt, w')
             /\ events w'
                = events w ++ [EvLog "Pushing to cache";
                               EvRun (push_call name out)]
             /\ ON_EXIT w' = ON_EXIT w)
  \/ (~ push_configured cache /\ cache_push cache out w = (Ok tt, w)).
Proof.
  induction 1 as [|config cache Hrec Hall IH].
  - right. split; [|reflexivity]. intros [(config & Hin & _) _].
    inversion Hin.
  - destruct Hrec as ([type Htype] & [name Hname] & _).
    cbn [cache_push]. rewrite (bind_ok _ _ _ _ _ (getitem_found _ _ _ _ Htype)).
    destruct (String.eqb type "cachix") eqn:Hcachix;
      [destruct (environ !! "CACHIX_AUTH_TOKEN") as [token|] eqn:Htoken|].
    + apply String.eqb_eq in Hcachix. subst type. left. split.
      * split; [exists config; split; [left|assumption] | eauto].
      * exists config, name. repeat split; [left|assumption..|].
        rewrite bool_decide_eq_true_2 by eauto. cbn [andb].
        rewrite (bind_ok _ _ _ _ _ (_log_run _ _)).
        rewrite (bind_ok _ _ _ _ _ (getitem_found _ _ _ _ Hname)).
        rewrite (bind_ok _ _ _ _ _ (_run_run _ _ _ _)).
        eexists. repeat split. cbn [events add_event set_clock set_fs].
        rewrite <- app_assoc. reflexivity.
    + right. split.
      * intros [_ [? ?]]. congruence.
      * rewrite bool_decide_eq_false_2 by (intros [? ?]; congruence).
        rewrite andb_false_r.
        destruct IH as [[[_ [? ?]] _] | [_ Hskip]]; [congruence|exact Hskip].
    + cbn [andb]. apply String.eqb_neq in Hcachix.
      destruct IH as [(Hconf & c & n & Hin & Ht & Hn & Hrun) | [Hno Hskip]].
      * left. split.
        -- destruct Hconf as [(c' & Hin' & Ht') Htok].
           split; [exists c'; split; [right|]; assumption | assumption].
        -- exists c, n. repeat split; [right|..]; assumption.
      * right. split; [|exact Hskip].
        intros [(c' & Hin' & Ht') Htok]. apply Hno. split; [|assumption].
        exists c'. split; [|assumption].
        inversion Hin'; subst; [congruence|assumption].
Qed.

(** C8.  After a successful build, a cache push is attempted exactly when
    the cache configuration has a Cachix entry and the token is in the
    environment; otherwise nothing is run and nothing is printed; in both
    cases the push step returns normally, whatever the push client's exit
    code, and the exit status of the process is the one the remaining steps
    (the action script, or 0) produce. *)
Theorem cache_push_when_configured argv0 src attr rest w head cache
    build_args w3 :
  reaches_build src attr w head cache build_args w3 ->
  returncode (proc w3 (build_call build_args)) = 0%Z ->
  Forall cache_record cache ->
  let out := out_link attr in
  let w4 := snd (_run build_args None false w3) in
  exists w5,
    cache_push cache out w4 = (Ok tt, w5)
    /\ ((exists name,
           events w5 = events w4 ++ [EvLog "Pushing to cache";
                                     EvRun (push_call name out)])
        <-> push_configured cache)
    /\ (push_configured cache ->
        exists config name,
          config ∈ cache /\ config !! "type" = Some "cachix"
          /\ config !! "name" = Some name
          /\ events w5 = events w4 ++ [EvLog "Pushing to cache";
                                       EvRun (push_call name out)])
    /\ (~ push_configured cache -> w5 = w4)
    /\ exists w',
         __main__ (argv0 :: src :: attr :: rest) w
         = (exit_status
              (fst ((execute_action rest out ;; raise (SystemExit 0)) w5)),
            w').
Proof.
  intros Hreach Hcode Hrecords out w4.
  assert (Hexit : forall w5, cache_push cache out w4 = (Ok tt, w5) ->
            exists w',
              __main__ (argv0 :: src :: attr :: rest) w
              = (exit_status
                   (fst ((execute_action rest out ;; raise (SystemExit 0)) w5)),
                 w')).
  { intros w5 Hpush.
    pose proof (cli_reaches_build argv0 _ _ rest _ _ _ _ _ Hreach) as Hcli.
    rewrite (after_build_success _ _ _ _ _ _ Hcode Hpush) in Hcli.
    fold out in Hcli.
    destruct ((execute_action rest out ;; raise (SystemExit 0)) w5)
      as [r w6] eqn:Hrest.
    assert (Hmain : main (argv0 :: src :: attr :: rest) w = (r, w6)).
    { unfold main. rewrite Hcli.
      destruct (execute_action_runs rest out w5) as [Hrun Hskip].
      destruct (fs w5 !! resolve (join out "makes-action.sh")) eqn:Hscript.
      - destruct (Hrun ltac:(eauto)) as (w7 & Hact & _).
        rewrite (bind_raise _ _ _ _ _ Hact) in Hrest.
        now injection Hrest as <- <-.
      - rewrite (bind_ok _ _ _ _ _ (Hskip eq_refl)) in Hrest.
        now injection Hrest as <- <-. }
    destruct (__main___status _ _ _ _ Hmain) as (w' & Hstatus & _).
    exists w'. exact Hstatus. }
  destruct (cache_push_runs cache out w4 Hrecords)
    as [(Hconf & config & name & Hin & Htype & Hname & w5 & Hpush & Hev & _)
       | [Hno Hskip]].
  - exists w5. split; [exact Hpush|]. split; [|split; [|split]].
    + split; [auto|]. intros _. eauto.
    + intros _. exists config, name. auto.
    + intros Hno. contradiction.
    + apply Hexit, Hpush.
  - exists w4. split; [exact Hskip|]. split; [|split; [|split]].
    + split; [|contradiction]. intros [name Hev].
      apply (f_equal length) in Hev. rewrite length_app in Hev.
      cbn in Hev. lia.
    + contradiction.
    + reflexivity.
    + apply Hexit, Hskip.
Qed.

Lemma listing_run attrs w :
  exists w',
    for_each attrs
      (fun attr => when (negb (hidden_attr attr)) (_log ["  " +:+ attr])) w
    = (Ok tt, w')
    /\ events w'
       = events w
         ++ map (fun name => EvLog ("  " +:+ name))
              (List.filter (fun name => negb (hidden_attr name)) attrs)
    /\ ON_EXIT w' = ON_EXIT w.
Proof.
  revert w. induction attrs as [|attr attrs IH]; intros w.
  - exists w. cbn. rewrite app_nil_r. auto.
  - cbn [for_each List.filter]. destruct (hidden_attr attr); cbn [negb when].
    + rewrite (bind_ok _ _ _ tt _ eq_refl). apply IH.
    + rewrite (bind_ok _ _ _ _ _ (_log_run _ _)).
      destruct (IH (add_event (EvLog (str_join " " ["  " +:+ attr])) w))
        as (w' & Hrun & Hev & Hon).
      exists w'. repeat split; [exact Hrun| |exact Hon].
      rewrite Hev. cbn [events add_event map str_join].
      rewrite <- app_assoc. reflexivity.
Qed.

Lemma _help_and_exit_listing src attrs w :
  exists w' before,
    _help_and_exit (Some src) (Some attrs) None w = (Raise (SystemExit 1), w')
    /\ events w'
       = events w ++ before
         ++ EvLog "[OUTPUT] can be:"
            :: map (fun name => EvLog ("  " +:+ name))
                 (List.filter (fun name => negb (hidden_attr name)) attrs)
         ++ [EvLog ""; EvLog "[ARGS] are passed to the output (if supported)."]
    /\ ON_EXIT w' = ON_EXIT w.
Proof.
  unfold _help_and_exit. cbn [default].
  rewrite (bind_ok _ _ _ _ _ (_log_run _ _)).
  assert (Hsource : exists w1 lines,
    (if truthy src
     then _log [] ;; _log ["[SOURCE] is currently: " +:+ src]
     else
       _log [] ;; _log ["[SOURCE] can be:"] ;; _log [] ;;
       _log ["  A Git repository in the current working directory:"] ;;
       _log ["    $ m ."] ;; _log [] ;;
       _log ["  A GitHub repository and revision (branch, commit or tag):"] ;;
       _log ["    $ m github:owner/repo@rev"] ;; _log [] ;;
       _log ["  A GitLab repository and revision (branch, commit or tag):"] ;;
       _log ["    $ m gitlab:owner/repo@rev"])
      (add_event (EvLog (str_join " " ["Usage: m [SOURCE] [OUTPUT] [ARGS]..."]))
         w)
    = (Ok tt, w1)
    /\ events w1 = events w ++ lines /\ ON_EXIT w1 = ON_EXIT w).
  { destruct (truthy src); eexists _, _; (split; [reflexivity|]);
      cbn [events ON_EXIT add_event]; repeat rewrite <- app_assoc;
      split; reflexivity. }
  destruct Hsource as (w1 & lines & Hsrc & Hev1 & Hon1).
  rewrite (bind_ok _ _ _ _ _ Hsrc).
  destruct (listing_run attrs
              (add_event (EvLog "[OUTPUT] can be:")
                 (add_event (EvLog "") w1)))
    as (w2 & Hlist & Hev2 & Hon2).
  exists (add_event (EvLog "[ARGS] are passed to the output (if supported).")
            (add_event (EvLog "") w2)), (lines ++ [EvLog ""]).
  split; [|split].
  - rewrite !bind_assoc. step_log. step_log.
    cbn [str_join]. rewrite ?bind_assoc. rewrite (bind_ok _ _ _ _ _ Hlist).
    step_log. step_log. reflexivity.
  - cbn [events add_event]. rewrite Hev2. cbn [events add_event].
    rewrite Hev1. repeat rewrite <- app_assoc. reflexivity.
  - cbn [ON_EXIT add_event]. rewrite Hon2. cbn [ON_EXIT add_event].
    exact Hon1.
Qed.

(** C5, amended.  When the requested output is not in the manifest the
    process exits 1, and the help lists, after the line "[OUTPUT] can be:",
    every name of the manifest in order except the two names that the help
    never shows, [__all__] and [/secretsForAwsFromEnv/__default__]. *)
Theorem unknown_output_lists_manifest argv0 src attr rest w head w1 attrs w2 :
  _get_head src (banner w) = (Ok head, w1) ->
  _get_attrs src head w1 = (Ok attrs, w2) ->
  attr ∉ attrs ->
  exists w' before at_exit,
    __main__ (argv0 :: src :: attr :: rest) w = (1%Z, w')
    /\ events w'
       = events w2 ++ before
         ++ EvLog "[OUTPUT] can be:"
            :: map (fun name => EvLog ("  " +:+ name))
                 (List.filter (fun name => negb (hidden_attr name)) attrs)
         ++ EvLog "" :: EvLog "[ARGS] are passed to the output (if supported)."
            :: at_exit
    /\ Forall is_rmtree_event at_exit
    /\ (forall name, name ∈ attrs -> hidden_attr name = false ->
        logged ("  " +:+ name) w' = true).
Proof.
  intros Hhead Hattrs Hnotin.
  destruct (_help_and_exit_listing src attrs w2)
    as (w3 & before & Hhelp & Hev & Hon).
  assert (Hcli : cli (argv0 :: src :: attr :: rest) w
                 = (Raise (SystemExit 1), w3)).
  { unfold cli. rewrite (bind_ok _ _ _ _ _ (_log_run _ _)).
    rewrite (bind_ok _ _ _ _ _ (_log_run _ _)).
    cbn [drop]. rewrite bool_decide_eq_false_2 by discriminate.
    unfold when at 1. rewrite (bind_ok _ _ _ tt _ eq_refl).
    rewrite bool_decide_eq_false_2 by discriminate.
    unfold when at 1. rewrite (bind_ok _ _ _ tt _ eq_refl).
    change (add_event _ (add_event _ w)) with (banner w).
    rewrite (bind_ok _ _ _ _ _ Hhead), (bind_ok _ _ _ _ _ Hattrs).
    rewrite bool_decide_eq_false_2 by assumption.
    unfold when at 1. cbn [negb]. now rewrite (bind_raise _ _ _ _ _ Hhelp). }
  apply main_system_exit in Hcli.
  destruct (__main___status _ _ _ _ Hcli) as (w' & Hmain & Hev').
  exists w', before, (map action_event (ON_EXIT w3)).
  assert (Hevents : events w'
       = events w2 ++ before
         ++ EvLog "[OUTPUT] can be:"
            :: map (fun name => EvLog ("  " +:+ name))
                 (List.filter (fun name => negb (hidden_attr name)) attrs)
         ++ EvLog "" :: EvLog "[ARGS] are passed to the output (if supported)."
            :: map action_event (ON_EXIT w3)).
  { rewrite Hev', Hev. repeat rewrite <- app_assoc. cbn.
    repeat rewrite <- app_assoc. reflexivity. }
  repeat split; [exact Hmain|exact Hevents|apply cleanup_events_are_rmtree|].
  intros name Hin Hshown. unfold logged. apply existsb_exists.
  exists (EvLog ("  " +:+ name)). split; [|apply String.eqb_refl].
  rewrite Hevents. apply in_or_app. right. apply in_or_app. right. right.
  apply in_or_app. left.
  apply (in_map (fun name => EvLog ("  " +:+ name))).
  apply filter_In. split; [now apply list_elem_of_In|].
  now rewrite Hshown.
Qed.

End Orchestrator.

Lemma run_fst {A} (x : result A * World) (a : A) :
  fst x = Ok a -> x = (Ok a, snd x).
Proof. destruct x as [r w]. simpl. now intros ->. Qed.

(** Solves [m w = (Ok ?a, ?w')] on a concrete world: the value is computed,
    the world stays the expression [snd (m w)]. *)
Ltac run_concrete :=
  eapply run_fst;
  lazymatch goal with
  | |- ?lhs = ?rhs =>
      tryif has_evar rhs then
        let v := eval vm_compute in lhs in
        transitivity v; [vm_compute; reflexivity | reflexivity]
      else (vm_compute; reflexivity)
  end.

Ltac demo_reaches_build :=
  unfold reaches_build; do 4 eexists;
  split; [run_concrete|];
  split; [run_concrete|];
  split; [vm_compute; repeat constructor|];
  split; run_concrete.

Lemma failed_build_exit_code_witness :
  exists w' w3 build_args at_exit,
    @__main__ (demo_env sc_fail) ["m"; "."; "/hello"; "--x"] w_edit = (7%Z, w')
    /\ events w' = events w3 ++ EvRun (build_call build_args) :: at_exit
    /\ Forall is_rmtree_event at_exit.
Proof.
  assert (Hreach : exists head cache build_args w3,
            @reaches_build (demo_env sc_fail) "." "/hello" w_edit head cache
              build_args w3
            /\ returncode (demo_proc sc_fail w3 (build_call build_args)) = 7%Z).
  { do 4 eexists. split; [demo_reaches_build|]. vm_compute. reflexivity. }
  destruct Hreach as (head & cache & build_args & w3 & Hreach & Hcode).
  destruct (@failed_build_exit_code (demo_env sc_fail) "m" "." "/hello"
              ["--x"] w_edit head cache build_args w3 7%Z Hreach Hcode)
    as (w' & at_exit & Hmain & Hev & Hrm); [discriminate|lia|].
  exists w', w3, build_args, at_exit. auto.
Defined.

Lemma action_exit_code_witness :
  (exists w' w5 at_exit,
     @__main__ (demo_env sc_edit) ["m"; "."; "/hello"; "--x"] w_edit
     = (3%Z, w')
     /\ events w'
        = events w5
          ++ EvRun (mkCall ["/tmp/out/result-hello/makes-action.sh";
                            "/tmp/out/result-hello"; "--x"] (Some "/w") false)
             :: at_exit
     /\ Forall is_rmtree_event at_exit)
  /\ (exists w',
        @__main__ (demo_env sc_plain) ["m"; "."; "/hello"; "--x"] w_edit
        = (0%Z, w')).
Proof.
  split.
  - edestruct (@action_exit_code (demo_env sc_edit) "m" "." "/hello" ["--x"]
                 w_edit) as [Hscript _];
      [demo_reaches_build | vm_compute; reflexivity | run_concrete |].
    edestruct Hscript as (w' & at_exit & Hmain & Hev & Hrm);
      [vm_compute; eexists; reflexivity | vm_compute; reflexivity | lia |].
    exists w'. eexists. exists at_exit. repeat split; [exact Hmain| |exact Hrm].
    exact Hev.
  - edestruct (@action_exit_code (demo_env sc_plain) "m" "." "/hello" ["--x"]
                 w_edit) as [_ Hplain];
      [demo_reaches_build | vm_compute; reflexivity | run_concrete |].
    edestruct Hplain as (w' & at_exit & Hmain & _);
      [vm_compute; reflexivity|].
    exists w'. exact Hmain.
Defined.

Lemma cache_push_when_configured_witness :
  exists w4 w5 name,
    events w5 = events w4 ++ [EvLog "Pushing to cache";
                              EvRun (mkCall ["cachix"; "push"; "-c"; "0"; name;
                                             "/tmp/out/result-hello"]
                                       None false)].
Proof.
  edestruct (@cache_push_when_configured (demo_env sc_push) "m" "." "/hello"
               ["--x"] w_edit "/tmp/makes-a" [cachix_config])
    as (w5 & _ & Hiff & _);
    [demo_reaches_build | vm_compute; reflexivity
    | constructor; [|constructor];
      split; [|split; [|split]]; vm_compute; eexists; reflexivity |].
  destruct Hiff as [_ Hpushed]. destruct Hpushed as [name Hev].
  { split; [|vm_compute; eexists; reflexivity].
    exists cachix_config. split; [left|vm_compute; reflexivity]. }
  eexists _, w5, name. exact Hev.
Defined.

Lemma unknown_output_lists_manifest_witness :
  exists w',
    @__main__ (demo_env sc_edit) ["m"; "."; "/nope"; "--x"] w_edit = (1%Z, w')
    /\ logged "  /hello" w' = true.
Proof.
  edestruct (@unknown_output_lists_manifest (demo_env sc_edit) "m" "." "/nope"
               ["--x"] w_edit)
    as (w' & before & at_exit & Hmain & _ & _ & Hlogged);
    [run_concrete | run_concrete
    | vm_compute; intros Hin; repeat (inversion Hin as [|? ? ? Hin']; subst;
                                       clear Hin; rename Hin' into Hin) |].
  exists w'. split; [exact Hmain|].
  apply (Hlogged "/hello"); [right; left|reflexivity].
Defined.

(** C5 as stated fails: the manifest of the demo project lists [__all__],
    which the help leaves out. *)
Lemma help_hides_names :
  let run := @__main__ (demo_env sc_edit) ["m"; "."; "/nope"; "--x"] w_edit in
  fst (@_get_attrs (demo_env sc_edit) "." "/tmp/makes-a"
         (snd (@_get_head (demo_env sc_edit) "."
                 (@banner (demo_env sc_edit) w_edit))))
  = Ok ["__all__"; "/hello"]
  /\ fst run = 1%Z
  /\ logged "  /hello" (snd run) = true
  /\ logged "  __all__" (snd run) = false.
Proof. cbv zeta. repeat split; vm_compute; reflexivity. Qed.

(** * The checkout of a local source (C1, C10) *)

Section Overlay.
Context {E : Env}.

Lemma dirs_added_refl keys f : dirs_added keys f f.
Proof. intros k. now left. Qed.

Lemma dirs_added_weaken keys keys' f f' :
  (forall k, k ∈ keys -> k ∈ keys') ->
  dirs_added keys f f' -> dirs_added keys' f f'.
Proof.
  intros Hsub H k. destruct (H k) as [? | (? & ? & ?)]; [now left|].
  right. auto.
Qed.

Lemma dirs_added_trans keys f f1 f2 :
  dirs_added keys f f1 -> dirs_added keys f1 f2 -> dirs_added keys f f2.
Proof.
  intros H1 H2 k.
  destruct (H2 k) as [Heq | (Hnone & Hdir & Hin)];
    destruct (H1 k) as [Heq' | (Hnone' & Hdir' & Hin')].
  - left. congruence.
  - right. rewrite Heq. auto.
  - right. repeat split; auto. congruence.
  - rewrite Hnone in Hdir'. discriminate.
Qed.

Lemma dirs_added_file keys f f' k :
  dirs_added keys f f' -> content_of (f' !! k) = content_of (f !! k).
Proof.
  intros H. destruct (H k) as [-> | (-> & Hdir & _)]; [reflexivity|].
  destruct (f' !! k) as [[]|]; [discriminate|reflexivity..].
Qed.

Lemma mkdir_frame name w r w' :
  mkdir name w = (r, w') ->
  dirs_added [resolve name] (fs w) (fs w') /\ os_outcome r.
Proof.
  unfold mkdir. destruct (fs w !! resolve name) as [n|] eqn:Hn.
  - intros [= <- <-]. split; [apply dirs_added_refl|exact I].
  - destruct (parent_error (fs w) name) as [err|].
    + intros [= <- <-]. split; [apply dirs_added_refl|exact I].
    + intros [= <- <-]. split; [|exact I]. intros k. cbn [fs set_fs].
      destruct (decide (k = resolve name)) as [->|Hk].
      * right. rewrite lookup_insert_eq. repeat split; auto. now left.
      * left. now rewrite lookup_insert_ne.
Qed.

Lemma makedirs_go_frame fuel : forall name w r w',
  makedirs_go fuel name w = (r, w') ->
  dirs_added (made_by_makedirs fuel name) (fs w) (fs w') /\ os_outcome r.
Proof.
  induction fuel as [|fuel IH]; intros name w r w' Hrun;
    cbn [makedirs_go made_by_makedirs] in *;
    destruct (makedirs_split name) as [head tail] eqn:Hsplit; cbn [fst].
  - apply mkdir_frame in Hrun as [Hadd Hos]. split; [|exact Hos].
    exact Hadd.
  - unfold bind at 1, exists_ in Hrun.
    destruct (truthy head && truthy tail
              && negb (bool_decide (is_Some (fs w !! resolve head)))).
    + unfold bind at 1 in Hrun.
      destruct (makedirs_go fuel head w) as [r1 w1] eqn:Hrec.
      apply IH in Hrec as [Hadd1 Hos1].
      assert (Hadd1' : dirs_added (resolve name :: made_by_makedirs fuel head)
                         (fs w) (fs w1)).
      { eapply dirs_added_weaken; [|exact Hadd1]. intros k ?. now right. }
      assert (Hleaf : forall r2 w2,
                (if String.eqb tail "." then ret tt else mkdir name) w1
                = (r2, w2) ->
                dirs_added (resolve name :: made_by_makedirs fuel head)
                  (fs w) (fs w2) /\ os_outcome r2).
      { intros r2 w2 Hleaf. destruct (String.eqb tail ".").
        - injection Hleaf as <- <-. split; [exact Hadd1'|exact I].
        - apply mkdir_frame in Hleaf as [Hadd2 Hos2]. split; [|exact Hos2].
          eapply dirs_added_trans; [exact Hadd1'|].
          eapply dirs_added_weaken; [|exact Hadd2].
          intros k Hk. apply list_elem_of_singleton in Hk as ->. now left. }
      destruct r1 as [[]|[| |[]| | |]]; try (injection Hrun as <- <-; auto);
        try (exfalso; exact Hos1); try (apply Hleaf; exact Hrun).
    + apply mkdir_frame in Hrun as [Hadd Hos]. split; [|exact Hos].
      eapply dirs_added_weaken; [|exact Hadd].
      intros k Hk. apply list_elem_of_singleton in Hk as ->. now left.
Qed.

(** One turn of the loop: the parent directories are made where they are
    missing, then the file is copied from the working directory, or removed
    from the checkout when the working directory does not have it. *)
Lemma copy_path_step src head path w r w' :
  copy_path_to_head src head path w = (r, w') ->
  os_outcome r
  /\ exists f1,
       dirs_added (parent_dirs (join head path)) (fs w) f1
       /\ (r = Ok tt ->
           (exists content t,
              f1 !! src_key src path = Some (File content t)
              /\ exists t',
                   fs w'
                   = <[(if is_dir_node (f1 !! dest_key head path)
                        then redirect_key src head path
                        else dest_key head path) := File content t']> f1)
           \/ (f1 !! src_key src path = None
               /\ is_file f1 (dest_key head path)
               /\ fs w' = delete (dest_key head path) f1)).
Proof.
  unfold copy_path_to_head. intros Hrun.
  unfold bind at 1, exists_ in Hrun.
  assert (Hdirs : exists r1 w1,
            when (negb (bool_decide
                          (is_Some (fs w !! resolve (dirname (join head path))))))
              (makedirs (dirname (join head path))) w = (r1, w1)
            /\ dirs_added (parent_dirs (join head path)) (fs w) (fs w1)
            /\ os_outcome r1).
  { destruct (bool_decide _); cbn [negb when].
    - exists (Ok tt), w. repeat split. apply dirs_added_refl.
    - destruct (makedirs (dirname (join head path)) w) as [r1 w1] eqn:Hmk.
      exists r1, w1. split; [reflexivity|].
      unfold makedirs in Hmk. now apply makedirs_go_frame in Hmk. }
  destruct Hdirs as (r1 & w1 & Hmk & Hadd & Hos1).
  unfold bind at 1 in Hrun. rewrite Hmk in Hrun.
  destruct r1 as [[]|e1].
  2:{ injection Hrun as <- <-. split; [exact Hos1|].
      exists (fs w1). split; [exact Hadd|]. discriminate. }
  unfold bind, exists_ in Hrun.
  fold (src_key src path) in Hrun.
  destruct (fs w1 !! src_key src path) as [n|] eqn:Hsrc.
  - rewrite bool_decide_eq_true_2 in Hrun by eauto.
    unfold shutil_copy in Hrun. fold (src_key src path) in Hrun.
    fold (dest_key head path) in Hrun. rewrite Hsrc in Hrun.
    destruct n as [content t|t].
    2:{ injection Hrun as <- <-. split; [exact I|].
        exists (fs w1). split; [exact Hadd|]. discriminate. }
    set (dst := if is_dir_node (fs w1 !! dest_key head path)
                then join (join head path) (basename (join src path))
                else join head path) in Hrun.
    assert (Hdst : resolve dst
                   = if is_dir_node (fs w1 !! dest_key head path)
                     then redirect_key src head path
                     else dest_key head path).
    { unfold dst. now destruct (is_dir_node _). }
    destruct (fs w1 !! resolve dst) as [[c0 t0|t0]|] eqn:Hdest.
    + injection Hrun as <- <-. split; [exact I|].
      exists (fs w1). split; [exact Hadd|]. intros _. left.
      exists content, t. split; [exact Hsrc|]. exists (clock w1).
      cbn [fs set_fs]. now rewrite Hdst.
    + injection Hrun as <- <-. split; [exact I|].
      exists (fs w1). split; [exact Hadd|]. discriminate.
    + destruct (parent_error (fs w1) dst) as [err|].
      * injection Hrun as <- <-. split; [exact I|].
        exists (fs w1). split; [exact Hadd|]. discriminate.
      * injection Hrun as <- <-. split; [exact I|].
        exists (fs w1). split; [exact Hadd|]. intros _. left.
        exists content, t. split; [exact Hsrc|]. exists (clock w1).
        cbn [fs set_fs]. now rewrite Hdst.
  - rewrite bool_decide_eq_false_2 in Hrun
      by (intros [? ?]; discriminate).
    unfold remove in Hrun. fold (dest_key head path) in Hrun.
    destruct (fs w1 !! dest_key head path) as [[c0 t0|t0]|] eqn:Hdest.
    + injection Hrun as <- <-. split; [exact I|].
      exists (fs w1). split; [exact Hadd|]. intros _. right.
      repeat split; auto. unfold is_file. rewrite Hdest. discriminate.
    + injection Hrun as <- <-. split; [exact I|].
      exists (fs w1). split; [exact Hadd|]. discriminate.
    + injection Hrun as <- <-. split; [exact I|].
      exists (fs w1). split; [exact Hadd|]. discriminate.
Qed.

Lemma is_file_insert (f : gmap string node) target content t k :
  is_file (<[target := File content t]> f) k -> k = target \/ is_file f k.
Proof.
  unfold is_file. destruct (decide (k = target)) as [->|Hk]; [now left|].
  rewrite lookup_insert_ne by congruence. now right.
Qed.

Lemma is_file_delete (f : gmap string node) target k :
  is_file (delete target f) k -> is_file f k.
Proof.
  unfold is_file. destruct (decide (k = target)) as [->|Hk].
  - rewrite lookup_delete_eq. intros H. now contradiction H.
  - now rewrite lookup_delete_ne by congruence.
Qed.

Lemma is_file_dirs_added keys f f' k :
  dirs_added keys f f' -> is_file f' k -> is_file f k.
Proof. unfold is_file. intros H. now rewrite (dirs_added_file _ _ _ _ H). Qed.

(** A turn that ends normally keeps the files within the targets. *)
Lemma copy_path_step_files f0 src head done path w w' :
  files_within f0 (copy_targets src head done) (fs w) ->
  copy_path_to_head src head path w = (Ok tt, w') ->
  files_within f0 (copy_targets src head (path :: done)) (fs w').
Proof.
  intros Hinv Hrun.
  apply copy_path_step in Hrun as (_ & f1 & Hadd & Hok).
  assert (Hf1 : forall k, is_file f1 k ->
                is_file f0 k \/ k ∈ copy_targets src head (path :: done)).
  { intros k Hk. apply (is_file_dirs_added _ _ _ _ Hadd) in Hk.
    destruct (Hinv k Hk) as [? | Hin]; [now left|]. right.
    cbn [copy_targets flat_map]. apply elem_of_app. now right. }
  destruct (Hok eq_refl)
    as [(content & t & _ & t' & ->) | (_ & _ & ->)]; intros k Hk.
  - apply is_file_insert in Hk as [-> | Hk]; [|auto].
    right. cbn [copy_targets flat_map]. apply elem_of_app. left.
    destruct (is_dir_node _); [right; left | left].
  - apply is_file_delete in Hk. auto.
Qed.

Lemma elem_of_copy_targets src head done k :
  k ∈ copy_targets src head done ->
  exists q, q ∈ done /\ (k = dest_key head q \/ k = redirect_key src head q).
Proof.
  unfold copy_targets. intros (q & Hq & Hk)%list_elem_of_In%in_flat_map.
  exists q. split; [now apply list_elem_of_In|].
  destruct Hk as [<- | [<- | []]]; auto.
Qed.

(** The loop cannot get past a path that is a file neither in the working
    directory nor in the checkout. *)
Lemma overlay_loop_raises f0 src head p :
  ~ is_file f0 (dest_key head p) -> ~ is_file f0 (src_key src p) ->
  forall l done w,
    files_within f0 (copy_targets src head done) (fs w) ->
    p ∈ l ->
    (forall q, q ∈ done -> q <> p) ->
    (forall q, q ∈ done \/ q ∈ l -> q <> p ->
       dest_key head q <> dest_key head p
       /\ redirect_key src head q <> dest_key head p
       /\ dest_key head q <> src_key src p
       /\ redirect_key src head q <> src_key src p) ->
    exists kind path w',
      for_each l (copy_path_to_head src head) w
      = (Raise (OSError kind path), w').
Proof.
  intros Hdest Hsrc. induction l as [|q l IH]; intros done w Hinv Hin Hdone Hapart.
  - inversion Hin.
  - cbn [for_each]. unfold bind.
    destruct (copy_path_to_head src head q w) as [r w1] eqn:Hstep.
    destruct r as [[]|e].
    2:{ apply copy_path_step in Hstep as (Hos & _).
        destruct e; try contradiction. eauto. }
    destruct (decide (q = p)) as [->|Hqp].
    + exfalso. apply copy_path_step in Hstep as (_ & f1 & Hadd & Hok).
      assert (Hnot : forall k, (k = dest_key head p \/ k = src_key src p) ->
                     ~ is_file f1 k).
      { intros k Hk Hfile. apply (is_file_dirs_added _ _ _ _ Hadd) in Hfile.
        destruct (Hinv k Hfile) as [Hf0 | Htarget].
        - destruct Hk as [-> | ->]; contradiction.
        - apply elem_of_copy_targets in Htarget as (q & Hq & Hk').
          destruct (Hapart q (or_introl Hq) (Hdone q Hq)) as (? & ? & ? & ?).
          destruct Hk as [-> | ->], Hk' as [Hk' | Hk']; congruence. }
      destruct (Hok eq_refl) as [(content & t & Hfile & _) | (_ & Hfile & _)].
      * apply (Hnot (src_key src p)); [now right|].
        unfold is_file. rewrite Hfile. discriminate.
      * apply (Hnot (dest_key head p)); [now left|exact Hfile].
    + apply (IH (q :: done)).
      * eapply copy_path_step_files; eassumption.
      * apply elem_of_cons in Hin as [->|Hin]; [congruence|exact Hin].
      * intros q' [->|Hq']%elem_of_cons; auto.
      * intros q' [[->|Hq']%elem_of_cons | Hq'] Hne; apply Hapart; auto.
        -- right. now left.
        -- right. now right.
Qed.

Lemma _run_listing args w :
  _run args None true w
  = (Ok (returncode (proc w (mkCall args None true)),
         proc_stdout (proc w (mkCall args None true)),
         proc_stderr (proc w (mkCall args None true))),
     snd (_run args None true w)).
Proof. reflexivity. Qed.

(** [_get_head] on a local source, once the clone and the two listings
    went well: the loop over the listed paths, then the removal of the
    metadata. *)
Lemma _get_head_local src w head w1 :
  is_src_local src = true ->
  _clone_src src w = (Ok head, w1) ->
  listings_succeed src w1 ->
  _get_head src w
  = (for_each (listed_paths src w1) (copy_path_to_head src head) ;;
     rmtree (join head ".git") false ;;
     ret head) (after_listings src w1).
Proof.
  intros Hlocal Hclone [Hdiff Hls]. unfold _get_head.
  rewrite (bind_ok _ _ _ _ _ Hclone), Hlocal. cbn [when].
  rewrite !bind_assoc. rewrite (bind_ok _ _ _ _ _ (_run_listing _ _)).
  cbv beta iota. rewrite Hdiff. cbn [Z.eqb negb].
  rewrite !bind_assoc. fold (after_diff src w1).
  rewrite (bind_ok _ _ _ _ _ (_run_listing _ _)).
  cbv beta iota. rewrite Hls. cbn [Z.eqb negb].
  fold (after_listings src w1). reflexivity.
Qed.

Lemma listings_keep_files src w1 :
  listings_read_only src -> fs (after_listings src w1) = fs w1.
Proof.
  intros Hro. unfold after_listings, after_diff, _run. cbn [snd fs add_event
    set_clock set_fs].
  destruct (Hro (add_event (EvRun (mkCall (git_diff_cached src) None true))
                   (set_clock
                      (clock_after
                         (proc w1 (mkCall (git_diff_cached src) None true)))
                      (set_fs
                         (fs_after
                            (proc w1 (mkCall (git_diff_cached src) None true)))
                         w1)))) as [_ ->].
  cbn [fs add_event set_clock set_fs]. now destruct (Hro w1) as [-> _].
Qed.

Lemma not_copied_onto_spec src head paths p :
  not_copied_onto src head paths p = true ->
  forall q, q ∈ paths -> q <> p ->
    dest_key head q <> dest_key head p
    /\ redirect_key src head q <> dest_key head p
    /\ dest_key head q <> src_key src p
    /\ redirect_key src head q <> src_key src p.
Proof.
  unfold not_copied_onto. rewrite forallb_forall. intros Hall q Hq Hne.
  specialize (Hall q ltac:(now apply list_elem_of_In)).
  apply orb_true_iff in Hall as [Heq | Hall].
  - apply String.eqb_eq in Heq. contradiction.
  - repeat (apply andb_true_iff in Hall as [Hall ?]).
    repeat split; apply String.eqb_neq, negb_true_iff; assumption.
Qed.

(** C10.  In a local source, a listed path that exists neither in the
    working directory nor in the checked-out tree stops [_get_head]: its
    turn calls [remove] on a missing file, which raises [FileNotFoundError].
    The exception that leaves [_get_head] is an [OSError], not the [Error]
    of the pipeline: [main] neither catches nor reports it, and the process
    ends with a traceback and status 1. *)
Theorem deleted_unstaged_path_raises argv0 src attr rest w head w1 p :
  is_src_local src = true ->
  listings_read_only src ->
  _clone_src src (banner w) = (Ok head, w1) ->
  listings_succeed src w1 ->
  p ∈ listed_paths src w1 ->
  fs w1 !! src_key src p = None ->
  fs w1 !! dest_key head p = None ->
  not_copied_onto src head (listed_paths src w1) p = true ->
  (forall w0,
     is_Some (fs w0 !! resolve (dirname (join head p))) ->
     fs w0 !! src_key src p = None ->
     fs w0 !! dest_key head p = None ->
     copy_path_to_head src head p w0
     = (Raise (OSError FileNotFoundError (join head p)), w0))
  /\ exists kind path w2,
       _get_head src (banner w) = (Raise (OSError kind path), w2)
       /\ main (argv0 :: src :: attr :: rest) w
          = (Raise (OSError kind path), w2)
       /\ exists w',
            __main__ (argv0 :: src :: attr :: rest) w = (1%Z, w')
            /\ events w' = events w2 ++ map action_event (ON_EXIT w2).
Proof.
  intros Hlocal Hro Hclone Hlist Hin Hsrc Hdest Hapart. split.
  - intros w0 Hparent Hsrc0 Hdest0. unfold copy_path_to_head.
    unfold bind at 1, exists_. rewrite bool_decide_eq_true_2 by assumption.
    cbn [negb when]. rewrite (bind_ok _ _ _ tt _ eq_refl).
    unfold bind, exists_. fold (src_key src p). rewrite Hsrc0.
    rewrite bool_decide_eq_false_2 by (intros [? ?]; discriminate).
    unfold remove. fold (dest_key head p). now rewrite Hdest0.
  - pose proof (_get_head_local _ _ _ _ Hlocal Hclone Hlist) as Hhead.
    destruct (overlay_loop_raises (fs w1) src head p) with
      (l := listed_paths src w1) (done := @nil string)
      (w := after_listings src w1) as (kind & path & w2 & Hloop).
    + unfold is_file. rewrite Hdest. auto.
    + unfold is_file. rewrite Hsrc. auto.
    + rewrite (listings_keep_files _ _ Hro). intros k Hk. now left.
    + exact Hin.
    + intros q Hq. inversion Hq.
    + intros q [Hq | Hq] Hne; [inversion Hq|].
      now apply (not_copied_onto_spec _ _ _ _ Hapart).
    + rewrite (bind_raise _ _ _ _ _ Hloop) in Hhead.
      exists kind, path, w2. split; [exact Hhead|].
      assert (Hcli : cli (argv0 :: src :: attr :: rest) w
                     = (Raise (OSError kind path), w2)).
      { unfold cli. step_log. step_log.
        cbn [drop]. rewrite bool_decide_eq_false_2 by discriminate.
        unfold when at 1. rewrite (bind_ok _ _ _ tt _ eq_refl).
        rewrite bool_decide_eq_false_2 by discriminate.
        unfold when at 1. rewrite (bind_ok _ _ _ tt _ eq_refl).
        change (add_event _ (add_event _ w)) with (banner w).
        now rewrite (bind_raise _ _ _ _ _ Hhead). }
      assert (Hmain : main (argv0 :: src :: attr :: rest) w
                      = (Raise (OSError kind path), w2)).
      { unfold main. now rewrite Hcli. }
      split; [exact Hmain|].
      destruct (__main___status _ _ _ _ Hmain) as (w' & Hstatus & Hev).
      exists w'. auto.
Qed.










End Overlay.

Lemma demo_listings_read_only sc : @listings_read_only (demo_env sc) ".".
Proof. intros w. split; reflexivity. Qed.

Lemma deleted_unstaged_path_raises_witness :
  exists w',
    @__main__ (demo_env sc_staged_deleted) ["m"; "."; "/hello"]
      w_staged_deleted = (1%Z, w')
    /\ logged "[ERROR] Unable to list files: ." w' = false.
Proof.
  edestruct (@deleted_unstaged_path_raises (demo_env sc_staged_deleted) "m" "."
               "/hello" [] w_staged_deleted "/tmp/makes-a"
               (snd (@_clone_src (demo_env sc_staged_deleted) "."
                       (@banner (demo_env sc_staged_deleted)
                          w_staged_deleted)))
               "gone.txt")
    as (_ & kind & path & w2 & _ & _ & w' & Hmain & Hev);
    [ vm_compute; reflexivity
    | apply demo_listings_read_only
    | run_concrete
    | split; vm_compute; reflexivity
    | vm_compute; left
    | vm_compute; reflexivity
    | vm_compute; reflexivity
    | vm_compute; reflexivity
    | ].
  exists w'. split; [exact Hmain|].
  replace w' with (snd (@__main__ (demo_env sc_staged_deleted)
                          ["m"; "."; "/hello"] w_staged_deleted))
    by (now rewrite Hmain).
  vm_compute. reflexivity.
Defined.


(** C1.  The checkout is the committed tree with the listed paths overlaid
    when the listing is clean ([local_checkout_overlay]), but not for every
    local source.  Here the commit has the directory [a] with
    the file [a/x]; in the working directory [a] was replaced by a file and
    the change was staged, so the listing has [a] and [a/x].  At the turn of
    [a] the destination is a directory of the checkout, and [shutil.copy]
    puts the file inside it: the checkout that [_get_head] returns has the
    directory [a] holding a file [a/a], and no file [a]. *)
Theorem overlay_into_committed_directory :
  let run := @_get_head (demo_env sc_dir_to_file) "." w_dir_to_file in
  let w1 := snd (@_clone_src (demo_env sc_dir_to_file) "." w_dir_to_file) in
  fst run = Ok "/tmp/makes-a"
  /\ @listed_paths (demo_env sc_dir_to_file) "." w1 = ["a"; "a/x"]
  /\ content_of (fs w1 !! "/w/a") = Some "hi"
  /\ fs w1 !! "/w/a/x" = None
  /\ is_dir_node (fs w1 !! "/tmp/makes-a/a") = true
  /\ content_of (fs w1 !! "/tmp/makes-a/a/x") = Some "x"
  /\ is_dir_node (fs (snd run) !! "/tmp/makes-a/a") = true
  /\ content_of (fs (snd run) !! "/tmp/makes-a/a") = None
  /\ content_of (fs (snd run) !! "/tmp/makes-a/a/a") = Some "hi"
  /\ fs (snd run) !! "/tmp/makes-a/a/x" = None
  /\ @clean_overlay (demo_env sc_dir_to_file) (fs w1) "." "/tmp/makes-a"
       ["a"; "a/x"] = false.
Proof. cbv zeta. repeat split; vm_compute; reflexivity. Qed.

(** * What every step keeps

    The diagnostic stream and the list of cleanup actions are append-only,
    and each function lets only its own kinds of exception through. *)

Lemma extends_refl w : extends w w.
Proof. split; exists []; now rewrite app_nil_r. Qed.

Lemma extends_trans w1 w2 w3 :
  extends w1 w2 -> extends w2 w3 -> extends w1 w3.
Proof.
  intros [[e1 He1] [a1 Ha1]] [[e2 He2] [a2 Ha2]]. split.
  - exists (e1 ++ e2). rewrite He2, He1. now rewrite <- app_assoc.
  - exists (a1 ++ a2). rewrite Ha2, Ha1. now rewrite <- app_assoc.
Qed.

Lemma extends_same w w' :
  events w' = events w -> ON_EXIT w' = ON_EXIT w -> extends w w'.
Proof. intros He Ha. split; exists []; now rewrite app_nil_r. Qed.

Lemma extends_event e w w' :
  events w' = events w ++ [e] -> ON_EXIT w' = ON_EXIT w -> extends w w'.
Proof.
  intros He Ha. split; [now exists [e]|]. exists []. now rewrite app_nil_r.
Qed.

Create HintDb keeps.

Lemma keeps_ret {A} (P : exn -> Prop) (a : A) : keeps P (ret a).
Proof.
  intros w r w' H. injection H as <- <-. split; [apply extends_refl|].
  discriminate.
Qed.

Lemma keeps_raise {A} (P : exn -> Prop) e : P e -> keeps P (@raise A e).
Proof.
  intros HP w r w' H. injection H as <- <-. split; [apply extends_refl|].
  now intros e' [= <-].
Qed.

Lemma keeps_bind {A B} (P : exn -> Prop) (m : M A) (k : A -> M B) :
  keeps P m -> (forall a, keeps P (k a)) -> keeps P (bind m k).
Proof.
  intros Hm Hk w r w' H. unfold bind in H.
  destruct (m w) as [[a|e] w1] eqn:Hmw.
  - destruct (Hm _ _ _ Hmw) as [Hext _]. destruct (Hk a _ _ _ H) as [Hext' HP].
    split; [eapply extends_trans; eassumption | exact HP].
  - injection H as <- <-. destruct (Hm _ _ _ Hmw) as [Hext HP].
    split; [exact Hext|]. intros e' [= <-]. now apply HP.
Qed.

Lemma keeps_extends {A} (P : exn -> Prop) (m : M A) w r w' :
  keeps P m -> m w = (r, w') -> extends w w'.
Proof. intros Hm H. exact (proj1 (Hm _ _ _ H)). Qed.

Lemma keeps_weaken {A} (P Q : exn -> Prop) (m : M A) :
  (forall e, P e -> Q e) -> keeps P m -> keeps Q m.
Proof.
  intros HPQ Hm w r w' H. destruct (Hm _ _ _ H) as [Hext HP].
  split; [exact Hext|]. intros e He. apply HPQ, HP, He.
Qed.

Lemma keeps_when (P : exn -> Prop) c m : keeps P m -> keeps P (when c m).
Proof. intros Hm. destruct c; [exact Hm | apply keeps_ret]. Qed.

Lemma keeps_for_each {A} (P : exn -> Prop) (l : list A) body :
  (forall x, keeps P (body x)) -> keeps P (for_each l body).
Proof.
  intros Hbody. induction l as [|x l IH]; simpl; [apply keeps_ret|].
  apply keeps_bind; [apply Hbody | intros _; exact IH].
Qed.

Lemma keeps_map_m {A B} (P : exn -> Prop) (f : A -> M B) (l : list A) :
  (forall x, keeps P (f x)) -> keeps P (map_m f l).
Proof.
  intros Hf. induction l as [|x l IH]; simpl; [apply keeps_ret|].
  apply keeps_bind; [apply Hf | intros y].
  apply keeps_bind; [exact IH | intros ys; apply keeps_ret].
Qed.

Lemma keeps_suppress (P : exn -> Prop) m : keeps (fun _ => True) m -> keeps P (suppress m).
Proof.
  intros Hm w r w' H. unfold suppress in H.
  destruct (m w) as [[[]|e] w1] eqn:Hmw; injection H as <- <-;
    (split; [exact (proj1 (Hm _ _ _ Hmw)) | discriminate]).
Qed.

#[global] Hint Resolve keeps_ret keeps_raise keeps_when : keeps.

(** Proves [keeps P m] for a primitive [m] that is written as a function of
    the world. *)
Ltac extends_field :=
  first [ apply extends_refl
        | apply extends_same; reflexivity
        | eapply extends_event; reflexivity ].

Ltac keeps_prim :=
  let H := fresh "H" in
  intros ? ? ? H;
  repeat match type of H with
         | context [match ?x with _ => _ end] => destruct x
         end;
  injection H as <- <-;
  (split; [extends_field | intros ? [= <-]; auto]).

Section Frames.
Context {E : Env}.

Lemma keeps_exists_ P p : keeps P (exists_ p).
Proof. unfold exists_. keeps_prim. Qed.

Lemma keeps_time P : keeps P time.
Proof. unfold time. keeps_prim. Qed.

Lemma keeps_getctime P p : os_closed P -> keeps P (getctime p).
Proof. intros HP. unfold getctime. keeps_prim. Qed.

Lemma keeps_mkdir P name : os_closed P -> keeps P (mkdir name).
Proof. intros HP. unfold mkdir. keeps_prim. Qed.

Lemma keeps_makedirs_go P fuel :
  os_closed P -> forall name, keeps P (makedirs_go fuel name).
Proof.
  intros HP. induction fuel as [|fuel IH]; intros name; simpl;
    destruct (makedirs_split name) as [head tail]; [now apply keeps_mkdir|].
  apply keeps_bind; [apply keeps_exists_|]. intros head_exists.
  destruct (truthy head && truthy tail && negb head_exists);
    [|now apply keeps_mkdir].
  apply keeps_bind.
  - intros w r w' H. destruct (makedirs_go fuel head w) as [r0 w0] eqn:Hgo.
    destruct (IH head _ _ _ Hgo) as [Hext HPe].
    destruct r0 as [[]|e].
    + injection H as <- <-. split; [exact Hext | discriminate].
    + destruct e as [| |[] path| | |]; injection H as <- <-;
        (split; [exact Hext|]); try discriminate; apply HPe.
  - intros _. destruct (String.eqb tail "."); [apply keeps_ret|].
    now apply keeps_mkdir.
Qed.

Lemma keeps_makedirs P name : os_closed P -> keeps P (makedirs name).
Proof. intros HP. now apply keeps_makedirs_go. Qed.

Lemma keeps_remove P p : os_closed P -> keeps P (remove p).
Proof. intros HP. unfold remove. keeps_prim. Qed.

Lemma keeps_shutil_copy P src dst : os_closed P -> keeps P (shutil_copy src dst).
Proof. intros HP. unfold shutil_copy. keeps_prim. Qed.

Lemma keeps_rmtree P path ignore_errors :
  os_closed P -> keeps P (rmtree path ignore_errors).
Proof. intros HP. unfold rmtree. keeps_prim. Qed.

Lemma keeps_modify_fs P (f : World -> gmap string node) :
  keeps P (modify (fun w => set_fs (f w) w)).
Proof. unfold modify. keeps_prim. Qed.

Lemma keeps_copytree P src dst : os_closed P -> keeps P (copytree src dst).
Proof.
  intros HP. unfold copytree. apply keeps_bind.
  - unfold get_world. keeps_prim.
  - intros w. destruct (fs w !! resolve src) as [[c t|t]|];
      [now apply keeps_raise| |now apply keeps_raise].
    apply keeps_bind; [now apply keeps_makedirs|]. intros _.
    apply (keeps_modify_fs P (fun w' => map_fold _ (fs w') (fs w))).
Qed.

Lemma keeps_TemporaryDirectory_name P prefix :
  keeps P (TemporaryDirectory_name prefix).
Proof. unfold TemporaryDirectory_name. keeps_prim. Qed.

Lemma keeps_mktemp P : keeps P mktemp.
Proof. unfold mktemp. keeps_prim. Qed.

Lemma keeps_uuid_hex_next P : keeps P uuid_hex_next.
Proof. unfold uuid_hex_next. keeps_prim. Qed.

Lemma keeps_read_text P path : os_closed P -> keeps P (read_text path).
Proof. intros HP. unfold read_text. keeps_prim. Qed.

Lemma keeps_getitem P d key : key_closed P -> keeps P (getitem d key).
Proof.
  intros HP. unfold getitem. destruct (d !! key);
    [apply keeps_ret | now apply keeps_raise].
Qed.

Lemma keeps__log P args : keeps P (_log args).
Proof. unfold _log, modify. keeps_prim. Qed.

Lemma keeps__run P args cwd capture_io : keeps P (_run args cwd capture_io).
Proof. unfold _run. keeps_prim. Qed.

Lemma keeps_register P a :
  keeps P (modify (fun w => set_ON_EXIT (ON_EXIT w ++ [a]) w)).
Proof.
  intros w r w' H. injection H as <- <-. split; [|discriminate].
  split; [exists []; now rewrite app_nil_r | now exists [a]].
Qed.

End Frames.

#[global] Hint Resolve keeps_exists_ keeps_time keeps_getctime keeps_mkdir
  keeps_makedirs keeps_remove keeps_shutil_copy keeps_rmtree keeps_copytree
  keeps_TemporaryDirectory_name keeps_mktemp keeps_uuid_hex_next
  keeps_read_text keeps_getitem keeps__log keeps__run keeps_register
  keeps_map_m keeps_for_each : keeps.

(** One step of a proof of [keeps P m] along the shape of [m]. *)
Ltac keeps_step :=
  lazymatch goal with
  | |- keeps _ (bind _ _) => apply keeps_bind; [|intros]
  | |- keeps _ (when _ _) => apply keeps_when
  | |- keeps _ (for_each _ _) => apply keeps_for_each; intros
  | |- keeps _ (map_m _ _) => apply keeps_map_m; intros
  | |- keeps _ (if ?c then _ else _) => destruct c
  | |- keeps _ (match ?x with _ => _ end) => destruct x
  end.

Ltac keeps_auto := repeat keeps_step; eauto with keeps.

Lemma any_exn_all e : any_exn e.
Proof. exact I. Qed.

#[global] Hint Resolve any_exn_all : keeps.

Section ModuleFrames.
Context {E : Env}.
Variable P : exn -> Prop.

Lemma keeps__clone_src_cache_get src cache_key remote :
  os_closed P -> keeps P (_clone_src_cache_get src cache_key remote).
Proof. intros HP. unfold _clone_src_cache_get. keeps_auto. Qed.

Lemma keeps__clone_src_cache_refresh head cache_key :
  os_closed P -> keeps P (_clone_src_cache_refresh head cache_key).
Proof. intros HP. unfold _clone_src_cache_refresh. keeps_auto. Qed.

Lemma keeps__clone_src src :
  os_closed P -> error_closed P -> keeps P (_clone_src src).
Proof.
  intros Hos Herr. unfold _clone_src.
  pose proof keeps__clone_src_cache_get. pose proof keeps__clone_src_cache_refresh.
  keeps_auto.
Qed.

Lemma keeps__nix_build attr cache head out :
  key_closed P -> keeps P (_nix_build attr cache head out).
Proof. intros HP. unfold _nix_build. keeps_auto. Qed.

Lemma keeps_copy_path_to_head src head path :
  os_closed P -> keeps P (copy_path_to_head src head path).
Proof. intros HP. unfold copy_path_to_head. keeps_auto. Qed.

Lemma keeps__get_head src :
  os_closed P -> error_closed P -> keeps P (_get_head src).
Proof.
  intros Hos Herr. unfold _get_head.
  pose proof keeps__clone_src. pose proof keeps_copy_path_to_head.
  keeps_auto.
Qed.

Lemma keeps__get_attrs src head :
  os_closed P -> error_closed P -> key_closed P -> P JSONDecodeError ->
  keeps P (_get_attrs src head).
Proof.
  intros Hos Herr Hkey Hjson. unfold _get_attrs.
  pose proof keeps__nix_build. keeps_auto.
Qed.

Lemma keeps__get_cache src head :
  os_closed P -> error_closed P -> key_closed P -> P JSONDecodeError ->
  keeps P (_get_cache src head).
Proof.
  intros Hos Herr Hkey Hjson. unfold _get_cache.
  pose proof keeps__nix_build. keeps_auto.
Qed.

Lemma keeps_cache_push cache out : key_closed P -> keeps P (cache_push cache out).
Proof.
  intros HP. induction cache as [|config cache IH]; simpl; keeps_auto.
Qed.

End ModuleFrames.

Section OrchestratorFrames.
Context {E : Env}.

Lemma keeps__help_and_exit src attrs exc :
  keeps any_exn (_help_and_exit src attrs exc).
Proof. unfold _help_and_exit. keeps_auto. Qed.

Lemma keeps_execute_action args out : keeps any_exn (execute_action args out).
Proof. unfold execute_action. keeps_auto. Qed.

Lemma keeps_try_except_Error {A B} (body : M A) (handler : exn -> M B)
    (orelse : A -> M B) :
  keeps any_exn body -> (forall e, keeps any_exn (handler e)) ->
  (forall a, keeps any_exn (orelse a)) ->
  keeps any_exn (try_except_Error body handler orelse).
Proof.
  intros Hbody Hhandler Horelse w r w' Hrun. unfold try_except_Error in Hrun.
  destruct (body w) as [[a|e] w1] eqn:Hb;
    destruct (Hbody _ _ _ Hb) as [Hext _]; (split; [|intros; exact I]).
  - eapply extends_trans; [exact Hext | exact (proj1 (Horelse _ _ _ _ Hrun))].
  - destruct e; try (injection Hrun as <- <-; exact Hext).
    eapply extends_trans; [exact Hext | exact (proj1 (Hhandler _ _ _ _ Hrun))].
Qed.

Lemma keeps_cli args : keeps any_exn (cli args).
Proof.
  assert (Hos : os_closed any_exn) by (intros ? ?; exact I).
  assert (Herr : error_closed any_exn) by (intros ? ?; exact I).
  assert (Hkey : key_closed any_exn) by (intros ?; exact I).
  pose proof keeps__help_and_exit. pose proof keeps_execute_action.
  pose proof (keeps__get_head any_exn). pose proof (keeps__get_attrs any_exn).
  pose proof (keeps__get_cache any_exn). pose proof (keeps__nix_build any_exn).
  pose proof (keeps_cache_push any_exn).
  unfold cli. repeat keeps_step; eauto with keeps.
  apply keeps_try_except_Error; intros; keeps_auto.
Qed.

Lemma keeps_main argv : keeps any_exn (main argv).
Proof.
  intros w r w' Hrun. unfold main in Hrun.
  destruct (cli argv w) as [r0 w1] eqn:Hcli.
  destruct (keeps_cli _ _ _ _ Hcli) as [Hext _].
  split; [|intros; exact I].
  destruct r0 as [[]|[msg captured|code|kind path|key| |]];
    try (injection Hrun as <- <-; exact Hext).
  - eapply extends_trans; [exact Hext|].
    eapply (keeps_extends any_exn); [|exact Hrun].
    unfold sys_exit. keeps_auto.
Qed.

End OrchestratorFrames.

(** * The branches of [cli] and the reports of [main] *)

Lemma log_lines_app a b w : log_lines (a ++ b) w = log_lines b (log_lines a w).
Proof. unfold log_lines. apply fold_left_app. Qed.

Lemma log_lines_events lines w :
  events (log_lines lines w) = events w ++ map EvLog lines
  /\ fs (log_lines lines w) = fs w
  /\ ON_EXIT (log_lines lines w) = ON_EXIT w
  /\ clock (log_lines lines w) = clock w
  /\ tmp_counter (log_lines lines w) = tmp_counter w.
Proof.
  revert w. induction lines as [|l lines IH]; intros w; simpl.
  - now rewrite app_nil_r.
  - destruct (IH (add_event (EvLog l) w)) as (-> & -> & -> & -> & ->).
    cbn. now rewrite <- app_assoc.
Qed.

Section Branches.
Context {E : Env}.

Lemma always_raises_raise {A} e : always_raises (@raise A e).
Proof. intros w. now exists e, w. Qed.

Lemma always_raises_bind {A B} (m : M A) (k : A -> M B) :
  (forall a, always_raises (k a)) -> always_raises (bind m k).
Proof.
  intros Hk w. unfold bind. destruct (m w) as [[a|e] w1]; [apply Hk|eauto].
Qed.

Lemma listing_lines attrs w :
  for_each attrs
    (fun attr => when (negb (hidden_attr attr)) (_log ["  " +:+ attr])) w
  = (Ok tt,
     log_lines (map (fun attr => "  " +:+ attr)
                  (List.filter (fun attr => negb (hidden_attr attr)) attrs)) w).
Proof.
  revert w. induction attrs as [|attr attrs IH]; intros w; [reflexivity|].
  cbn [for_each List.filter]. destruct (hidden_attr attr); cbn [negb when].
  - rewrite (bind_ok _ _ _ tt _ eq_refl). apply IH.
  - rewrite (bind_ok _ _ _ _ _ (_log_run _ _)). rewrite IH. reflexivity.
Qed.

(** [_help_and_exit] prints its lines and raises: the exception it was
    given, or [SystemExit(1)]. *)
Lemma _help_and_exit_run src attrs exc w :
  _help_and_exit src attrs exc w
  = (Raise (default (SystemExit 1) exc), log_lines (help_lines src attrs exc) w).
Proof.
  unfold _help_and_exit, help_lines.
  rewrite (bind_ok _ _ _ _ _ (_log_run _ _)).
  change (log_lines (?l :: ?r) w) with (log_lines r (add_event (EvLog l) w)).
  set (w0 := add_event _ w). rewrite !log_lines_app.
  assert (Hsrc : (if truthy (default "" src)
                  then _log [];; _log ["[SOURCE] is currently: " +:+ default "" src]
                  else _log [];; _log ["[SOURCE] can be:"];; _log [];;
                       _log ["  A Git repository in the current working directory:"];;
                       _log ["    $ m ."];; _log [];;
                       _log ["  A GitHub repository and revision (branch, commit or tag):"];;
                       _log ["    $ m github:owner/repo@rev"];; _log [];;
                       _log ["  A GitLab repository and revision (branch, commit or tag):"];;
                       _log ["    $ m gitlab:owner/repo@rev"]) w0
                 = (Ok tt, log_lines (source_help src) w0)).
  { unfold source_help. destruct (truthy (default "" src)); reflexivity. }
  rewrite (bind_ok _ _ _ _ _ Hsrc). set (w1 := log_lines (source_help src) w0).
  assert (Hout : match attrs with
                 | Some attrs =>
                     _log [];; _log ["[OUTPUT] can be:"];;
                     for_each attrs
                       (fun attr => when (negb (hidden_attr attr))
                                      (_log ["  " +:+ attr]))
                 | None =>
                     _log [];;
                     _log ["[OUTPUT] options will be listed when you provide a [SOURCE]"]
                 end w1 = (Ok tt, log_lines (output_help attrs) w1)).
  { destruct attrs as [attrs|]; [|reflexivity].
    rewrite (bind_ok _ _ _ _ _ (_log_run _ _)).
    rewrite (bind_ok _ _ _ _ _ (_log_run _ _)).
    rewrite listing_lines. unfold output_help. rewrite log_lines_app.
    reflexivity. }
  rewrite (bind_ok _ _ _ _ _ Hout). destruct exc; reflexivity.
Qed.

Lemma banner_lines w :
  banner w
  = log_lines ["Makes v" +:+ VERSION +:+ "-" +:+ platform +:+ " (IOHK)"; ""] w.
Proof. reflexivity. Qed.

Lemma cleanup_total w : cleanup w = (Ok tt, at_exit w).
Proof.
  unfold at_exit. destruct (cleanup_runs w) as (w' & -> & _). reflexivity.
Qed.

Lemma __main___run argv w :
  __main__ argv w
  = (exit_status (fst (main argv w)), at_exit (snd (main argv w))).
Proof.
  unfold __main__. destruct (main argv w) as [r w1]. rewrite cleanup_total.
  reflexivity.
Qed.

(** [main] turns an [Error] of [cli] into its report and [SystemExit(1)],
    and lets every other exception through. *)
Lemma main_of_cli argv w e w1 :
  cli argv w = (Raise e, w1) ->
  main argv w
  = (Raise (match e with Error _ _ => SystemExit 1 | _ => e end),
     log_lines (report_lines e) w1).
Proof.
  intros Hcli. unfold main. rewrite Hcli.
  destruct e as [msg [[stdout stderr]|]|code|kind path|key| |]; reflexivity.
Qed.


(** The run of [cli] on a short command line. *)
Lemma cli_no_source argv w :
  (length argv <= 1)%nat ->
  cli argv w
  = (Raise (SystemExit 1), log_lines (help_lines None None None) (banner w)).
Proof.
  intros Hlen. unfold cli.
  rewrite (bind_ok _ _ _ _ _ (_log_run _ _)).
  rewrite (bind_ok _ _ _ _ _ (_log_run _ _)).
  change (add_event _ (add_event _ w)) with (banner w).
  rewrite bool_decide_eq_true_2
    by (destruct argv as [|? [|? ?]]; [reflexivity..|simpl in Hlen; lia]).
  cbn [when]. erewrite bind_raise; [|apply _help_and_exit_run]. reflexivity.
Qed.

Lemma cli_source_only argv0 src w :
  cli [argv0; src] w
  = try_except_Error
      (let* head := _get_head src in _get_attrs src head)
      (fun exc => _help_and_exit (Some src) None (Some exc))
      (fun attrs => _help_and_exit (Some src) (Some attrs) None) (banner w).
Proof.
  unfold cli.
  rewrite (bind_ok _ _ _ _ _ (_log_run _ _)).
  rewrite (bind_ok _ _ _ _ _ (_log_run _ _)).
  change (add_event _ (add_event _ w)) with (banner w).
  cbn [drop]. rewrite bool_decide_eq_false_2 by discriminate.
  unfold when at 1. rewrite (bind_ok _ _ _ tt _ eq_refl).
  rewrite bool_decide_eq_true_2 by reflexivity. cbn [when].
  unfold bind at 1.
  destruct (try_except_Error _ _ _ (banner w)) as [[[]|e] w1] eqn:Htry;
    [|reflexivity].
  exfalso. unfold try_except_Error in Htry.
  destruct ((let* head := _get_head src in _get_attrs src head) (banner w))
    as [[attrs|e] w2].
  - rewrite _help_and_exit_run in Htry. discriminate.
  - destruct e; try discriminate. rewrite _help_and_exit_run in Htry.
    discriminate.
Qed.

(** The run of [cli] on a source and an output, stage by stage. *)
Lemma cli_stages argv0 src attr rest w :
  cli (argv0 :: src :: attr :: rest) w
  = (let* head := _get_head src in
     let* attrs := _get_attrs src head in
     when (negb (bool_decide (attr ∈ attrs)))
       (_help_and_exit (Some src) (Some attrs) None) ;;
     let* cache := _get_cache src head in
     let* build_args :=
       _nix_build (build_attr attr head) (Some cache) head (out_link attr) in
     after_build cache rest (out_link attr) build_args) (banner w).
Proof.
  unfold cli.
  rewrite (bind_ok _ _ _ _ _ (_log_run _ _)).
  rewrite (bind_ok _ _ _ _ _ (_log_run _ _)).
  change (add_event _ (add_event _ w)) with (banner w).
  cbn [drop]. rewrite bool_decide_eq_false_2 by discriminate.
  unfold when at 1. rewrite (bind_ok _ _ _ tt _ eq_refl).
  rewrite bool_decide_eq_false_2 by discriminate.
  unfold when at 1. rewrite (bind_ok _ _ _ tt _ eq_refl).
  reflexivity.
Qed.

Lemma cli_stage_fails argv0 src attr rest w e w_err :
  stage_fails src attr w e w_err ->
  cli (argv0 :: src :: attr :: rest) w = (Raise e, w_err).
Proof.
  rewrite cli_stages.
  intros [Hhead | [(head & w1 & Hhead & Hattrs)
                  | (head & w1 & attrs & w2 & Hhead & Hattrs & Hin & Hcache)]].
  - now rewrite (bind_raise _ _ _ _ _ Hhead).
  - rewrite (bind_ok _ _ _ _ _ Hhead). now rewrite (bind_raise _ _ _ _ _ Hattrs).
  - rewrite (bind_ok _ _ _ _ _ Hhead), (bind_ok _ _ _ _ _ Hattrs).
    rewrite bool_decide_eq_true_2 by assumption. cbn [negb when].
    rewrite (bind_ok _ _ _ tt _ eq_refl).
    now rewrite (bind_raise _ _ _ _ _ Hcache).
Qed.

Lemma not_exit_closed :
  os_closed not_exit /\ error_closed not_exit /\ key_closed not_exit
  /\ not_exit JSONDecodeError.
Proof. repeat split; repeat intro; assumption. Qed.

Lemma stage_fails_not_exit src attr w e w_err :
  stage_fails src attr w e w_err -> ~ is_exit e /\ extends (banner w) w_err.
Proof.
  destruct not_exit_closed as (Hos & Herr & Hkey & Hjson).
  intros [Hhead | [(head & w1 & Hhead & Hattrs)
                  | (head & w1 & attrs & w2 & Hhead & Hattrs & Hin & Hcache)]].
  - destruct (keeps__get_head not_exit src Hos Herr _ _ _ Hhead) as [Hext HP].
    split; [now apply HP | exact Hext].
  - destruct (keeps__get_head not_exit src Hos Herr _ _ _ Hhead) as [Hext _].
    destruct (keeps__get_attrs not_exit src head Hos Herr Hkey Hjson _ _ _ Hattrs)
      as [Hext' HP].
    split; [now apply HP | eapply extends_trans; eassumption].
  - destruct (keeps__get_head not_exit src Hos Herr _ _ _ Hhead) as [Hext _].
    destruct (keeps__get_attrs not_exit src head Hos Herr Hkey Hjson _ _ _ Hattrs)
      as [Hext' _].
    destruct (keeps__get_cache not_exit src head Hos Herr Hkey Hjson _ _ _ Hcache)
      as [Hext'' HP].
    split; [now apply HP|].
    eapply extends_trans; [|exact Hext'']. eapply extends_trans; eassumption.
Qed.

End Branches.

Section Reports.
Context {E : Env}.

Lemma after_build_always_raises cache args out build_args :
  always_raises (after_build cache args out build_args).
Proof.
  unfold after_build. apply always_raises_bind. intros [[code o] e].
  apply always_raises_bind. intros _. apply always_raises_raise.
Qed.

Lemma cli_always_raises argv : always_raises (cli argv).
Proof.
  intros w. destruct argv as [|argv0 [|src [|attr rest]]].
  - rewrite cli_no_source by (simpl; lia). eauto.
  - rewrite cli_no_source by (simpl; lia). eauto.
  - rewrite cli_source_only. unfold try_except_Error.
    destruct ((let* head := _get_head src in _get_attrs src head) (banner w))
      as [[attrs|e] w1].
    + rewrite _help_and_exit_run. eauto.
    + destruct e; eauto. rewrite _help_and_exit_run. eauto.
  - rewrite cli_stages.
    do 5 (apply always_raises_bind; intros).
    apply after_build_always_raises.
Qed.

Lemma cli_after_banner argv w : extends (banner w) (snd (cli argv w)).
Proof.
  assert (Hos : os_closed any_exn) by (intros ? ?; exact I).
  assert (Herr : error_closed any_exn) by (intros ? ?; exact I).
  assert (Hkey : key_closed any_exn) by (intros ?; exact I).
  pose proof keeps__help_and_exit. pose proof keeps_execute_action.
  pose proof (keeps__get_head any_exn). pose proof (keeps__get_attrs any_exn).
  pose proof (keeps__get_cache any_exn). pose proof (keeps__nix_build any_exn).
  pose proof (keeps_cache_push any_exn).
  destruct argv as [|argv0 [|src [|attr rest]]].
  - rewrite cli_no_source by (simpl; lia). cbn [snd].
    eapply (keeps_extends any_exn); [|apply _help_and_exit_run]. auto.
  - rewrite cli_no_source by (simpl; lia). cbn [snd].
    eapply (keeps_extends any_exn); [|apply _help_and_exit_run]. auto.
  - rewrite cli_source_only.
    destruct (try_except_Error _ _ _ (banner w)) as [r w1] eqn:Hrun.
    eapply (keeps_extends any_exn); [|exact Hrun].
    apply keeps_try_except_Error; intros; keeps_auto.
  - rewrite cli_stages.
    match goal with
    | |- extends _ (snd (?m _)) =>
        destruct (m (banner w)) as [r w1] eqn:Hrun;
        apply (keeps_extends any_exn m _ r w1); [|exact Hrun]
    end.
    unfold after_build. keeps_auto.
Qed.

(** X25.  [main] never returns and never lets an [Error] out: whatever the
    command line and the world, it ends with an exception that is not an
    [Error] (a [SystemExit], or an exception that nothing in the module
    catches).  The diagnostic stream starts with the banner, and neither it
    nor the list of cleanup actions ever loses an entry. *)
Theorem main_always_exits argv w :
  exists e w',
    main argv w = (Raise e, w') /\ ~ is_Error e /\ extends (banner w) w'.
Proof.
  destruct (cli_always_raises argv w) as (e & w1 & Hcli).
  pose proof (main_of_cli _ _ _ _ Hcli) as Hmain.
  eexists _, _. split; [exact Hmain|]. split.
  - destruct e; simpl; tauto.
  - pose proof (cli_after_banner argv w) as Hext. rewrite Hcli in Hext.
    eapply extends_trans; [exact Hext|].
    destruct (log_lines_events (report_lines e) w1) as (Hev & _ & Hon & _).
    split; [eexists; exact Hev | exists []; now rewrite app_nil_r].
Qed.

(** X17.  With no source on the command line, nothing is run: the process
    prints the banner and the usage with the three kinds of source, and
    exits with status 1 after the cleanup actions. *)
Theorem usage_without_source argv w :
  (length argv <= 1)%nat ->
  let w' := at_exit (log_lines (help_lines None None None) (banner w)) in
  __main__ argv w = (1%Z, w')
  /\ events w'
     = events (banner w) ++ map EvLog (help_lines None None None)
       ++ map action_event (ON_EXIT w).
Proof.
  intros Hlen w'. pose proof (cli_no_source argv w Hlen) as Hcli.
  pose proof (main_system_exit _ _ _ _ Hcli) as Hmain.
  rewrite __main___run, Hmain. subst w'. cbn [fst snd exit_status].
  split; [reflexivity|]. unfold at_exit.
  destruct (cleanup_runs (log_lines (help_lines None None None) (banner w)))
    as (w2 & Hclean & Hev). rewrite Hclean. cbn [snd]. rewrite Hev.
  destruct (log_lines_events (help_lines None None None) (banner w))
    as (-> & _ & -> & _). now rewrite <- app_assoc.
Qed.



End Reports.

Lemma run_fst_raise {A} (x : result A * World) (e : exn) :
  fst x = Raise e -> x = (Raise e, snd x).
Proof. destruct x as [r w]. simpl. now intros ->. Qed.

Lemma usage_without_source_witness :
  fst (@__main__ (demo_env sc_edit) ["m"] w_edit) = 1%Z.
Proof.
  destruct (@usage_without_source (demo_env sc_edit) ["m"] w_edit) as [-> _];
    [simpl; lia | reflexivity].
Defined.


(** * When the process exits with status 0 *)

Section ExitZero.
Context {E : Env}.

Lemma status_of_cli argv w e w1 :
  cli argv w = (Raise e, w1) ->
  fst (__main__ argv w)
  = match e with SystemExit code => (code mod 256)%Z | _ => 1%Z end.
Proof.
  intros Hcli. rewrite __main___run, (main_of_cli _ _ _ _ Hcli).
  destruct e; reflexivity.
Qed.

Lemma after_build_push_raises cache args out build_args w3 e w5 :
  returncode (proc w3 (build_call build_args)) = 0%Z ->
  cache_push cache out (snd (_run build_args None false w3)) = (Raise e, w5) ->
  after_build cache args out build_args w3 = (Raise e, w5).
Proof.
  intros Hcode Hpush. unfold after_build. unfold build_call in Hcode.
  rewrite (bind_ok _ _ _ _ _ (_run_run _ _ _ _)).
  rewrite Hcode. cbn [Z.eqb when].
  rewrite _run_run in Hpush. cbn [snd] in Hpush.
  unfold bind at 1. unfold bind at 1. now rewrite Hpush.
Qed.

(** X24.  The process exits with status 0 only after a build: the command
    line names a source and an output, the checkout, the manifest and the
    cache configuration were obtained and the manifest lists the output, and
    the build returned a code whose low byte is 0.  When that code is 0
    itself, the cache push went through and the action script, if the
    output has one, returned a code whose low byte is 0. *)
Theorem exit_zero_only_after_build argv w w' :
  __main__ argv w = (0%Z, w') ->
  exists argv0 src attr rest head cache build_args w3,
    argv = argv0 :: src :: attr :: rest
    /\ reaches_build src attr w head cache build_args w3
    /\ (returncode (proc w3 (build_call build_args)) mod 256 = 0)%Z
    /\ (returncode (proc w3 (build_call build_args)) = 0%Z ->
        exists w5,
          cache_push cache (out_link attr)
            (snd (_run build_args None false w3)) = (Ok tt, w5)
          /\ (fs w5 !! resolve (join (out_link attr) "makes-action.sh") = None
              \/ (returncode (proc w5 (action_call (out_link attr) rest))
                    mod 256 = 0)%Z)).
Proof.
  destruct not_exit_closed as (Hos & Herr & Hkey & Hjson).
  intros Hrun. apply (f_equal fst) in Hrun. cbn [fst] in Hrun.
  assert (Hone : forall e w1, cli argv w = (Raise e, w1) ->
                   e = SystemExit 1 \/ ~ is_exit e -> False).
  { intros e w1 Hcli He. rewrite (status_of_cli _ _ _ _ Hcli) in Hrun.
    destruct He as [-> | He]; [discriminate|].
    destruct e; try discriminate. now apply He. }
  destruct argv as [|argv0 [|src [|attr rest]]].
  - exfalso. eapply Hone; [apply cli_no_source; simpl; lia | now left].
  - exfalso. eapply Hone; [apply cli_no_source; simpl; lia | now left].
  - exfalso. pose proof (cli_source_only argv0 src w) as Hcli.
    unfold try_except_Error in Hcli.
    destruct ((let* head := _get_head src in _get_attrs src head) (banner w))
      as [[attrs|e] w2] eqn:Hbody.
    + rewrite _help_and_exit_run in Hcli. eapply Hone; [exact Hcli | now left].
    + assert (Hne : not_exit e).
      { eapply (keeps_bind not_exit); [| |exact Hbody|reflexivity].
        - now apply keeps__get_head.
        - intros head. now apply keeps__get_attrs. }
      destruct e; try (eapply Hone; [exact Hcli | now right]).
      rewrite _help_and_exit_run in Hcli.
      eapply Hone; [exact Hcli | right; simpl; tauto].
  - assert (Hstage : forall e w_err, stage_fails src attr w e w_err -> False).
    { intros e w_err Hfail.
      eapply Hone; [exact (cli_stage_fails argv0 _ _ rest _ _ _ Hfail)|].
      right. exact (proj1 (stage_fails_not_exit _ _ _ _ _ Hfail)). }
    destruct (_get_head src (banner w)) as [[head|e] w1] eqn:Hhead;
      [|exfalso; eapply Hstage; left; exact Hhead].
    destruct (_get_attrs src head w1) as [[attrs|e] w2] eqn:Hattrs;
      [|exfalso; eapply Hstage; right; left; eauto].
    destruct (decide (attr ∈ attrs)) as [Hin|Hnotin].
    2:{ exfalso. pose proof (cli_stages argv0 src attr rest w) as Hcli.
        rewrite (bind_ok _ _ _ _ _ Hhead), (bind_ok _ _ _ _ _ Hattrs) in Hcli.
        rewrite bool_decide_eq_false_2 in Hcli by assumption.
        cbn [negb when] in Hcli.
        rewrite (bind_raise _ _ _ _ _ (_help_and_exit_run _ _ _ _)) in Hcli.
        eapply Hone; [exact Hcli | now left]. }
    destruct (_get_cache src head w2) as [[cache|e] w2'] eqn:Hcache;
      [|exfalso; eapply Hstage; right; right; eauto 10].
    destruct (_nix_build (build_attr attr head) (Some cache) head
                (out_link attr) w2') as [[build_args|e] w3] eqn:Hbuild.
    2:{ exfalso. pose proof (cli_stages argv0 src attr rest w) as Hcli.
        rewrite (bind_ok _ _ _ _ _ Hhead), (bind_ok _ _ _ _ _ Hattrs) in Hcli.
        rewrite bool_decide_eq_true_2 in Hcli by assumption.
        cbn [negb when] in Hcli. rewrite (bind_ok _ _ _ tt _ eq_refl) in Hcli.
        rewrite (bind_ok _ _ _ _ _ Hcache) in Hcli.
        rewrite (bind_raise _ _ _ _ _ Hbuild) in Hcli.
        eapply Hone; [exact Hcli | right].
        exact (proj2 (keeps__nix_build not_exit _ _ _ _ Hkey _ _ _ Hbuild)
                 e eq_refl). }
    assert (Hreach : reaches_build src attr w head cache build_args w3).
    { exists w1, attrs, w2, w2'. auto. }
    pose proof (cli_reaches_build argv0 _ _ rest _ _ _ _ _ Hreach) as Hcli.
    exists argv0, src, attr, rest, head, cache, build_args, w3.
    split; [reflexivity|]. split; [exact Hreach|].
    destruct (Z.eq_dec (returncode (proc w3 (build_call build_args))) 0%Z)
      as [Hcode|Hcode].
    + split; [now rewrite Hcode|]. intros _.
      destruct (cache_push cache (out_link attr)
                  (snd (_run build_args None false w3)))
        as [[[]|e] w5] eqn:Hpush.
      2:{ exfalso.
          rewrite (after_build_push_raises _ _ _ _ _ _ _ Hcode Hpush) in Hcli.
          eapply Hone; [exact Hcli | right].
          exact (proj2 (keeps_cache_push not_exit _ _ Hkey _ _ _ Hpush)
                   e eq_refl). }
      exists w5. split; [reflexivity|].
      rewrite (after_build_success _ _ _ _ _ _ Hcode Hpush) in Hcli.
      destruct (execute_action_runs rest (out_link attr) w5) as [Hact Hskip].
      destruct (fs w5 !! resolve (join (out_link attr) "makes-action.sh"))
        eqn:Hscript; [right | now left].
      destruct (Hact ltac:(eauto)) as (w6 & Hexec & _).
      rewrite (bind_raise _ _ _ _ _ Hexec) in Hcli.
      now rewrite (status_of_cli _ _ _ _ Hcli) in Hrun.
    + destruct (after_build_failure cache rest (out_link attr) build_args w3
                  Hcode) as (w4 & Hafter & _).
      rewrite Hafter in Hcli. rewrite (status_of_cli _ _ _ _ Hcli) in Hrun.
      split; [exact Hrun | intros Hzero; contradiction].
Qed.

End ExitZero.

Lemma run_fst_status (x : Z * World) (n : Z) : fst x = n -> x = (n, snd x).
Proof. destruct x as [r w]. simpl. now intros ->. Qed.

Lemma exit_zero_only_after_build_witness :
  exists head cache build_args w3,
    @reaches_build (demo_env sc_plain) "." "/hello" w_edit head cache
      build_args w3.
Proof.
  destruct (@exit_zero_only_after_build (demo_env sc_plain)
              ["m"; "."; "/hello"; "--x"] w_edit
              (snd (@__main__ (demo_env sc_plain) ["m"; "."; "/hello"; "--x"]
                      w_edit)))
    as (argv0 & src & attr & rest & head & cache & build_args & w3 & Hargv
        & Hreach & _).
  - apply run_fst_status. vm_compute. reflexivity.
  - injection Hargv as <- <- <- <-. eauto.
Defined.

(** * Which sources are hosted references, and where their cache entry is *)

Lemma re_star_complete k g t gs :
  no_newline g -> k t = Some gs -> is_Some (re_star k (g +:+ t)).
Proof.
  unfold no_newline. induction g as [|c g IH]; intros Hg Hk.
  - change ("" +:+ t) with t. destruct t as [|d r]; simpl; rewrite Hk; [eauto|].
    destruct (Ascii.eqb d newline); [eauto|].
    destruct (re_star k r) as [[|? ?]|]; eauto.
  - cbn [has_char] in Hg. apply orb_false_elim in Hg as [Hc Hg].
    change (String c g +:+ t) with (String c (g +:+ t)). simpl. rewrite Hc.
    destruct (IH Hg Hk) as [l Hl]. rewrite Hl.
    apply re_star_sound in Hl as (g0 & gs0 & t0 & -> & _). eauto.
Qed.

Lemma hosted_regex_accepts p owner repo rev tail :
  no_newline owner -> no_newline repo -> no_newline rev ->
  at_dollar tail = true ->
  is_Some
    (re_match (hosted_regex p)
       (p +:+ ":" +:+ owner +:+ "/" +:+ repo +:+ "@" +:+ rev +:+ tail)).
Proof.
  intros Ho Hr Hv Htail. unfold hosted_regex. rewrite re_match_lit.
  change (":" +:+ ?x) with (String ":" x). rewrite re_match_char.
  assert (H3 : is_Some (re_match [RGroup] (rev +:+ tail))).
  { apply (re_star_complete (re_match []) rev tail [] Hv).
    simpl. now rewrite Htail. }
  destruct H3 as [gs3 H3].
  assert (H2 : is_Some (re_match [RGroup; RLit "@"; RGroup]
                          (repo +:+ "@" +:+ rev +:+ tail))).
  { apply (re_star_complete (re_match [RLit "@"; RGroup]) repo
             ("@" +:+ rev +:+ tail) gs3 Hr).
    change ("@" +:+ ?x) with (String "@" x). now rewrite re_match_char. }
  destruct H2 as [gs2 H2].
  apply (re_star_complete (re_match [RLit "/"; RGroup; RLit "@"; RGroup]) owner
           ("/" +:+ repo +:+ "@" +:+ rev +:+ tail) gs2 Ho).
  change ("/" +:+ ?x) with (String "/" x). now rewrite re_match_char.
Qed.

(** X1.  A source is read as a hosted reference of a provider exactly when
    it is the provider's name and a colon, then an owner, a slash, a
    repository, an at sign and a revision, none of the three holding a line
    feed; one line feed may follow the revision. *)
Theorem hosted_source_accepted p src :
  is_Some (parse_hosted p src)
  <-> exists owner repo rev,
        no_newline owner /\ no_newline repo /\ no_newline rev
        /\ (src = provider_name p +:+ ":" +:+ owner +:+ "/" +:+ repo
                  +:+ "@" +:+ rev
            \/ src = provider_name p +:+ ":" +:+ owner +:+ "/" +:+ repo
                     +:+ "@" +:+ rev +:+ LF).
Proof.
  split.
  - intros [[[key remote] rev'] Hparse].
    apply parse_hosted_inv in Hparse as (owner & repo & rev & Hm & _).
    destruct (re_match_sound _ _ _ Hm) as (_ & Hn & _).
    destruct (hosted_regex_groups _ _ _ Hm) as (o & r & v & [= -> -> ->] & Hs).
    exists o, r, v.
    inversion Hn as [|? ? Ho Hn']; subst. inversion Hn' as [|? ? Hr Hn'']; subst.
    inversion Hn'' as [|? ? Hv _]; subst.
    repeat split; try assumption.
    destruct Hs as [-> | ->]; [now left | right].
    now rewrite !append_assoc.
  - intros (owner & repo & rev & Ho & Hr & Hv & Hs).
    assert (Hm : is_Some (re_match (hosted_regex (provider_name p)) src)).
    { destruct Hs as [-> | ->].
      - pose proof (hosted_regex_accepts (provider_name p) owner repo rev ""
                      Ho Hr Hv eq_refl) as H.
        now rewrite append_nil_r in H.
      - now apply hosted_regex_accepts. }
    destruct Hm as [gs Hm].
    destruct (hosted_regex_groups _ _ _ Hm) as (o & r & v & -> & _).
    destruct p; cbn [parse_hosted provider_name] in *;
      unfold _clone_src_github, _clone_src_gitlab; rewrite Hm; eauto.
Qed.

(** ** Paths made of one more component *)

Lemma rsplit_slash_plain b : has_char "/" b = false -> rsplit_slash b = ("", b).
Proof.
  induction b as [|c b IH]; [reflexivity|]. cbn [has_char]. intros H.
  apply orb_false_elim in H as [Hc Hb]. simpl. rewrite (IH Hb). simpl.
  unfold is_slash. now rewrite Hc.
Qed.

Lemma rsplit_slash_child a b :
  has_char "/" b = false -> rsplit_slash (a +:+ String "/" b) = (a +:+ "/", b).
Proof.
  intros Hb. induction a as [|c a IH].
  - change ("" +:+ ?x) with x. simpl. now rewrite (rsplit_slash_plain b Hb).
  - change (String c a +:+ ?x) with (String c (a +:+ x)). simpl. rewrite IH.
    assert (Ht : truthy (a +:+ "/") = true) by (destruct a; reflexivity).
    now rewrite Ht.
Qed.

Lemma rstrip_slash_slash a : rstrip_slash (a +:+ "/") = rstrip_slash a.
Proof.
  induction a as [|c a IH]; [reflexivity|].
  change (String c a +:+ ?x) with (String c (a +:+ x)). simpl. now rewrite IH.
Qed.

Lemma rstrip_slash_id a : ends_with_slash a = false -> rstrip_slash a = a.
Proof.
  induction a as [|c a IH]; [reflexivity|]. intros H. simpl.
  destruct a as [|d a].
  - simpl in *. now rewrite H.
  - rewrite IH by exact H. reflexivity.
Qed.

Lemma ends_with_slash_app a b :
  truthy b = true -> ends_with_slash (a +:+ b) = ends_with_slash b.
Proof.
  intros Hb. induction a as [|c a IH]; [reflexivity|].
  change (String c a +:+ b) with (String c (a +:+ b)).
  destruct (a +:+ b) as [|d r] eqn:Hab.
  - destruct a; [simpl in Hab; subst b|]; discriminate.
  - exact IH.
Qed.

Lemma truthy_app_r a b : truthy b = true -> truthy (a +:+ b) = true.
Proof. destruct a; [trivial|reflexivity]. Qed.

(** Joining a component that is plain at both ends gives a path that is
    not empty and does not end with a slash. *)
Lemma join_plain a b :
  truthy b = true -> starts_with_slash b = false -> ends_with_slash b = false ->
  truthy (join a b) = true /\ ends_with_slash (join a b) = false.
Proof.
  intros Hb Hs He. unfold join. rewrite Hs.
  destruct (negb (truthy a) || ends_with_slash a).
  - split; [now apply truthy_app_r | now rewrite ends_with_slash_app].
  - split; [apply truthy_app_r; now apply truthy_app_r|].
    rewrite ends_with_slash_app by now apply truthy_app_r.
    now rewrite ends_with_slash_app.
Qed.

(** In a directory [d] that is named without a final slash, the entry of a
    name without slash has that name and that directory. *)
Lemma join_child d name :
  truthy d = true -> ends_with_slash d = false ->
  starts_with_slash name = false -> has_char "/" name = false ->
  join d name = d +:+ "/" +:+ name
  /\ dirname (join d name) = d
  /\ basename (join d name) = name.
Proof.
  intros Hd He Hs Hn.
  assert (Hjoin : join d name = d +:+ "/" +:+ name).
  { unfold join. now rewrite Hs, Hd, He. }
  rewrite Hjoin. change ("/" +:+ name) with (String "/" name).
  unfold dirname, basename. rewrite (rsplit_slash_child d name Hn).
  cbn [fst snd]. rewrite rstrip_slash_slash, (rstrip_slash_id d He).
  rewrite Hd, (truthy_app_r d "/" eq_refl). auto.
Qed.

Section CachePaths.
Context {E : Env}.

Lemma SOURCES_CACHE_plain :
  truthy SOURCES_CACHE = true /\ ends_with_slash SOURCES_CACHE = false.
Proof. unfold SOURCES_CACHE, join_all. cbn [fold_left]. now apply join_plain. Qed.

Lemma has_char_replace attr : has_char "/" (replace_char "/" "-" attr) = false.
Proof.
  induction attr as [|c attr IH]; [reflexivity|]. cbn [replace_char has_char].
  rewrite IH. destruct (Ascii.eqb c "/") eqn:Hc; [reflexivity|].
  now rewrite Hc.
Qed.


(** X3.  The cache entry of a hosted reference is a direct child of the
    cache directory, whatever the owner, the repository and the revision
    hold: the key has no slash and starts with the provider's name and a
    hyphen, so the path of the entry is the cache directory, a slash and the
    key. *)
Theorem cache_entry_inside_cache p src key remote rev :
  parse_hosted p src = Some (key, remote, rev) ->
  has_char "/" key = false
  /\ (exists rest, key = provider_name p +:+ "-" +:+ rest)
  /\ join SOURCES_CACHE key = SOURCES_CACHE +:+ "/" +:+ key
  /\ dirname (join SOURCES_CACHE key) = SOURCES_CACHE
  /\ basename (join SOURCES_CACHE key) = key.
Proof.
  intros Hparse.
  apply parse_hosted_inv in Hparse as (o & r & v & _ & -> & _ & _).
  assert (Hslash : has_char "/" (spec_cache_key p o r v) = false).
  { unfold spec_cache_key. cbn [str_join]. rewrite !has_char_app.
    rewrite !url_quote_no_slash. destruct p; reflexivity. }
  destruct SOURCES_CACHE_plain as [Ht He].
  split; [exact Hslash|]. split; [eexists; reflexivity|].
  apply join_child; try assumption. destruct p; reflexivity.
Qed.

(** X20.  The output link of a build is a direct child of the output
    directory whatever the name of the output: the slashes of the name are
    replaced, so the link is named [result] and the name without slash. *)
Theorem out_link_inside_out_base attr :
  let name := "result" +:+ replace_char "/" "-" attr in
  has_char "/" name = false
  /\ (truthy OUT_BASE = true -> ends_with_slash OUT_BASE = false ->
      out_link attr = OUT_BASE +:+ "/" +:+ name
      /\ dirname (out_link attr) = OUT_BASE
      /\ basename (out_link attr) = name).
Proof.
  intros name.
  assert (Hname : has_char "/" name = false).
  { subst name. rewrite has_char_app. now rewrite has_char_replace. }
  split; [exact Hname|]. intros Ht He. unfold out_link. fold name.
  now apply join_child.
Qed.

End CachePaths.

Lemma cache_entry_inside_cache_witness :
  @join "/home/u/.cache/makes/sources" "github-a%2F..-b-main"
  = "/home/u/.cache/makes/sources/github-a%2F..-b-main".
Proof.
  apply (@cache_entry_inside_cache (demo_env sc_edit) GitHub
           "github:a/../b@main" "github-a%2F..-b-main"
           "https://github.com/a%2F../b" "main").
  vm_compute. reflexivity.
Defined.

(** * The clone, stage by stage *)

Lemma bind_inv_raise {A B} (m : M A) (k : A -> M B) w e w' :
  bind m k w = (Raise e, w') ->
  m w = (Raise e, w')
  \/ exists a w1, m w = (Ok a, w1) /\ k a w1 = (Raise e, w').
Proof.
  unfold bind. destruct (m w) as [[a|e0] w1]; [eauto|].
  intros [= <- <-]. now left.
Qed.

Section Clone.
Context {E : Env}.

Lemma git_stage_run stage src args w :
  git_stage stage src args w
  = (if (stage_code args w =? 0)%Z then Ok tt
     else Raise (stage_error stage src args w),
     after_run args w).
Proof.
  unfold git_stage, stage_code, stage_error, after_run.
  rewrite (bind_ok _ _ _ _ _ (_run_run _ _ _ _)). cbn [snd].
  destruct (returncode (proc w (mkCall args None true)) =? 0)%Z; reflexivity.
Qed.

Lemma bind_ext {A B} (m : M A) (k1 k2 : A -> M B) w :
  (forall a w', k1 a w' = k2 a w') -> bind m k1 w = bind m k2 w.
Proof.
  intros Hk. unfold bind. destruct (m w) as [[a|e] w1]; [apply Hk|reflexivity].
Qed.

Lemma git_stage_then {B} stage src args (k1 k2 : M B) w :
  (forall w', k1 w' = k2 w') ->
  (let* '(out, stdout, stderr) := _run args None true in
   if negb (out =? 0)%Z then
     raise (Error ("Unable to git " +:+ stage +:+ ": " +:+ src)
              (Some (stdout, stderr)))
   else k1) w
  = (git_stage stage src args ;; k2) w.
Proof.
  intros Hk. unfold git_stage. rewrite bind_assoc. unfold bind.
  rewrite _run_run. destruct (returncode _ =? 0)%Z; cbn [negb]; [apply Hk|].
  reflexivity.
Qed.

(** [_clone_src] as the sequence of its stages. *)
Lemma _clone_src_stages src w :
  _clone_src src w
  = match source_ref src with
    | None =>
        (Raise (Error ("Unable to parse [SOURCE]: " +:+ src) None),
         registered w)
    | Some (cache_key, remote, rev) =>
        let head := checkout_name w in
        (git_stage "init" src (git_init head) ;;
         let* remote := _clone_src_cache_get src cache_key remote in
         git_stage "fetch" src (git_fetch head remote rev) ;;
         git_stage "checkout" src (git_checkout head rev) ;;
         _clone_src_cache_refresh head cache_key ;;
         ret head) (registered w)
    end.
Proof.
  unfold _clone_src.
  rewrite (bind_ok (TemporaryDirectory_name "makes-") _ w (checkout_name w)
             (set_tmp_counter (S (tmp_counter w)) w) eq_refl).
  rewrite (bind_ok
             (modify (fun w0 =>
                set_ON_EXIT
                  (ON_EXIT w0 ++ [RmtreeAction (checkout_name w) true]) w0))
             _ (set_tmp_counter (S (tmp_counter w)) w) tt (registered w)
             eq_refl).
  unfold source_ref.
  assert (Hrest : forall cache_key remote rev,
    (let* ' (out, stdout, stderr)
       := _run ["git"; "init"; "--initial-branch=____"; "--shared=false";
                checkout_name w] None true in
     if negb (out =? 0)%Z
     then raise (Error ("Unable to git init: " +:+ src) (Some (stdout, stderr)))
     else
       let* remote0 := _clone_src_cache_get src cache_key remote in
       let* ' (out0, stdout0, stderr0)
         := _run ["git"; "-C"; checkout_name w; "fetch"; "--depth=1"; remote0;
                  rev +:+ ":" +:+ rev] None true in
       if negb (out0 =? 0)%Z
       then raise (Error ("Unable to git fetch: " +:+ src)
                     (Some (stdout0, stderr0)))
       else
         let* ' (out1, stdout1, stderr1)
           := _run ["git"; "-C"; checkout_name w; "checkout"; rev] None true in
         if negb (out1 =? 0)%Z
         then raise (Error ("Unable to git checkout: " +:+ src)
                       (Some (stdout1, stderr1)))
         else _clone_src_cache_refresh (checkout_name w) cache_key ;;
              ret (checkout_name w)) (registered w)
    = (git_stage "init" src (git_init (checkout_name w)) ;;
       let* remote0 := _clone_src_cache_get src cache_key remote in
       git_stage "fetch" src (git_fetch (checkout_name w) remote0 rev) ;;
       git_stage "checkout" src (git_checkout (checkout_name w) rev) ;;
       _clone_src_cache_refresh (checkout_name w) cache_key ;;
       ret (checkout_name w)) (registered w)).
  { intros cache_key remote rev.
    apply (git_stage_then "init"). intros w1.
    apply bind_ext. intros remote0 w2.
    apply (git_stage_then "fetch"). intros w3.
    apply (git_stage_then "checkout"). reflexivity. }
  destruct (is_src_local src).
  - rewrite (bind_ok (ret _) _ _ ("", abspath src, "HEAD") (registered w)
               eq_refl).
    apply Hrest.
  - destruct (_clone_src_github src) as [[[cache_key remote] rev]|].
    + rewrite (bind_ok (ret _) _ _ (cache_key, remote, rev) (registered w)
                 eq_refl).
      apply Hrest.
    + destruct (_clone_src_gitlab src) as [[[cache_key remote] rev]|].
      * rewrite (bind_ok (ret _) _ _ (cache_key, remote, rev) (registered w)
                   eq_refl).
        apply Hrest.
      * reflexivity.
Qed.

End Clone.

Section CloneTheorems.
Context {E : Env}.

Lemma truthy_ne s : s <> "" -> truthy s = true.
Proof. destruct s; [congruence|reflexivity]. Qed.

(** The three ways of the lookup in the clone cache. *)
Lemma cache_get_fresh src cache_key remote w n :
  cache_key <> "" ->
  fs w !! resolve (join SOURCES_CACHE cache_key) = Some n ->
  (clock w - node_ctime n <= 86400)%Q ->
  _clone_src_cache_get src cache_key remote w
  = (Ok (join SOURCES_CACHE cache_key),
     log_lines ["Using cached version of: " +:+ src +:+ ", from: "
                +:+ join SOURCES_CACHE cache_key; ""] w).
Proof.
  intros Hkey Hn Hage. unfold _clone_src_cache_get.
  rewrite (truthy_ne _ Hkey). unfold bind, exists_, time, getctime.
  rewrite Hn. rewrite bool_decide_eq_true_2 by eauto. cbv beta iota zeta.
  rewrite Hn. cbv beta iota zeta.
  apply Qle_bool_iff in Hage. rewrite Hage. reflexivity.
Qed.

Lemma cache_get_miss src cache_key remote w :
  cache_key <> "" ->
  fs w !! resolve (join SOURCES_CACHE cache_key) = None ->
  _clone_src_cache_get src cache_key remote w
  = (Ok remote, log_lines ["Downloading: " +:+ src] w).
Proof.
  intros Hkey Hn. unfold _clone_src_cache_get.
  rewrite (truthy_ne _ Hkey). unfold bind, exists_. rewrite Hn.
  rewrite bool_decide_eq_false_2 by (intros [? ?]; discriminate).
  reflexivity.
Qed.

Lemma cache_get_stale src cache_key remote w t :
  cache_key <> "" ->
  fs w !! resolve (join SOURCES_CACHE cache_key) = Some (Dir t) ->
  ~ (clock w - t <= 86400)%Q ->
  _clone_src_cache_get src cache_key remote w
  = (Ok remote, snd (rmtree (join SOURCES_CACHE cache_key) false w)).
Proof.
  intros Hkey Hn Hage. unfold _clone_src_cache_get.
  rewrite (truthy_ne _ Hkey). unfold bind, exists_, time, getctime.
  rewrite Hn. rewrite bool_decide_eq_true_2 by eauto.
  cbv beta iota zeta. rewrite Hn. cbv beta iota zeta. cbn [node_ctime].
  destruct (Qle_bool (clock w - t) 86400) eqn:Hq;
    [apply Qle_bool_iff in Hq; contradiction|].
  unfold rmtree. cbn [add_event fs]. rewrite Hn. reflexivity.
Qed.

(** The lookup hands back the remote it was given or the cached
    directory. *)
Lemma cache_get_value src cache_key remote w r w1 :
  _clone_src_cache_get src cache_key remote w = (Ok r, w1) ->
  r = remote \/ r = join SOURCES_CACHE cache_key.
Proof.
  unfold _clone_src_cache_get, bind, exists_, time, getctime, rmtree, _log,
    modify, ret.
  repeat match goal with
         | |- context [match ?x with _ => _ end] => destruct x
         end;
    intros H; try discriminate; injection H as <- _; auto.
Qed.

(** X4.  A source that is neither the working directory nor a hosted
    reference stops the run before any subprocess: the removal of the
    checkout is registered, nothing is run, and the process reports that it
    cannot parse the source, with no captured output, and exits with
    status 1. *)
Theorem unparseable_source_reported argv0 src attr rest w :
  is_src_local src = false ->
  _clone_src_github src = None -> _clone_src_gitlab src = None ->
  __main__ (argv0 :: src :: attr :: rest) w
  = (1%Z,
     at_exit
       (log_lines ["[ERROR] Unable to parse [SOURCE]: " +:+ src]
          (registered (banner w)))).
Proof.
  intros Hlocal Hgithub Hgitlab.
  assert (Hhead : _get_head src (banner w)
                  = (Raise (Error ("Unable to parse [SOURCE]: " +:+ src) None),
                     registered (banner w))).
  { unfold _get_head. apply bind_raise. rewrite _clone_src_stages.
    unfold source_ref. now rewrite Hlocal, Hgithub, Hgitlab. }
  assert (Hfail : stage_fails src attr w
                    (Error ("Unable to parse [SOURCE]: " +:+ src) None)
                    (registered (banner w))) by now left.
  rewrite __main___run.
  rewrite (main_of_cli _ _ _ _ (cli_stage_fails argv0 _ _ rest _ _ _ Hfail)).
  reflexivity.
Qed.

(** X5.  An [Error] that leaves [_clone_src] is the one of an unparseable
    source, or the one of the git command that failed: it names the stage
    (init, fetch or checkout), carries what that command printed, and the
    world is the one that command left, so that nothing was run after it.
    The fetch is from the remote of the source or from its cache entry. *)
Theorem clone_src_errors src w msg captured w' :
  _clone_src src w = (Raise (Error msg captured), w') ->
  (source_ref src = None
   /\ msg = "Unable to parse [SOURCE]: " +:+ src /\ captured = None
   /\ w' = registered w)
  \/ exists cache_key remote rev stage args w0,
       source_ref src = Some (cache_key, remote, rev)
       /\ Error msg captured = stage_error stage src args w0
       /\ stage_code args w0 <> 0%Z
       /\ w' = after_run args w0
       /\ extends (registered w) w0
       /\ ((stage = "init" /\ args = git_init (checkout_name w)
            /\ w0 = registered w)
           \/ (stage = "fetch"
               /\ exists remote',
                    args = git_fetch (checkout_name w) remote' rev
                    /\ (remote' = remote
                        \/ remote' = join SOURCES_CACHE cache_key))
           \/ (stage = "checkout"
               /\ args = git_checkout (checkout_name w) rev)).
Proof.
  rewrite _clone_src_stages.
  destruct (source_ref src) as [[[cache_key remote] rev]|] eqn:Href.
  2:{ intros [= <- <- <-]. left. auto. }
  intros Hrun. right. exists cache_key, remote, rev. cbv zeta in Hrun.
  assert (Hstage : forall stage args w0 e w1,
            git_stage stage src args w0 = (Raise e, w1) ->
            e = stage_error stage src args w0
            /\ stage_code args w0 <> 0%Z /\ w1 = after_run args w0).
  { intros stage args w0 e w1. rewrite git_stage_run.
    destruct (stage_code args w0 =? 0)%Z eqn:Hc; [discriminate|].
    apply Z.eqb_neq in Hc. intros [= <- <-]. auto. }
  assert (Hok : forall stage args w0 w1,
            git_stage stage src args w0 = (Ok tt, w1) ->
            extends w0 w1).
  { intros stage args w0 w1 H.
    eapply (keeps_extends any_exn); [|exact H].
    unfold git_stage. keeps_auto. }
  apply bind_inv_raise in Hrun as [Hinit | ([] & w1 & Hinit & Hrun)].
  { destruct (Hstage _ _ _ _ _ Hinit) as (He & Hc & Hw).
    exists "init", (git_init (checkout_name w)), (registered w).
    split; [reflexivity|]. split; [exact He|]. split; [exact Hc|].
    split; [exact Hw|]. split; [apply extends_refl|]. left. auto. }
  apply bind_inv_raise in Hrun as [Hget | (remote' & w2 & Hget & Hrun)].
  { exfalso.
    apply (proj2 (keeps__clone_src_cache_get is_os_error _ _ _
                    ltac:(intros ? ?; exact I) _ _ _ Hget) _ eq_refl). }
  assert (Hext2 : extends (registered w) w2).
  { eapply extends_trans; [exact (Hok _ _ _ _ Hinit)|].
    exact (keeps_extends any_exn _ _ _ _
             (keeps__clone_src_cache_get any_exn _ _ _
                ltac:(intros ? ?; exact I)) Hget). }
  apply bind_inv_raise in Hrun as [Hfetch | ([] & w3 & Hfetch & Hrun)].
  { destruct (Hstage _ _ _ _ _ Hfetch) as (He & Hc & Hw).
    exists "fetch", (git_fetch (checkout_name w) remote' rev), w2.
    split; [reflexivity|]. split; [exact He|]. split; [exact Hc|].
    split; [exact Hw|]. split; [exact Hext2|].
    right. left. split; [reflexivity|].
    exists remote'. split; [reflexivity|].
    exact (cache_get_value _ _ _ _ _ _ Hget). }
  assert (Hext3 : extends (registered w) w3).
  { eapply extends_trans; [exact Hext2 | exact (Hok _ _ _ _ Hfetch)]. }
  apply bind_inv_raise in Hrun as [Hcheckout | ([] & w4 & Hcheckout & Hrun)].
  { destruct (Hstage _ _ _ _ _ Hcheckout) as (He & Hc & Hw).
    exists "checkout", (git_checkout (checkout_name w) rev), w3.
    split; [reflexivity|]. split; [exact He|]. split; [exact Hc|].
    split; [exact Hw|]. split; [exact Hext3|]. right. right. auto. }
  exfalso.
  apply bind_inv_raise in Hrun as [Hrefresh | ([] & w5 & _ & Hret)];
    [|discriminate].
  apply (proj2 (keeps__clone_src_cache_refresh is_os_error _ _
                  ltac:(intros ? ?; exact I) _ _ _ Hrefresh) _ eq_refl).
Qed.

Lemma is_src_local_abspath src : is_src_local src = true -> abspath src = CWD.
Proof. unfold is_src_local. apply String.eqb_eq. Qed.

Lemma cache_refresh_no_key head w :
  _clone_src_cache_refresh head "" w = (Ok tt, w).
Proof. reflexivity. Qed.

(** X6.  The clone of the working directory is three git commands and
    nothing else: the init of the checkout, the fetch of [HEAD] from the
    working directory and the checkout of [HEAD].  The first that fails
    ends the clone with the [Error] of its stage; when none fails the clone
    returns the name of the checkout.  The clone cache is neither read nor
    written and nothing is printed. *)
Theorem local_clone_steps src w :
  is_src_local src = true ->
  let head := checkout_name w in
  let init := git_init head in
  let fetch := git_fetch head CWD "HEAD" in
  let checkout := git_checkout head "HEAD" in
  let w0 := registered w in
  let w1 := after_run init w0 in
  let w2 := after_run fetch w1 in
  let w3 := after_run checkout w2 in
  _clone_src src w
  = if negb (stage_code init w0 =? 0)%Z then
      (Raise (stage_error "init" src init w0), w1)
    else if negb (stage_code fetch w1 =? 0)%Z then
      (Raise (stage_error "fetch" src fetch w1), w2)
    else if negb (stage_code checkout w2 =? 0)%Z then
      (Raise (stage_error "checkout" src checkout w2), w3)
    else (Ok head, w3).
Proof.
  intros Hlocal head init fetch checkout w0 w1 w2 w3.
  rewrite _clone_src_stages. unfold source_ref.
  rewrite Hlocal, (is_src_local_abspath _ Hlocal). cbv zeta.
  fold head w0 init. unfold bind at 1. rewrite git_stage_run. fold w1.
  destruct (stage_code init w0 =? 0)%Z; cbn [negb]; [|reflexivity].
  rewrite (bind_ok (_clone_src_cache_get src "" CWD) _ w1 CWD w1 eq_refl).
  fold fetch. unfold bind at 1. rewrite git_stage_run. fold w2.
  destruct (stage_code fetch w1 =? 0)%Z; cbn [negb]; [|reflexivity].
  fold checkout. unfold bind at 1. rewrite git_stage_run. fold w3.
  destruct (stage_code checkout w2 =? 0)%Z; cbn [negb]; [|reflexivity].
  rewrite (bind_ok _ _ _ _ _ (cache_refresh_no_key head w3)). reflexivity.
Qed.

(** X7.  The clone of a hosted reference fetches from the clone cache when
    it can.  Once the init went well: with an entry no older than 86400
    seconds the clone says that it uses the cached version and fetches from
    the cached directory; without an entry it says that it downloads and
    fetches from the remote of the reference; with an older entry (a
    directory) it deletes the entry, says nothing and fetches from the
    remote.  The checkout and the refresh of the cache follow the fetch. *)
Theorem hosted_clone_uses_cache src cache_key remote rev w :
  source_ref src = Some (cache_key, remote, rev) ->
  cache_key <> "" ->
  let head := checkout_name w in
  let w1 := after_run (git_init head) (registered w) in
  let cached := join SOURCES_CACHE cache_key in
  let fetch_from remote :=
    git_stage "fetch" src (git_fetch head remote rev) ;;
    git_stage "checkout" src (git_checkout head rev) ;;
    _clone_src_cache_refresh head cache_key ;;
    ret head in
  stage_code (git_init head) (registered w) = 0%Z ->
  (forall n,
     fs w1 !! resolve cached = Some n ->
     (clock w1 - node_ctime n <= 86400)%Q ->
     _clone_src src w
     = fetch_from cached
         (log_lines ["Using cached version of: " +:+ src +:+ ", from: "
                     +:+ cached; ""] w1))
  /\ (fs w1 !! resolve cached = None ->
      _clone_src src w
      = fetch_from remote (log_lines ["Downloading: " +:+ src] w1))
  /\ (forall t,
        fs w1 !! resolve cached = Some (Dir t) ->
        ~ (clock w1 - t <= 86400)%Q ->
        _clone_src src w = fetch_from remote (snd (rmtree cached false w1))).
Proof.
  intros Href Hkey head w1 cached fetch_from Hinit.
  assert (Hstart : forall remote' w2,
            _clone_src_cache_get src cache_key remote w1 = (Ok remote', w2) ->
            _clone_src src w = fetch_from remote' w2).
  { intros remote' w2 Hget. rewrite _clone_src_stages, Href. cbv zeta.
    fold head. unfold bind at 1. rewrite git_stage_run, Hinit.
    cbn [Z.eqb]. fold w1. now rewrite (bind_ok _ _ _ _ _ Hget). }
  split; [|split].
  - intros n Hn Hage. apply Hstart. now apply (cache_get_fresh _ _ _ _ n).
  - intros Hn. apply Hstart. now apply cache_get_miss.
  - intros t Hn Hage. apply Hstart. now apply (cache_get_stale _ _ _ _ t).
Qed.

End CloneTheorems.

Lemma unparseable_source_reported_witness :
  fst (@__main__ (demo_env sc_edit) ["m"; "foo"; "/hello"] w_edit) = 1%Z.
Proof.
  rewrite (@unparseable_source_reported (demo_env sc_edit) "m" "foo" "/hello"
             [] w_edit);
    [reflexivity | vm_compute; reflexivity..].
Defined.

Lemma clone_src_errors_witness :
  exists cache_key remote rev,
    @source_ref (git_down sc_edit) "." = Some (cache_key, remote, rev).
Proof.
  destruct (@clone_src_errors (git_down sc_edit) "." w_edit
              "Unable to git init: ." (Some ("", "fatal: out of order"))
              (snd (@_clone_src (git_down sc_edit) "." w_edit)))
    as [(Hnone & _) | (cache_key & remote & rev & _ & _ & _ & Href & _)].
  - apply run_fst_raise. vm_compute. reflexivity.
  - vm_compute in Hnone. discriminate.
  - eauto.
Defined.

Lemma local_clone_steps_witness :
  fst (@_clone_src (demo_env sc_edit) "." w_edit) = Ok "/tmp/makes-a".
Proof.
  rewrite (@local_clone_steps (demo_env sc_edit) "." w_edit);
    [|vm_compute; reflexivity].
  vm_compute. reflexivity.
Defined.

Lemma hosted_clone_uses_cache_witness :
  In (EvRun (mkCall (git_fetch "/tmp/makes-a" demo_cached "v") None true))
    (events (snd (@_clone_src (demo_env sc_edit) "github:o/r@v"
                    (w_cached 50000)))).
Proof.
  destruct (@hosted_clone_uses_cache (demo_env sc_edit) "github:o/r@v"
              "github-o-r-v" "https://github.com/o/r" "v" (w_cached 50000))
    as [Hfresh _];
    [vm_compute; reflexivity | discriminate | vm_compute; reflexivity |].
  rewrite (Hfresh (Dir 50000));
    [|vm_compute; reflexivity | vm_compute; discriminate].
  vm_compute. repeat (first [left; reflexivity | right]).
Defined.

(** * The checkout of a hosted source, and a listing that fails *)

Section Head.
Context {E : Env}.

(** X12.  For a source that is not the working directory, [_get_head] runs
    no listing and copies nothing: the checkout is what the clone left,
    without the metadata directory.  When the clone left no metadata
    directory, the removal raises an [OSError]. *)
Theorem hosted_checkout_is_clone src w head w1 :
  is_src_local src = false ->
  _clone_src src w = (Ok head, w1) ->
  let git_dir := join head ".git" in
  match fs w1 !! resolve git_dir with
  | Some (Dir _) =>
      exists w',
        _get_head src w = (Ok head, w')
        /\ events w' = events w1 ++ [EvRmtree git_dir]
        /\ (forall k, in_tree (resolve git_dir) k = true -> fs w' !! k = None)
        /\ (forall k, in_tree (resolve git_dir) k = false ->
                      fs w' !! k = fs w1 !! k)
  | Some (File _ _) =>
      _get_head src w
      = (Raise (OSError NotADirectoryError git_dir),
         add_event (EvRmtree git_dir) w1)
  | None =>
      _get_head src w
      = (Raise (OSError FileNotFoundError git_dir),
         add_event (EvRmtree git_dir) w1)
  end.
Proof.
  intros Hlocal Hclone git_dir.
  assert (Hhead : _get_head src w
                  = (rmtree git_dir false ;; ret head) w1).
  { unfold _get_head. rewrite (bind_ok _ _ _ _ _ Hclone), Hlocal.
    cbn [when]. now rewrite (bind_ok (ret tt) _ w1 tt w1 eq_refl). }
  rewrite Hhead.
  destruct (fs w1 !! resolve git_dir) as [[content t|t]|] eqn:Hgit.
  - unfold bind, rmtree. cbn [add_event fs]. now rewrite Hgit.
  - destruct (rmtree_dir git_dir false w1 t Hgit)
      as (w' & Hrm & Hev & _ & Hgone & Hkept).
    exists w'. rewrite (bind_ok _ _ _ _ _ Hrm). auto.
  - unfold bind, rmtree. cbn [add_event fs]. now rewrite Hgit.
Qed.

(** X15.  In the working directory, a listing command that fails ends
    [_get_head] at once with the [Error] "Unable to list files" and what the
    command printed: no path is copied and the metadata directory of the
    checkout is not removed.  The second listing is only run when the first
    went well. *)
Theorem listing_failure_reported src w head w1 :
  is_src_local src = true ->
  _clone_src src w = (Ok head, w1) ->
  let diff := git_diff_cached src in
  let ls := git_ls_modified src in
  let failed args w :=
    Error ("Unable to list files: " +:+ src)
      (Some (proc_stdout (proc w (mkCall args None true)),
             proc_stderr (proc w (mkCall args None true)))) in
  (stage_code diff w1 <> 0%Z ->
   _get_head src w = (Raise (failed diff w1), after_run diff w1))
  /\ (stage_code diff w1 = 0%Z ->
      stage_code ls (after_run diff w1) <> 0%Z ->
      _get_head src w
      = (Raise (failed ls (after_run diff w1)),
         after_run ls (after_run diff w1))).
Proof.
  intros Hlocal Hclone diff ls failed.
  unfold _get_head. rewrite (bind_ok _ _ _ _ _ Hclone), Hlocal. cbn [when].
  unfold stage_code, after_run. fold diff ls. split.
  - intros Hcode. apply Z.eqb_neq in Hcode.
    unfold bind at 1. unfold bind at 1. rewrite !_run_run. cbn [snd].
    now rewrite Hcode.
  - intros Hcode Hcode'. apply Z.eqb_neq in Hcode'.
    unfold bind at 1. unfold bind at 1. rewrite !_run_run. cbn [snd].
    rewrite Hcode. cbn [Z.eqb negb]. unfold bind at 1. rewrite !_run_run.
    cbn [snd]. rewrite _run_run in Hcode'. cbn [snd] in Hcode'.
    now rewrite Hcode'.
Qed.

End Head.

Lemma hosted_checkout_is_clone_witness :
  fst (@_get_head (demo_env sc_edit) "github:o/r@v" (w_cached 50000))
  = Ok "/tmp/makes-a".
Proof.
  pose proof (@hosted_checkout_is_clone (demo_env sc_edit) "github:o/r@v"
                (w_cached 50000) "/tmp/makes-a"
                (snd (@_clone_src (demo_env sc_edit) "github:o/r@v"
                        (w_cached 50000)))) as H.
  cbv zeta in H.
  assert (Hgit : fs (snd (@_clone_src (demo_env sc_edit) "github:o/r@v"
                            (w_cached 50000)))
                 !! @resolve (demo_env sc_edit) (join "/tmp/makes-a" ".git")
                 = Some (Dir 100000)) by (vm_compute; reflexivity).
  rewrite Hgit in H. destruct H as (w' & -> & _);
    [vm_compute; reflexivity | apply run_fst; vm_compute; reflexivity|].
  reflexivity.
Defined.

Lemma listing_failure_reported_witness :
  fst (@_get_head (listing_down sc_edit) "." w_edit)
  = Raise (Error "Unable to list files: ." (Some ("", "fatal: out of order"))).
Proof.
  destruct (@listing_failure_reported (listing_down sc_edit) "." w_edit
              "/tmp/makes-a"
              (snd (@_clone_src (listing_down sc_edit) "." w_edit)))
    as [Hdiff _];
    [vm_compute; reflexivity | apply run_fst; vm_compute; reflexivity|].
  rewrite Hdiff; [|vm_compute; discriminate]. vm_compute. reflexivity.
Defined.

(** * The arguments of the build and the queries of the manifest *)

Section NixArgs.
Context {E : Env}.

(** Reading one field of every record: all the values, or the [KeyError]
    of a record that lacks the field; the world is not touched. *)
Lemma map_getitem_run key cs w :
  (exists vs,
     map_m (fun config => getitem config key) cs w = (Ok vs, w)
     /\ Forall2 (fun config v => config !! key = Some v) cs vs)
  \/ (map_m (fun config => getitem config key) cs w = (Raise (KeyError key), w)
      /\ exists config, config ∈ cs /\ config !! key = None).
Proof.
  induction cs as [|c cs IH]; simpl.
  - left. exists []. split; [reflexivity|constructor].
  - destruct (c !! key) as [v|] eqn:Hc.
    + rewrite (bind_ok _ _ _ _ _ (getitem_found c key v w Hc)).
      destruct IH as [(vs & Hrun & Hall) | (Hrun & c' & Hin & Hnone)].
      * left. exists (v :: vs). rewrite (bind_ok _ _ _ _ _ Hrun).
        split; [reflexivity | now constructor].
      * right. rewrite (bind_raise _ _ _ _ _ Hrun).
        split; [reflexivity|]. exists c'. split; [now right | exact Hnone].
    + right. split.
      * apply bind_raise. unfold getitem. now rewrite Hc.
      * exists c. split; [now left | exact Hc].
Qed.

Lemma Forall2_is_Some key (cs : list (gmap string string)) vs :
  Forall2 (fun config v => config !! key = Some v) cs vs ->
  Forall (fun config => is_Some (config !! key)) cs.
Proof. induction 1; constructor; eauto. Qed.

(** X9.  [_nix_build] reads and writes nothing: when it returns, the world
    differs only by the one random id that was drawn; when it raises, the
    world is untouched.  It raises only for a cache configuration with a
    record that lacks [url] or [pubKey]: the [KeyError] of [url] when a
    record lacks it, else the one of [pubKey]. *)
Theorem nix_build_touches_nothing attr cache head out w :
  match _nix_build attr cache head out w with
  | (Ok _, w') =>
      w' = set_uuid_counter (S (uuid_counter w)) w
      /\ forall cs,
           cache = Some cs ->
           Forall (fun config => is_Some (config !! "url")) cs
           /\ Forall (fun config => is_Some (config !! "pubKey")) cs
  | (Raise e, w') =>
      w' = w
      /\ exists cs config,
           cache = Some cs /\ config ∈ cs
           /\ ((e = KeyError "url" /\ config !! "url" = None)
               \/ (e = KeyError "pubKey" /\ config !! "pubKey" = None
                   /\ Forall (fun config => is_Some (config !! "url")) cs))
  end.
Proof.
  unfold _nix_build. destruct cache as [cs|].
  - unfold bind at 1. unfold bind at 1.
    destruct (map_getitem_run "url" cs w)
      as [(urls & -> & Hurls) | (-> & c & Hin & Hnone)].
    + unfold bind at 1.
      destruct (map_getitem_run "pubKey" cs w)
        as [(keys & -> & Hkeys) | (-> & c & Hin & Hnone)].
      * cbn. split; [reflexivity|]. intros ? [= <-].
        eauto using Forall2_is_Some.
      * split; [reflexivity|]. exists cs, c.
        repeat split; auto. right. eauto using Forall2_is_Some.
    + split; [reflexivity|]. exists cs, c. repeat split; auto.
  - cbn. split; [reflexivity | discriminate].
Qed.

(** X10.  The build is told the binary caches of the configuration it is
    given, and only those: for no configuration, [cache.nixos.org] and its
    key; for a list of records, their [url] fields and their [pubKey] fields
    joined by spaces, which is the empty text for the empty list.  The
    sandbox option is [false] under the flag [K8S_COMPAT] and [true]
    otherwise. *)
Theorem nix_build_substituters attr cache head out w args w' :
  _nix_build attr cache head out w = (Ok args, w') ->
  exists urls keys,
    match cache with
    | None =>
        urls = ["https://cache.nixos.org"]
        /\ keys
           = ["cache.nixos.org-1:6NCHdD59X431o0gWypbMrAURkbJ16ZPMQFGspcDShjY="]
    | Some cs =>
        Forall2 (fun config url => config !! "url" = Some url) cs urls
        /\ Forall2 (fun config key => config !! "pubKey" = Some key) cs keys
    end
    /\ exists before after,
         args
         = before
           ++ ["--option"; "substituters"; str_join " " urls;
               "--option"; "trusted-public-keys"; str_join " " keys;
               "--option"; "sandbox"; if K8S_COMPAT then "false" else "true"]
           ++ after.
Proof.
  unfold _nix_build. intros Hrun.
  apply bind_inv_ok in Hrun as ([subs pubs] & w1 & Hcache & Hrun).
  assert (Hvalues : exists urls keys,
    match cache with
    | None =>
        urls = ["https://cache.nixos.org"]
        /\ keys
           = ["cache.nixos.org-1:6NCHdD59X431o0gWypbMrAURkbJ16ZPMQFGspcDShjY="]
    | Some cs =>
        Forall2 (fun config url => config !! "url" = Some url) cs urls
        /\ Forall2 (fun config key => config !! "pubKey" = Some key) cs keys
    end
    /\ subs = str_join " " urls /\ pubs = str_join " " keys).
  { destruct cache as [cs|].
    - apply bind_inv_ok in Hcache as (urls & w2 & Hurls & Hcache).
      apply bind_inv_ok in Hcache as (keys & w3 & Hkeys & Hret).
      injection Hret as <- <- _. exists urls, keys.
      destruct (map_getitem_run "url" cs w) as [(us & Hu & Hall) | (Hu & _)];
        rewrite Hu in Hurls; [|discriminate]. injection Hurls as <- <-.
      destruct (map_getitem_run "pubKey" cs w) as [(ks & Hk & Hall') | (Hk & _)];
        rewrite Hk in Hkeys; [|discriminate]. injection Hkeys as <- <-.
      auto.
    - injection Hcache as <- <- _. eexists _, _. repeat split; reflexivity. }
  destruct Hvalues as (urls & keys & Hfields & -> & ->).
  exists urls, keys. split; [exact Hfields|].
  apply bind_inv_ok in Hrun as (id & w2 & _ & Hret). injection Hret as <- _.
  exists (_if NIX_STABLE [__NIX_STABLE__ +:+ "/bin/nix-build"]
          ++ _if (negb NIX_STABLE) [__NIX_UNSTABLE__ +:+ "/bin/nix"]
          ++ _if (negb NIX_STABLE)
               ["--experimental-features"; "flakes nix-command"]
          ++ _if (negb NIX_STABLE) ["build"]
          ++ _if NIX_STABLE ["--argstr"; "makesExecutionId"; id]
          ++ _if NIX_STABLE ["--argstr"; "makesSrc"; __MAKES_SRC__]
          ++ _if NIX_STABLE ["--argstr"; "projectSrc"; head]
          ++ _if NIX_STABLE ["--attr"; attr]
          ++ ["--option"; "cores"; "0"]
          ++ _if (negb NIX_STABLE) ["--impure"]
          ++ ["--option"; "narinfo-cache-negative-ttl"; "1"]
          ++ ["--option"; "narinfo-cache-positive-ttl"; "1"]
          ++ ["--option"; "max-jobs"; "auto"]).
  exists (_if (truthy out) ["--out-link"; out]
          ++ _if (negb (truthy out)) ["--no-out-link"]
          ++ ["--show-trace"]
          ++ _if NIX_STABLE [__MAKES_SRC__ +:+ "/src/evaluator/default.nix"]
          ++ _if (negb NIX_STABLE) [attr]).
  destruct NIX_STABLE; reflexivity.
Qed.

Lemma nix_build_default attr head out w :
  exists args,
    _nix_build attr None head out w
    = (Ok args, set_uuid_counter (S (uuid_counter w)) w).
Proof. unfold _nix_build. eexists. reflexivity. Qed.

(** The shape that [_get_attrs] and [_get_cache] share. *)
Lemma query_run {A} (decode : string -> option A) attr msg head w :
  exists args,
    _nix_build attr None head (temp_out w)
      (set_tmp_counter (S (tmp_counter w)) w)
    = (Ok args, query_world w)
    /\ query_outcome
         ((let* out := mktemp in
           let* args := _nix_build attr None head out in
           let* '(code, stdout, stderr) := _run args None true in
           if (code =? 0)%Z then
             let* text := read_text out in
             match decode text with
             | Some a => ret a
             | None => raise JSONDecodeError
             end
           else raise (Error msg (Some (stdout, stderr)))) w)
         decode msg args (query_world w) (temp_out w).
Proof.
  destruct (nix_build_default attr head (temp_out w)
              (set_tmp_counter (S (tmp_counter w)) w)) as [args Hargs].
  exists args. split; [exact Hargs|]. unfold query_outcome.
  rewrite (bind_ok mktemp _ w (temp_out w)
             (set_tmp_counter (S (tmp_counter w)) w) eq_refl).
  rewrite (bind_ok _ _ _ _ _ Hargs).
  change (set_uuid_counter _ (set_tmp_counter _ w)) with (query_world w).
  rewrite (bind_ok _ _ _ _ _ (_run_run _ _ _ _)).
  unfold after_run. rewrite _run_run. cbn [snd].
  destruct (returncode _ =? 0)%Z; [|reflexivity].
  unfold bind, read_text. cbn [fs add_event set_clock set_fs].
  destruct (fs_after _ !! resolve (temp_out w)) as [[text t|t]|]; try reflexivity.
  destruct (decode text); reflexivity.
Qed.

(** X11.  The two queries of the manifest, the list of the outputs and the
    cache configuration, run one build each with the default binary cache
    and a fresh temporary name as the output link.  After a code other than
    0 the query raises the [Error] of its kind with what the build printed
    and reads nothing.  After the code 0 it returns what the file at the
    link decodes to; a link that is not there raises a [FileNotFoundError]
    and a text that does not decode raises a [JSONDecodeError], neither of
    which is an [Error] of the pipeline. *)
Theorem manifest_query_outcomes src head w :
  (exists args,
     _nix_build
       (if NIX_STABLE then "config.attrs"
        else head +:+ "#__makes__." +:+ dquote +:+ "config:attrs" +:+ dquote)
       None head (temp_out w) (set_tmp_counter (S (tmp_counter w)) w)
     = (Ok args, query_world w)
     /\ query_outcome (_get_attrs src head w) json_load_attrs
          ("Unable to list project outputs from: " +:+ src) args
          (query_world w) (temp_out w))
  /\ (exists args,
        _nix_build
          (if NIX_STABLE then "config.cacheAsJson"
           else head +:+ "#__makes__." +:+ dquote +:+ "config:cacheAsJson"
                +:+ dquote)
          None head (temp_out w) (set_tmp_counter (S (tmp_counter w)) w)
        = (Ok args, query_world w)
        /\ query_outcome (_get_cache src head w) json_load_cache
             ("Unable to get cache config from: " +:+ src) args
             (query_world w) (temp_out w)).
Proof. split; apply query_run. Qed.

End NixArgs.

Lemma nix_build_substituters_witness :
  exists before after,
    fst (@_nix_build (demo_env sc_push) "x" (Some [cachix_config])
           "/tmp/makes-a" "/tmp/o" w_edit)
    = Ok (before
          ++ ["--option"; "substituters"; "https://makes.cachix.org";
              "--option"; "trusted-public-keys"; "makes.cachix.org-1:key";
              "--option"; "sandbox"; "true"]
          ++ after).
Proof.
  destruct (@nix_build_substituters (demo_env sc_push) "x"
              (Some [cachix_config]) "/tmp/makes-a" "/tmp/o" w_edit
              (["/nix/stable/bin/nix-build"; "--argstr"; "makesExecutionId";
                "00000000"; "--argstr"; "makesSrc"; "/nix/makes"; "--argstr";
                "projectSrc"; "/tmp/makes-a"; "--attr"; "x"; "--option";
                "cores"; "0"; "--option"; "narinfo-cache-negative-ttl"; "1";
                "--option"; "narinfo-cache-positive-ttl"; "1"; "--option";
                "max-jobs"; "auto"; "--option"; "substituters";
                "https://makes.cachix.org"; "--option"; "trusted-public-keys";
                "makes.cachix.org-1:key"; "--option"; "sandbox"; "true";
                "--out-link"; "/tmp/o"; "--show-trace";
                "/nix/makes/src/evaluator/default.nix"])
              (snd (@_nix_build (demo_env sc_push) "x" (Some [cachix_config])
                      "/tmp/makes-a" "/tmp/o" w_edit)))
    as (urls & keys & [Hurls Hkeys] & before & after & Hargs).
  - apply run_fst. vm_compute. reflexivity.
  - exists before, after.
    inversion Hurls as [|? url ? ? Hurl Hnil]; subst. inversion Hnil; subst.
    inversion Hkeys as [|? key ? ? Hkey Hnil']; subst. inversion Hnil'; subst.
    vm_compute in Hurl. injection Hurl as <-.
    vm_compute in Hkey. injection Hkey as <-.
    vm_compute in Hargs. vm_compute. now rewrite <- Hargs.
Defined.

(** * The push to the binary cache, record by record *)

Section Push.
Context {E : Env}.

Lemma cache_push_skip config rest out w t :
  config !! "type" = Some t ->
  (t = "cachix" -> environ !! "CACHIX_AUTH_TOKEN" = None) ->
  cache_push (config :: rest) out w = cache_push rest out w.
Proof.
  intros Htype Hskip. cbn [cache_push].
  rewrite (bind_ok _ _ _ _ _ (getitem_found config "type" t w Htype)).
  destruct (String.eqb t "cachix") eqn:Ht; [|reflexivity].
  apply String.eqb_eq in Ht. rewrite (Hskip Ht).
  rewrite bool_decide_eq_false_2 by (intros [? ?]; discriminate).
  reflexivity.
Qed.

Lemma cache_push_skips pre rest out w :
  Forall (fun config =>
            exists t, config !! "type" = Some t
                      /\ (t = "cachix" ->
                          environ !! "CACHIX_AUTH_TOKEN" = None)) pre ->
  cache_push (pre ++ rest) out w = cache_push rest out w.
Proof.
  induction 1 as [|config pre (t & Htype & Hskip) _ IH]; [reflexivity|].
  cbn [app]. now rewrite (cache_push_skip _ _ _ _ t Htype Hskip).
Qed.

(** X21.  The push goes to the first Cachix record and stops there: with
    the token in the environment and records of other types before it, the
    first record of type [cachix] is announced and pushed to, and the
    records after it are not looked at, whatever they hold. *)
Theorem cache_push_stops_at_first pre config post name out w :
  is_Some (environ !! "CACHIX_AUTH_TOKEN") ->
  Forall (fun config =>
            exists t, config !! "type" = Some t /\ t <> "cachix") pre ->
  config !! "type" = Some "cachix" ->
  config !! "name" = Some name ->
  cache_push (pre ++ config :: post) out w
  = (Ok tt,
     snd (_run ["cachix"; "push"; "-c"; "0"; name; out] None false
            (log_lines ["Pushing to cache"] w))).
Proof.
  intros Htoken Hpre Htype Hname. rewrite cache_push_skips.
  - cbn [cache_push].
    rewrite (bind_ok _ _ _ _ _ (getitem_found config "type" _ w Htype)).
    rewrite bool_decide_eq_true_2 by assumption.
    rewrite String.eqb_refl. cbn [andb].
    rewrite (bind_ok _ _ _ _ _ (_log_run _ _)).
    rewrite (bind_ok _ _ _ _ _ (getitem_found config "name" _ _ Hname)).
    rewrite (bind_ok _ _ _ _ _ (_run_run _ _ _ _)). rewrite _run_run.
    reflexivity.
  - eapply Forall_impl; [exact Hpre|]. intros c (t & Ht & Hne).
    exists t. split; [exact Ht | intros ->; congruence].
Qed.

(** X22.  The push reads the [type] of every record up to the one it pushes
    to, with or without the token, and the [name] of that one only: a
    record without [type] raises the [KeyError] of [type] and nothing is
    printed; a Cachix record without [name], when the token is there,
    raises the [KeyError] of [name] once the push is announced. *)
Theorem cache_push_missing_field pre config post out w :
  Forall (fun config =>
            exists t, config !! "type" = Some t
                      /\ (t = "cachix" ->
                          environ !! "CACHIX_AUTH_TOKEN" = None)) pre ->
  (config !! "type" = None ->
   cache_push (pre ++ config :: post) out w = (Raise (KeyError "type"), w))
  /\ (config !! "type" = Some "cachix" ->
      is_Some (environ !! "CACHIX_AUTH_TOKEN") ->
      config !! "name" = None ->
      cache_push (pre ++ config :: post) out w
      = (Raise (KeyError "name"), log_lines ["Pushing to cache"] w)).
Proof.
  intros Hpre. rewrite (cache_push_skips _ _ _ _ Hpre). split.
  - intros Htype. cbn [cache_push]. apply bind_raise.
    unfold getitem. now rewrite Htype.
  - intros Htype Htoken Hname. cbn [cache_push].
    rewrite (bind_ok _ _ _ _ _ (getitem_found config "type" _ w Htype)).
    rewrite bool_decide_eq_true_2 by assumption.
    rewrite String.eqb_refl. cbn [andb].
    rewrite (bind_ok _ _ _ _ _ (_log_run _ _)).
    apply bind_raise. unfold getitem. now rewrite Hname.
Qed.


End Push.

Lemma cache_push_stops_at_first_witness :
  events (snd (@cache_push (demo_env sc_push)
                 [other_config; cachix_config; untyped_config; cachix_config]
                 "/tmp/o" w_edit))
  = [EvLog "Pushing to cache";
     EvRun (mkCall ["cachix"; "push"; "-c"; "0"; "makes"; "/tmp/o"] None
              false)].
Proof.
  pose proof (@cache_push_stops_at_first (demo_env sc_push) [other_config]
                cachix_config [untyped_config; cachix_config] "makes" "/tmp/o"
                w_edit) as Hpush.
  cbn [app] in Hpush. rewrite Hpush.
  - reflexivity.
  - vm_compute. eexists. reflexivity.
  - constructor; [|constructor]. exists "attic".
    split; [vm_compute; reflexivity | discriminate].
  - vm_compute. reflexivity.
  - vm_compute. reflexivity.
Defined.

Lemma cache_push_missing_field_witness :
  @cache_push (demo_env sc_edit) [other_config; untyped_config] "/tmp/o" w_edit
  = (Raise (KeyError "type"), w_edit).
Proof.
  apply (@cache_push_missing_field (demo_env sc_edit) [other_config]
           untyped_config [] "/tmp/o" w_edit).
  - constructor; [|constructor]. exists "attic".
    split; [vm_compute; reflexivity | discriminate].
  - vm_compute. reflexivity.
Defined.


(** * What the cleanup leaves *)

Lemma str_prefix_iff a k : String.prefix a k = true <-> exists r, k = a +:+ r.
Proof.
  revert k. induction a as [|c a IH]; intros k.
  - split; [intros _; now exists k | intros _; now destruct k].
  - destruct k as [|d k]; simpl.
    + split; [discriminate | intros [r Hr]; discriminate Hr].
    + destruct (ascii_dec c d) as [->|Hne].
      * rewrite IH. split; intros [r Hr]; exists r;
          [now rewrite Hr | now injection Hr].
      * split; [discriminate|]. intros [r Hr]. injection Hr as -> _.
        congruence.
Qed.

Lemma under_iff d k : under d k = true <-> exists r, k = d +:+ "/" +:+ r.
Proof.
  unfold under. rewrite str_prefix_iff.
  split; intros [r ->]; exists r; now rewrite ?append_assoc.
Qed.

Lemma in_tree_trans q p k :
  in_tree q p = true -> in_tree p k = true -> in_tree q k = true.
Proof.
  unfold in_tree. intros Hqp Hpk.
  apply orb_true_iff in Hqp as [Hqp | Hqp];
    [apply String.eqb_eq in Hqp; now subst p|].
  apply orb_true_iff in Hpk as [Hpk | Hpk];
    [apply String.eqb_eq in Hpk; subst k; rewrite Hqp; apply orb_true_r|].
  apply orb_true_iff. right.
  apply under_iff in Hqp as [r1 ->]. apply under_iff in Hpk as [r2 ->].
  apply under_iff. exists (r1 +:+ "/" +:+ r2). now rewrite !append_assoc.
Qed.

Section AtExit.
Context {E : Env}.

(** One cleanup action: the tree of a directory goes, everything else
    stays, and a failure is swallowed. *)
Lemma action_effect a w :
  exists w',
    suppress (run_action a) w = (Ok tt, w')
    /\ forall k,
         fs w' !! k
         = match a with
           | RmtreeAction path _ =>
               if is_dir_node (fs w !! resolve path)
                  && in_tree (resolve path) k
               then None else fs w !! k
           end.
Proof.
  destruct a as [path b]. cbn [run_action]. unfold suppress.
  destruct (fs w !! resolve path) as [[c t|t]|] eqn:Hpath.
  - unfold rmtree. cbn [add_event fs]. rewrite Hpath.
    destruct b; eexists; split; reflexivity.
  - destruct (rmtree_dir path b w t Hpath) as (w' & -> & _ & _ & Hin & Hout).
    exists w'. split; [reflexivity|]. intros k. cbn [is_dir_node andb].
    destruct (in_tree (resolve path) k) eqn:Hk; [now apply Hin | now apply Hout].
  - unfold rmtree. cbn [add_event fs]. rewrite Hpath.
    destruct b; eexists; split; reflexivity.
Qed.

Lemma actions_effect (l : list action) : forall w,
  exists w',
    for_each l (fun action => suppress (run_action action)) w = (Ok tt, w')
    /\ (forall k, fs w' !! k = fs w !! k \/ fs w' !! k = None)
    /\ (forall k,
          (forall path b, RmtreeAction path b ∈ l ->
                          in_tree (resolve path) k = false) ->
          fs w' !! k = fs w !! k)
    /\ (forall path b,
          RmtreeAction path b ∈ l ->
          is_dir_node (fs w' !! resolve path) = false
          /\ (is_dir_node (fs w !! resolve path) = true ->
              forall k, in_tree (resolve path) k = true -> fs w' !! k = None)).
Proof.
  induction l as [|[p c] l IH]; intros w.
  - exists w. split; [reflexivity|]. split; [auto|]. split; [auto|].
    intros path b Hin. inversion Hin.
  - destruct (action_effect (RmtreeAction p c) w) as (w1 & Hstep & Hfs).
    destruct (IH w1) as (w' & Hrun & Hless & Hout & Hgone).
    exists w'. split; [cbn [for_each]; now rewrite (bind_ok _ _ _ _ _ Hstep)|].
    assert (Hless1 : forall k, fs w1 !! k = fs w !! k \/ fs w1 !! k = None).
    { intros k. rewrite Hfs.
      destruct (is_dir_node (fs w !! resolve p) && in_tree (resolve p) k); auto. }
    split; [|split].
    + intros k. destruct (Hless k) as [-> | ->]; auto.
    + intros k Hk. rewrite Hout.
      * rewrite Hfs, (Hk p c) by now left. now rewrite andb_false_r.
      * intros path b Hin. apply (Hk path b). now right.
    + intros path b Hin. apply elem_of_cons in Hin as [[= -> ->] | Hin].
      * assert (Hnodir : is_dir_node (fs w1 !! resolve p) = false).
        { rewrite Hfs, in_tree_self, andb_true_r.
          destruct (is_dir_node (fs w !! resolve p)) eqn:Hd; [reflexivity|].
          exact Hd. }
        split.
        -- destruct (Hless (resolve p)) as [-> | ->]; [exact Hnodir|reflexivity].
        -- intros Hdir k Hk.
           assert (Hnone : fs w1 !! k = None) by now rewrite Hfs, Hdir, Hk.
           destruct (Hless k) as [-> | ->]; [exact Hnone|reflexivity].
      * destruct (Hgone path b Hin) as [Hnodir Htree].
        split; [exact Hnodir|]. intros Hdir k Hk.
        destruct (is_dir_node (fs w1 !! resolve path)) eqn:Hd1;
          [now apply Htree|].
        assert (Hcut : is_dir_node (fs w !! resolve p)
                       && in_tree (resolve p) (resolve path) = true).
        { destruct (is_dir_node (fs w !! resolve p)
                    && in_tree (resolve p) (resolve path)) eqn:Hc;
            [reflexivity|].
          rewrite Hfs, Hc in Hd1. congruence. }
        apply andb_true_iff in Hcut as [Hpd Hpt].
        assert (Hnone : fs w1 !! k = None).
        { rewrite Hfs, Hpd, (in_tree_trans _ _ _ Hpt Hk). reflexivity. }
        destruct (Hless k) as [-> | ->]; [exact Hnone|reflexivity].
Qed.

(** X26.  The cleanup only deletes, and only inside the registered trees.
    When it is over, no directory is left at a registered path, and of a
    registered path that was a directory nothing is left, the path itself
    and all that was below it; every entry outside the registered trees is
    as it was. *)
Theorem cleanup_removes_registered_trees w :
  (forall path b,
     RmtreeAction path b ∈ ON_EXIT w ->
     is_dir_node (fs (at_exit w) !! resolve path) = false
     /\ (is_dir_node (fs w !! resolve path) = true ->
         forall k, in_tree (resolve path) k = true ->
                   fs (at_exit w) !! k = None))
  /\ (forall k, fs (at_exit w) !! k = fs w !! k \/ fs (at_exit w) !! k = None)
  /\ (forall k,
        (forall path b, RmtreeAction path b ∈ ON_EXIT w ->
                        in_tree (resolve path) k = false) ->
        fs (at_exit w) !! k = fs w !! k).
Proof.
  destruct (actions_effect (ON_EXIT w) w) as (w' & Hrun & Hless & Hout & Hgone).
  assert (Hexit : at_exit w = w').
  { unfold at_exit, cleanup, bind, get_world. now rewrite Hrun. }
  rewrite Hexit. auto.
Qed.

Lemma bind_extends_mid {A B} (m : M A) (k : A -> M B) w :
  (forall a, keeps any_exn (k a)) ->
  extends (snd (m w)) (snd (bind m k w)).
Proof.
  intros Hk. unfold bind. destruct (m w) as [[a|e] w1]; cbn [snd].
  - destruct (k a w1) as [r w2] eqn:Hrun.
    exact (keeps_extends _ _ _ _ _ (Hk a) Hrun).
  - apply extends_refl.
Qed.

Lemma clone_src_registers src w : extends (registered w) (snd (_clone_src src w)).
Proof.
  rewrite _clone_src_stages.
  destruct (source_ref src) as [[[cache_key remote] rev]|];
    [|apply extends_refl].
  cbv zeta.
  match goal with
  | |- extends _ (snd (?m _)) =>
      destruct (m (registered w)) as [r w1] eqn:Hrun;
      apply (keeps_extends any_exn m _ r w1); [|exact Hrun]
  end.
  assert (Hos : os_closed any_exn) by (intros ? ?; exact I).
  pose proof (keeps__clone_src_cache_get any_exn).
  pose proof (keeps__clone_src_cache_refresh any_exn).
  unfold git_stage. keeps_auto.
Qed.

Lemma get_head_registers src w : extends (registered w) (snd (_get_head src w)).
Proof.
  eapply extends_trans; [apply clone_src_registers|].
  unfold _get_head. apply bind_extends_mid. intros head.
  assert (Hos : os_closed any_exn) by (intros ? ?; exact I).
  pose proof (keeps_copy_path_to_head any_exn). keeps_auto.
Qed.

Lemma cli_registers argv0 src rest w :
  extends (registered (banner w)) (snd (cli (argv0 :: src :: rest) w)).
Proof.
  assert (Hos : os_closed any_exn) by (intros ? ?; exact I).
  assert (Herr : error_closed any_exn) by (intros ? ?; exact I).
  assert (Hkey : key_closed any_exn) by (intros ?; exact I).
  pose proof keeps__help_and_exit. pose proof keeps_execute_action.
  pose proof (keeps__get_attrs any_exn). pose proof (keeps__get_cache any_exn).
  pose proof (keeps__nix_build any_exn). pose proof (keeps_cache_push any_exn).
  eapply extends_trans; [apply (get_head_registers src)|].
  destruct rest as [|attr rest].
  - rewrite cli_source_only. unfold try_except_Error.
    destruct ((let* head := _get_head src in _get_attrs src head) (banner w))
      as [r0 w1] eqn:Hbody.
    assert (Hmid : extends (snd (_get_head src (banner w))) w1).
    { pose proof (bind_extends_mid (_get_head src)
                    (fun head => _get_attrs src head) (banner w)) as Hm.
      rewrite Hbody in Hm. apply Hm. intros head. keeps_auto. }
    eapply extends_trans; [exact Hmid|].
    destruct r0 as [attrs|e].
    + rewrite _help_and_exit_run. cbn [snd].
      destruct (log_lines_events (help_lines (Some src) (Some attrs) None) w1)
        as (Hev & _ & Hon & _).
      split; [eexists; exact Hev | exists []; now rewrite app_nil_r].
    + destruct e; try apply extends_refl.
      rewrite _help_and_exit_run. cbn [snd].
      destruct (log_lines_events
                  (help_lines (Some src) None (Some (Error msg captured))) w1)
        as (Hev & _ & Hon & _).
      split; [eexists; exact Hev | exists []; now rewrite app_nil_r].
  - rewrite cli_stages. apply bind_extends_mid. intros head.
    unfold after_build. keeps_auto.
Qed.

(** X27.  Whatever happens in a run that names a source, no directory is
    left at the end at the place of the checkout, nor at any path that was
    registered for cleanup before the run: the removal of the checkout is
    registered before the first subprocess starts, no later step takes a
    cleanup action away, and the cleanup runs them all. *)
Theorem checkout_removed_at_exit argv0 src rest w :
  let w' := snd (__main__ (argv0 :: src :: rest) w) in
  is_dir_node (fs w' !! resolve (checkout_name w)) = false
  /\ (forall path b,
        RmtreeAction path b ∈ ON_EXIT w ->
        is_dir_node (fs w' !! resolve path) = false).
Proof.
  intros w'. subst w'. rewrite __main___run. cbn [snd].
  destruct (cli_always_raises (argv0 :: src :: rest) w) as (e & w1 & Hcli).
  pose proof (cli_registers argv0 src rest w) as Hreg. rewrite Hcli in Hreg.
  cbn [snd] in Hreg. rewrite (main_of_cli _ _ _ _ Hcli). cbn [snd].
  set (w2 := log_lines (report_lines e) w1).
  assert (Hon : exists acts,
            ON_EXIT w2
            = (ON_EXIT w ++ [RmtreeAction (checkout_name w) true]) ++ acts).
  { destruct Hreg as [_ [acts Hacts]]. exists acts. subst w2.
    destruct (log_lines_events (report_lines e) w1) as (_ & _ & -> & _).
    exact Hacts. }
  destruct Hon as [acts Hon].
  destruct (actions_effect (ON_EXIT w2) w2) as (w' & Hrun & _ & _ & Hgone).
  assert (Hexit : at_exit w2 = w').
  { unfold at_exit, cleanup, bind, get_world. now rewrite Hrun. }
  rewrite Hexit. split.
  - apply (Hgone (checkout_name w) true). rewrite Hon.
    apply elem_of_app. left. apply elem_of_app. right. now left.
  - intros path b Hin. apply (Hgone path b). rewrite Hon.
    apply elem_of_app. left. apply elem_of_app. now left.
Qed.

End AtExit.

(** * Filling the clone cache *)




Section Refresh.
Context {E : Env}.







End Refresh.


(** * A listed path that is a directory *)

Section ListedDirectory.
Context {E : Env}.

(** X16.  In the working directory, a listed path that is a directory there
    (a submodule, say) and is not a file of the checkout stops [_get_head]:
    its turn hands the directory to [shutil.copy], which raises
    [IsADirectoryError].  What leaves [_get_head] is an [OSError], not an
    [Error] of the pipeline. *)
Theorem listed_directory_raises src w head w1 p :
  is_src_local src = true ->
  listings_read_only src ->
  _clone_src src w = (Ok head, w1) ->
  listings_succeed src w1 ->
  p ∈ listed_paths src w1 ->
  is_dir_node (fs w1 !! src_key src p) = true ->
  ~ is_file (fs w1) (dest_key head p) ->
  not_copied_onto src head (listed_paths src w1) p = true ->
  (forall w0,
     is_Some (fs w0 !! resolve (dirname (join head p))) ->
     is_dir_node (fs w0 !! src_key src p) = true ->
     copy_path_to_head src head p w0
     = (Raise (OSError IsADirectoryError (join src p)), w0))
  /\ exists kind path w2,
       _get_head src w = (Raise (OSError kind path), w2).
Proof.
  intros Hlocal Hro Hclone Hlist Hin Hsrc Hdest Hapart. split.
  - intros w0 Hparent Hsrc0. unfold copy_path_to_head.
    unfold bind at 1, exists_. rewrite bool_decide_eq_true_2 by assumption.
    cbn [negb when]. rewrite (bind_ok _ _ _ tt _ eq_refl).
    unfold bind, exists_. fold (src_key src p).
    destruct (fs w0 !! src_key src p) as [[c t|t]|] eqn:Hnode;
      try discriminate.
    rewrite bool_decide_eq_true_2 by eauto.
    unfold shutil_copy. fold (src_key src p). now rewrite Hnode.
  - pose proof (_get_head_local _ _ _ _ Hlocal Hclone Hlist) as Hhead.
    destruct (overlay_loop_raises (fs w1) src head p) with
      (l := listed_paths src w1) (done := @nil string)
      (w := after_listings src w1) as (kind & path & w2 & Hloop).
    + exact Hdest.
    + unfold is_file.
      destruct (fs w1 !! src_key src p) as [[c t|t]|]; try discriminate.
      auto.
    + rewrite (listings_keep_files _ _ Hro). intros k Hk. now left.
    + exact Hin.
    + intros q Hq. inversion Hq.
    + intros q [Hq | Hq] Hne; [inversion Hq|].
      now apply (not_copied_onto_spec _ _ _ _ Hapart).
    + rewrite (bind_raise _ _ _ _ _ Hloop) in Hhead. eauto.
Qed.

End ListedDirectory.

Lemma listed_directory_raises_witness :
  exists kind path w2,
    @_get_head (demo_env sc_submodule) "." w_submodule
    = (Raise (OSError kind path), w2).
Proof.
  apply (@listed_directory_raises (demo_env sc_submodule) "." w_submodule
           "/tmp/makes-a"
           (snd (@_clone_src (demo_env sc_submodule) "." w_submodule)) "sub").
  - vm_compute. reflexivity.
  - apply demo_listings_read_only.
  - apply run_fst. vm_compute. reflexivity.
  - split; vm_compute; reflexivity.
  - vm_compute. left.
  - vm_compute. reflexivity.
  - vm_compute. intros H. now apply H.
  - vm_compute. reflexivity.
Defined.

(** * The revision that git is given, and a clean working tree *)

Lemma quote_byte_length c : (1 <= String.length (quote_byte c))%nat.
Proof.
  unfold quote_byte. destruct (always_safe c); [simpl; lia|].
  destruct (Ascii.eqb c " "); simpl; lia.
Qed.

Lemma url_quote_length s : (String.length s <= String.length (url_quote s))%nat.
Proof.
  induction s as [|c s IH]; [reflexivity|]. cbn [url_quote String.length].
  rewrite append_length. pose proof (quote_byte_length c). lia.
Qed.

(** Percent-encoding leaves a text as it is exactly when the text is made
    of unreserved characters. *)
Lemma url_quote_fixed s : url_quote s = s <-> all_safe s = true.
Proof.
  induction s as [|c s IH]; [easy|]. cbn [url_quote all_safe].
  unfold quote_byte. destruct (always_safe c) eqn:Hsafe; cbn [andb].
  - change (String c "" +:+ url_quote s) with (String c (url_quote s)).
    rewrite <- IH. split; [now intros [= ->] | now intros ->].
  - split; [|discriminate]. intros Heq. exfalso.
    destruct (Ascii.eqb c " ") eqn:Hspace.
    + apply Ascii.eqb_eq in Hspace. subst c. discriminate Heq.
    + cbn in Heq. injection Heq as _ Hs.
      apply (f_equal String.length) in Hs. cbn [String.length] in Hs.
      pose proof (url_quote_length s). lia.
Qed.

(** X2.  The revision of a hosted reference reaches git percent-encoded:
    the reference parses to the encoded revision, which is the revision as
    written exactly when it is made of letters, digits and the four
    characters underscore, full stop, hyphen and tilde.  A revision with any
    other character, a slash for one, is asked of git under another
    name. *)
Theorem hosted_revision_encoded p owner repo rev :
  valid_components owner repo rev ->
  (exists key remote,
     parse_hosted p
       (provider_name p +:+ ":" +:+ owner +:+ "/" +:+ repo +:+ "@" +:+ rev)
     = Some (key, remote, url_quote rev))
  /\ (url_quote rev = rev <-> all_safe rev = true).
Proof.
  intros Hvalid. split; [|apply url_quote_fixed].
  pose proof (hosted_regex_complete (provider_name p) owner repo rev Hvalid)
    as Hm.
  destruct p; cbn [parse_hosted provider_name] in *;
    unfold _clone_src_github, _clone_src_gitlab; rewrite Hm; eauto.
Qed.

Section CleanTree.
Context {E : Env}.

(** X13.  In a working directory where both listings print nothing, the
    overlay has no path: [_get_head] copies and removes nothing, and the
    checkout is what the clone left without the metadata directory. *)
Theorem clean_tree_checkout src w head w1 :
  is_src_local src = true ->
  _clone_src src w = (Ok head, w1) ->
  listings_succeed src w1 ->
  staged_output src w1 = "" ->
  modified_output src w1 = "" ->
  listed_paths src w1 = []
  /\ _get_head src w
     = match rmtree (join head ".git") false (after_listings src w1) with
       | (Ok _, w') => (Ok head, w')
       | (Raise e, w') => (Raise e, w')
       end.
Proof.
  intros Hlocal Hclone Hlist Hstaged Hmodified.
  assert (Hpaths : listed_paths src w1 = []).
  { unfold listed_paths. rewrite Hstaged, Hmodified. reflexivity. }
  split; [exact Hpaths|].
  rewrite (_get_head_local _ _ _ _ Hlocal Hclone Hlist), Hpaths.
  cbn [for_each]. rewrite (bind_ok (ret tt) _ _ tt _ eq_refl).
  unfold bind. destruct (rmtree _ _ _) as [[[]|e] w']; reflexivity.
Qed.

End CleanTree.

Lemma hosted_revision_encoded_witness :
  exists key remote,
    parse_hosted GitHub "github:o/r@feature/x"
    = Some (key, remote, "feature%2Fx").
Proof.
  apply (hosted_revision_encoded GitHub "o" "r" "feature/x").
  repeat split; reflexivity.
Defined.

Lemma clean_tree_checkout_witness :
  fst (@_get_head (demo_env sc_clean) "." w_edit) = Ok "/tmp/makes-a".
Proof.
  destruct (@clean_tree_checkout (demo_env sc_clean) "." w_edit "/tmp/makes-a"
              (snd (@_clone_src (demo_env sc_clean) "." w_edit)))
    as [_ ->];
    [vm_compute; reflexivity | apply run_fst; vm_compute; reflexivity
    | split; vm_compute; reflexivity | vm_compute; reflexivity
    | vm_compute; reflexivity |].
  vm_compute. reflexivity.
Defined.
